(** * Truth Markets settlement core: claim registry, market, attestation

    A shallow embedding of the three Move modules of the package
    [truth_markets] (claim_registry, market, attestation) together with the
    handful of Sui framework primitives they call, followed by the
    properties of the settlement core.

    Conventions:
    - a [u64] is a [Z]; every arithmetic operation is checked the way the
      Move VM checks it and aborts instead of wrapping;
    - an [address] and an object [ID] are [N];
    - [vector<u8>] is [list byte], [String] is [string];
    - [Balance<SUI>] is its [u64] value, a [Coin<SUI>] passed by value is
      its amount;
    - [Table<K, V>] is a [gmap K V] with the abort behaviour of
      [sui::table] written out;
    - a Move function that can abort returns an [outcome]; since an abort
      reverts the whole transaction, an aborted call carries no state.
    Event emission is not modelled: no property below depends on it. *)

From Stdlib Require Import ZArith String List Lia Bool.
From Stdlib.Strings Require Import Byte.
From stdpp Require Import base option list gmap.

Local Open Scope Z_scope.

(** ** Aborts *)

(** Where an abort code comes from. *)
Inductive origin :=
| InClaimRegistry
| InMarket
| InAttestation
| InBalance
| InDynamicField
| InVector.

(** The four ways checked [u64] arithmetic fails. *)
Inductive arith_fault := AddOverflow | SubUnderflow | MulOverflow | DivByZero.

(** An abort raised by [assert!] or by the framework, a failed arithmetic
    check, or a transaction refused before it runs because an object it
    names does not exist. *)
Inductive abort_code :=
| MoveAbort (o : origin) (code : Z)
| ArithmeticError (f : arith_fault)
| ObjectNotFound.

Inductive outcome (A : Type) :=
| Ok (a : A)
| Abort (e : abort_code).

Arguments Ok {A} a.
Arguments Abort {A} e.

#[global] Instance outcome_ret : MRet outcome := fun A a => Ok a.

#[global] Instance outcome_bind : MBind outcome := fun A B f m =>
  match m with
  | Ok a => f a
  | Abort e => Abort e
  end.

(** [assert!(cond, code)] *)
Definition assert (cond : bool) (e : abort_code) : outcome unit :=
  if cond then Ok tt else Abort e.

Definition is_ok {A} (r : outcome A) : bool :=
  match r with Ok _ => true | Abort _ => false end.

(** ** Checked 64-bit arithmetic *)

Definition MAX_U64 : Z := 18446744073709551615.

Definition is_u64 (n : Z) : Prop := 0 <= n <= MAX_U64.

Definition u64_add (a b : Z) : outcome Z :=
  if a + b <=? MAX_U64 then Ok (a + b) else Abort (ArithmeticError AddOverflow).

Definition u64_sub (a b : Z) : outcome Z :=
  if b <=? a then Ok (a - b) else Abort (ArithmeticError SubUnderflow).

Definition u64_mul (a b : Z) : outcome Z :=
  if a * b <=? MAX_U64 then Ok (a * b) else Abort (ArithmeticError MulOverflow).

(** Unsigned division truncates; on non-negative operands that is [Z.div]. *)
Definition u64_div (a b : Z) : outcome Z :=
  if b =? 0 then Abort (ArithmeticError DivByZero) else Ok (a / b).

(** ** Framework types *)

Definition address := N.
Definition ID := N.
Definition UID := ID.

#[global] Instance byte_eq_decision : EqDecision byte := byte_eq_dec.

#[global] Instance byte_countable : Countable byte :=
  inj_countable Byte.to_N Byte.of_N Byte.of_to_N.

(** [TxContext]: the signer and the counter from which fresh object ids are
    drawn. *)
Record TxContext := {
  sender : address;
  fresh : N
}.

(** [object::new(ctx)] *)
Definition object_new (ctx : TxContext) : UID * TxContext :=
  (fresh ctx, {| sender := sender ctx; fresh := N.succ (fresh ctx) |}).

(** [Clock]: only its millisecond timestamp is read. *)
Record Clock := { timestamp_ms : Z }.

(** [sui::balance] *)
Module balance.
Definition ENotEnough : Z := 2.
Definition zero : Z := 0.
Definition value (self : Z) : Z := self.
Definition join (self v : Z) : outcome Z := u64_add self v.
Definition split (self v : Z) : outcome (Z * Z) :=
  _ ← assert (v <=? self) (MoveAbort InBalance ENotEnough);
  rest ← u64_sub self v;
  Ok (rest, v).
End balance.

(** [sui::coin]: [put] merges a coin into a balance, [take] splits a new
    coin (a fresh object) off a balance. *)
Module coin.
Definition value (c : Z) : Z := c.
Definition put (bal c : Z) : outcome Z := balance.join bal c.
Definition take (bal v : Z) (ctx : TxContext) : outcome (Z * Z * TxContext) :=
  let '(_, ctx) := object_new ctx in
  '(rest, c) ← balance.split bal v;
  Ok (rest, c, ctx).
End coin.

(** [sui::table]: [add] aborts on a key that is present, [borrow] and
    [borrow_mut] abort on a key that is absent. *)
Module table.
Definition EFieldAlreadyExists : Z := 0.
Definition EFieldDoesNotExist : Z := 1.

Section Ops.
Context {K V : Type} `{Countable K}.

Definition contains (t : gmap K V) (k : K) : bool :=
  bool_decide (is_Some (t !! k)).

Definition add (t : gmap K V) (k : K) (v : V) : outcome (gmap K V) :=
  match t !! k with
  | Some _ => Abort (MoveAbort InDynamicField EFieldAlreadyExists)
  | None => Ok (<[k := v]> t)
  end.

Definition borrow (t : gmap K V) (k : K) : outcome V :=
  match t !! k with
  | Some v => Ok v
  | None => Abort (MoveAbort InDynamicField EFieldDoesNotExist)
  end.
End Ops.
End table.

(** [std::vector::borrow] on a byte vector; out of range it aborts with
    [EINDEX_OUT_OF_BOUNDS]. *)
Definition EINDEX_OUT_OF_BOUNDS : Z := 131072.

Definition vector_borrow (v : list byte) (i : nat) : outcome byte :=
  match v !! i with
  | Some b => Ok b
  | None => Abort (MoveAbort InVector EINDEX_OUT_OF_BOUNDS)
  end.

(** ** Module [truth_markets::claim_registry] *)

Module claim_registry.

Definition EInvalidDeadline : Z := 0.
Definition EClaimAlreadyResolved : Z := 1.
Definition EDeadlineNotReached : Z := 2.
Definition EUnauthorized : Z := 3.
Definition EInvalidStatus : Z := 4.

Definition STATUS_OPEN : Z := 0.
Definition STATUS_RESOLVING : Z := 1.
Definition STATUS_RESOLVED : Z := 2.
Definition STATUS_CANCELLED : Z := 3.

Definition err (code : Z) : abort_code := MoveAbort InClaimRegistry code.

Record Claim := {
  id : UID;
  creator : address;
  spec_blob_id : string;
  evidence_blob_id : string;
  description : string;
  deadline : Z;
  status : Z;
  result : option bool;
  result_blob_id : option string;
  resolver_measurement : option (list byte);
  yes_stake : Z;
  no_stake : Z;
  creator_fee_bps : Z;
  protocol_fee_bps : Z;
  escrow : Z;
  created_at : Z;
  resolved_at : option Z
}.

(** [ClaimRegistry]; its [id] field is [registry_id] here. *)
Record ClaimRegistry := {
  registry_id : UID;
  total_claims : Z;
  protocol_fee_recipient : address;
  default_protocol_fee_bps : Z
}.

(** Field updates, one per group of fields a function writes. *)
Definition set_status (c : Claim) (s : Z) : Claim :=
  {| id := id c; creator := creator c; spec_blob_id := spec_blob_id c;
     evidence_blob_id := evidence_blob_id c; description := description c;
     deadline := deadline c; status := s; result := result c;
     result_blob_id := result_blob_id c;
     resolver_measurement := resolver_measurement c;
     yes_stake := yes_stake c; no_stake := no_stake c;
     creator_fee_bps := creator_fee_bps c;
     protocol_fee_bps := protocol_fee_bps c; escrow := escrow c;
     created_at := created_at c; resolved_at := resolved_at c |}.

Definition set_escrow (c : Claim) (e : Z) : Claim :=
  {| id := id c; creator := creator c; spec_blob_id := spec_blob_id c;
     evidence_blob_id := evidence_blob_id c; description := description c;
     deadline := deadline c; status := status c; result := result c;
     result_blob_id := result_blob_id c;
     resolver_measurement := resolver_measurement c;
     yes_stake := yes_stake c; no_stake := no_stake c;
     creator_fee_bps := creator_fee_bps c;
     protocol_fee_bps := protocol_fee_bps c; escrow := e;
     created_at := created_at c; resolved_at := resolved_at c |}.

Definition set_yes_stake (c : Claim) (y : Z) : Claim :=
  {| id := id c; creator := creator c; spec_blob_id := spec_blob_id c;
     evidence_blob_id := evidence_blob_id c; description := description c;
     deadline := deadline c; status := status c; result := result c;
     result_blob_id := result_blob_id c;
     resolver_measurement := resolver_measurement c;
     yes_stake := y; no_stake := no_stake c;
     creator_fee_bps := creator_fee_bps c;
     protocol_fee_bps := protocol_fee_bps c; escrow := escrow c;
     created_at := created_at c; resolved_at := resolved_at c |}.

Definition set_no_stake (c : Claim) (n : Z) : Claim :=
  {| id := id c; creator := creator c; spec_blob_id := spec_blob_id c;
     evidence_blob_id := evidence_blob_id c; description := description c;
     deadline := deadline c; status := status c; result := result c;
     result_blob_id := result_blob_id c;
     resolver_measurement := resolver_measurement c;
     yes_stake := yes_stake c; no_stake := n;
     creator_fee_bps := creator_fee_bps c;
     protocol_fee_bps := protocol_fee_bps c; escrow := escrow c;
     created_at := created_at c; resolved_at := resolved_at c |}.

Definition set_resolution (c : Claim) (r : bool) (blob : string)
    (m : list byte) (now : Z) : Claim :=
  {| id := id c; creator := creator c; spec_blob_id := spec_blob_id c;
     evidence_blob_id := evidence_blob_id c; description := description c;
     deadline := deadline c; status := STATUS_RESOLVED; result := Some r;
     result_blob_id := Some blob;
     resolver_measurement := Some m;
     yes_stake := yes_stake c; no_stake := no_stake c;
     creator_fee_bps := creator_fee_bps c;
     protocol_fee_bps := protocol_fee_bps c; escrow := escrow c;
     created_at := created_at c; resolved_at := Some now |}.

Definition set_total_claims (r : ClaimRegistry) (n : Z) : ClaimRegistry :=
  {| registry_id := registry_id r; total_claims := n;
     protocol_fee_recipient := protocol_fee_recipient r;
     default_protocol_fee_bps := default_protocol_fee_bps r |}.

(** [fun init]: the registry shared at publication. *)
Definition init (ctx : TxContext) : ClaimRegistry * TxContext :=
  let '(uid, ctx') := object_new ctx in
  ({| registry_id := uid; total_claims := 0;
      protocol_fee_recipient := sender ctx;
      default_protocol_fee_bps := 100 |}, ctx').

(** [public entry fun create_claim]: returns the registry as updated and
    the claim it shares. *)
Definition create_claim (registry : ClaimRegistry)
    (spec_blob evidence_blob descr : string) (deadline_ms fee_bps : Z)
    (clock : Clock) (ctx : TxContext)
    : outcome (ClaimRegistry * Claim * TxContext) :=
  let now := timestamp_ms clock in
  _ ← assert (now <? deadline_ms) (err EInvalidDeadline);
  let '(uid, ctx') := object_new ctx in
  let claim :=
    {| id := uid; creator := sender ctx; spec_blob_id := spec_blob;
       evidence_blob_id := evidence_blob; description := descr;
       deadline := deadline_ms; status := STATUS_OPEN; result := None;
       result_blob_id := None; resolver_measurement := None;
       yes_stake := 0; no_stake := 0; creator_fee_bps := fee_bps;
       protocol_fee_bps := default_protocol_fee_bps registry;
       escrow := balance.zero; created_at := now; resolved_at := None |} in
  total ← u64_add (total_claims registry) 1;
  Ok (set_total_claims registry total, claim, ctx').

(** [public(package) fun add_stake] *)
Definition add_stake (claim : Claim) (amount : Z) (is_yes : bool)
    : outcome Claim :=
  _ ← assert (status claim =? STATUS_OPEN) (err EInvalidStatus);
  let stake_amount := coin.value amount in
  bal ← coin.put (escrow claim) amount;
  let claim := set_escrow claim bal in
  if is_yes then
    y ← u64_add (yes_stake claim) stake_amount;
    Ok (set_yes_stake claim y)
  else
    n ← u64_add (no_stake claim) stake_amount;
    Ok (set_no_stake claim n).

(** [public(package) fun resolve_claim] *)
Definition resolve_claim (claim : Claim) (res : bool) (blob : string)
    (measurement : list byte) (clock : Clock) : outcome Claim :=
  let now := timestamp_ms clock in
  _ ← assert (deadline claim <=? now) (err EDeadlineNotReached);
  _ ← assert ((status claim =? STATUS_OPEN) || (status claim =? STATUS_RESOLVING))
        (err EClaimAlreadyResolved);
  Ok (set_resolution claim res blob measurement now).

(** [public entry fun cancel_claim] *)
Definition cancel_claim (claim : Claim) (reason : string) (ctx : TxContext)
    : outcome Claim :=
  _ ← assert (bool_decide (creator claim = sender ctx)) (err EUnauthorized);
  _ ← assert ((yes_stake claim =? 0) && (no_stake claim =? 0)) (err EInvalidStatus);
  _ ← assert (status claim =? STATUS_OPEN) (err EInvalidStatus);
  Ok (set_status claim STATUS_CANCELLED).

(** [public(package) fun withdraw_escrow]: the claim after the debit and
    the coin taken out. *)
Definition withdraw_escrow (claim : Claim) (amount : Z) (ctx : TxContext)
    : outcome (Claim * Z * TxContext) :=
  '(rest, c, ctx') ← coin.take (escrow claim) amount ctx;
  Ok (set_escrow claim rest, c, ctx').

Definition get_status (claim : Claim) : Z := status claim.
Definition get_result (claim : Claim) : option bool := result claim.
Definition get_deadline (claim : Claim) : Z := deadline claim.
Definition get_yes_stake (claim : Claim) : Z := yes_stake claim.
Definition get_no_stake (claim : Claim) : Z := no_stake claim.
Definition get_creator (claim : Claim) : address := creator claim.
Definition get_creator_fee_bps (claim : Claim) : Z := creator_fee_bps claim.
Definition get_protocol_fee_bps (claim : Claim) : Z := protocol_fee_bps claim.
Definition get_escrow_balance (claim : Claim) : Z := balance.value (escrow claim).
Definition is_resolved (claim : Claim) : bool := status claim =? STATUS_RESOLVED.

(** [public entry fun update_protocol_fee] *)
Definition update_protocol_fee (registry : ClaimRegistry) (new_fee_bps : Z)
    (ctx : TxContext) : outcome ClaimRegistry :=
  _ ← assert (bool_decide (protocol_fee_recipient registry = sender ctx))
        (err EUnauthorized);
  Ok {| registry_id := registry_id registry;
        total_claims := total_claims registry;
        protocol_fee_recipient := protocol_fee_recipient registry;
        default_protocol_fee_bps := new_fee_bps |}.

(** [public entry fun update_fee_recipient] *)
Definition update_fee_recipient (registry : ClaimRegistry)
    (new_recipient : address) (ctx : TxContext) : outcome ClaimRegistry :=
  _ ← assert (bool_decide (protocol_fee_recipient registry = sender ctx))
        (err EUnauthorized);
  Ok {| registry_id := registry_id registry;
        total_claims := total_claims registry;
        protocol_fee_recipient := new_recipient;
        default_protocol_fee_bps := default_protocol_fee_bps registry |}.

End claim_registry.

(** ** Module [truth_markets::market] *)

Module market.

Definition EInvalidAmount : Z := 0.
Definition EClaimNotResolved : Z := 1.
Definition EAlreadyClaimed : Z := 2.
Definition ENoWinnings : Z := 3.
Definition EInvalidClaim : Z := 4.

Definition err (code : Z) : abort_code := MoveAbort InMarket code.

Record Position := {
  id : UID;
  claim_id : ID;
  user : address;
  yes_amount : Z;
  no_amount : Z;
  claimed : bool
}.

(** [MarketState]; its [id] and [claim_id] fields carry the prefix
    [market_] here, [positions] maps a user to a position id. *)
Record MarketState := {
  market_id : UID;
  market_claim_id : ID;
  positions : gmap address ID;
  total_positions : Z
}.

Definition set_claimed (p : Position) : Position :=
  {| id := id p; claim_id := claim_id p; user := user p;
     yes_amount := yes_amount p; no_amount := no_amount p; claimed := true |}.

(** [public entry fun create_market]: the market state it shares.
    [table::new] draws an object id of its own. *)
Definition create_market (cid : ID) (ctx : TxContext) : MarketState * TxContext :=
  let '(uid, ctx) := object_new ctx in
  let '(_, ctx) := object_new ctx in
  ({| market_id := uid; market_claim_id := cid; positions := ∅;
      total_positions := 0 |}, ctx).

(** [public entry fun stake]: the claim and the market as updated, and the
    position transferred to the signer.  The branch on
    [table::contains] only reads the stored id. *)
Definition stake (claim : claim_registry.Claim) (mkt : MarketState)
    (payment : Z) (is_yes : bool) (ctx : TxContext)
    : outcome (claim_registry.Claim * MarketState * Position * TxContext) :=
  let amount := coin.value payment in
  _ ← assert (0 <? amount) (err EInvalidAmount);
  _ ← assert (claim_registry.get_status claim =? 0) (err EInvalidClaim);
  let usr := sender ctx in
  let cid := claim_registry.id claim in
  claim ← claim_registry.add_stake claim payment is_yes;
  _ ← (if table.contains (positions mkt) usr
       then _ ← table.borrow (positions mkt) usr; Ok tt
       else Ok tt);
  let '(uid, ctx) := object_new ctx in
  let position :=
    {| id := uid; claim_id := cid; user := usr;
       yes_amount := if is_yes then amount else 0;
       no_amount := if is_yes then 0 else amount;
       claimed := false |} in
  let position_id := uid in
  tbl ← table.add (positions mkt) usr position_id;
  total ← u64_add (total_positions mkt) 1;
  Ok (claim,
      {| market_id := market_id mkt; market_claim_id := market_claim_id mkt;
         positions := tbl; total_positions := total |},
      position, ctx).

(** The arithmetic of [claim_winnings] between the stake check and the
    withdrawal: the amount to pay out. *)
Definition payout_amount (claim : claim_registry.Claim) (won : bool)
    (user_stake : Z) : outcome Z :=
  let yes_stake := claim_registry.get_yes_stake claim in
  let no_stake := claim_registry.get_no_stake claim in
  total_stake ← u64_add yes_stake no_stake;
  let winning_stake := if won then yes_stake else no_stake in
  let losing_stake := if won then no_stake else yes_stake in
  let creator_fee_bps := claim_registry.get_creator_fee_bps claim in
  let protocol_fee_bps := claim_registry.get_protocol_fee_bps claim in
  total_fee_bps ← u64_add creator_fee_bps protocol_fee_bps;
  scaled ← u64_mul user_stake 10000;
  user_share ← u64_div scaled winning_stake;
  gross ← u64_mul losing_stake user_share;
  winnings_from_losers ← u64_div gross 10000;
  fee_product ← u64_mul winnings_from_losers total_fee_bps;
  fees ← u64_div fee_product 10000;
  net_winnings ← u64_sub winnings_from_losers fees;
  u64_add user_stake net_winnings.

(** [public entry fun claim_winnings]: the claim and the position as
    updated, and the coin transferred to [position.user].  The assertion
    that the result is set and the borrow of its content are one match. *)
Definition claim_winnings (claim : claim_registry.Claim) (position : Position)
    (ctx : TxContext)
    : outcome (claim_registry.Claim * Position * Z * TxContext) :=
  _ ← assert (claim_registry.is_resolved claim) (err EClaimNotResolved);
  _ ← assert (negb (claimed position)) (err EAlreadyClaimed);
  _ ← assert (bool_decide (user position = sender ctx)) (err EInvalidClaim);
  match claim_registry.get_result claim with
  | None => Abort (err EClaimNotResolved)
  | Some won =>
      let user_stake := if won then yes_amount position else no_amount position in
      _ ← assert (0 <? user_stake) (err ENoWinnings);
      total_payout ← payout_amount claim won user_stake;
      '(claim, payout_coin, ctx) ← claim_registry.withdraw_escrow claim total_payout ctx;
      Ok (claim, set_claimed position, payout_coin, ctx)
  end.

(** [public entry fun claim_refund] *)
Definition claim_refund (claim : claim_registry.Claim) (position : Position)
    (ctx : TxContext)
    : outcome (claim_registry.Claim * Position * Z * TxContext) :=
  _ ← assert (claim_registry.get_status claim =? 3) (err EInvalidClaim);
  _ ← assert (negb (claimed position)) (err EAlreadyClaimed);
  _ ← assert (bool_decide (user position = sender ctx)) (err EInvalidClaim);
  refund_amount ← u64_add (yes_amount position) (no_amount position);
  _ ← assert (0 <? refund_amount) (err ENoWinnings);
  '(claim, refund_coin, ctx) ← claim_registry.withdraw_escrow claim refund_amount ctx;
  Ok (claim, set_claimed position, refund_coin, ctx).

Definition get_position_yes_amount (position : Position) : Z := yes_amount position.
Definition get_position_no_amount (position : Position) : Z := no_amount position.
Definition is_position_claimed (position : Position) : bool := claimed position.

End market.

(** ** Module [truth_markets::attestation] *)

Module attestation.

Definition EInvalidMeasurement : Z := 0.
Definition EMeasurementNotWhitelisted : Z := 1.
Definition EUnauthorized : Z := 2.
Definition EInvalidAttestation : Z := 3.

Definition err (code : Z) : abort_code := MoveAbort InAttestation code.

Record MeasurementInfo := {
  description : string;
  added_at : Z;
  active : bool
}.

Record MeasurementRegistry := {
  id : UID;
  measurements : gmap (list byte) MeasurementInfo;
  admin : address
}.

(** [fun init] *)
Definition init (ctx : TxContext) : MeasurementRegistry * TxContext :=
  let '(uid, ctx') := object_new ctx in
  let '(_, ctx') := object_new ctx' in
  ({| id := uid; measurements := ∅; admin := sender ctx |}, ctx').

(** [public entry fun whitelist_measurement] *)
Definition whitelist_measurement (registry : MeasurementRegistry)
    (measurement : list byte) (descr : string) (clock : Clock)
    (ctx : TxContext) : outcome MeasurementRegistry :=
  _ ← assert (bool_decide (admin registry = sender ctx)) (err EUnauthorized);
  _ ← assert (Z.of_nat (length measurement) =? 32) (err EInvalidMeasurement);
  let info := {| description := descr; added_at := timestamp_ms clock;
                 active := true |} in
  tbl ← table.add (measurements registry) measurement info;
  Ok {| id := id registry; measurements := tbl; admin := admin registry |}.

(** [public entry fun revoke_measurement] *)
Definition revoke_measurement (registry : MeasurementRegistry)
    (measurement : list byte) (ctx : TxContext) : outcome MeasurementRegistry :=
  _ ← assert (bool_decide (admin registry = sender ctx)) (err EUnauthorized);
  info ← table.borrow (measurements registry) measurement;
  let info := {| description := description info; added_at := added_at info;
                 active := false |} in
  Ok {| id := id registry;
        measurements := <[measurement := info]> (measurements registry);
        admin := admin registry |}.

(** The loop of [submit_attested_resolution] that copies the bytes
    [0 .. 31] of the attestation, one [vector::borrow] and one
    [push_back] per index. *)
Definition read_measurement (attestation : list byte) : outcome (list byte) :=
  foldl (fun acc i =>
           measurement ← acc;
           b ← vector_borrow attestation i;
           Ok (measurement ++ [b]))
        (Ok []) (seq 0 32).

(** [public entry fun submit_attested_resolution] *)
Definition submit_attested_resolution (registry : MeasurementRegistry)
    (claim : claim_registry.Claim) (res : bool) (blob : string)
    (attestation : list byte) (clock : Clock) (ctx : TxContext)
    : outcome claim_registry.Claim :=
  _ ← assert (32 <=? Z.of_nat (length attestation)) (err EInvalidAttestation);
  measurement ← read_measurement attestation;
  _ ← assert (table.contains (measurements registry) measurement)
        (err EMeasurementNotWhitelisted);
  info ← table.borrow (measurements registry) measurement;
  _ ← assert (active info) (err EMeasurementNotWhitelisted);
  claim_registry.resolve_claim claim res blob measurement clock.

(** [public fun is_measurement_whitelisted] *)
Definition is_measurement_whitelisted (registry : MeasurementRegistry)
    (measurement : list byte) : bool :=
  match measurements registry !! measurement with
  | None => false
  | Some info => active info
  end.

(** [public entry fun update_admin] *)
Definition update_admin (registry : MeasurementRegistry) (new_admin : address)
    (ctx : TxContext) : outcome MeasurementRegistry :=
  _ ← assert (bool_decide (admin registry = sender ctx)) (err EUnauthorized);
  Ok {| id := id registry; measurements := measurements registry;
        admin := new_admin |}.

End attestation.

(** ** The ledger: shared and owned objects, and transactions

    The objects the package creates, keyed by object id, and the log of
    coins transferred out of claim escrows.  A transaction names the
    objects it is applied to; any signer may present any position (the
    ownership rule of the chain only removes behaviours). *)

Record World := {
  claims : gmap ID claim_registry.Claim;
  markets : gmap ID market.MarketState;
  positions : gmap ID market.Position;
  claim_reg : claim_registry.ClaimRegistry;
  measurement_reg : attestation.MeasurementRegistry;
  next_id : N;
  paid : list (ID * address * Z)
}.

Inductive Call :=
| CreateClaim (spec_blob evidence_blob descr : string) (deadline_ms fee_bps : Z)
| CreateMarket (cid : ID)
| Stake (claim_obj market_obj : ID) (payment : Z) (is_yes : bool)
| ClaimWinnings (claim_obj position_obj : ID)
| ClaimRefund (claim_obj position_obj : ID)
| CancelClaim (claim_obj : ID) (reason : string)
| SubmitAttestedResolution (claim_obj : ID) (res : bool) (blob : string)
    (att : list byte)
| WhitelistMeasurement (measurement : list byte) (descr : string)
| RevokeMeasurement (measurement : list byte)
| UpdateAdmin (new_admin : address)
| UpdateProtocolFee (new_fee_bps : Z)
| UpdateFeeRecipient (new_recipient : address).

Record Tx := {
  tx_sender : address;
  tx_now : Z;
  tx_call : Call
}.

(** A transaction over an object that does not exist is refused. *)
Definition fetch {A} (m : gmap ID A) (k : ID) : outcome A :=
  match m !! k with
  | Some a => Ok a
  | None => Abort ObjectNotFound
  end.

Definition put_claim (w : World) (c : claim_registry.Claim) : World :=
  {| claims := <[claim_registry.id c := c]> (claims w); markets := markets w;
     positions := positions w; claim_reg := claim_reg w;
     measurement_reg := measurement_reg w; next_id := next_id w;
     paid := paid w |}.

Definition put_market (w : World) (m : market.MarketState) : World :=
  {| claims := claims w; markets := <[market.market_id m := m]> (markets w);
     positions := positions w; claim_reg := claim_reg w;
     measurement_reg := measurement_reg w; next_id := next_id w;
     paid := paid w |}.

Definition put_position (w : World) (p : market.Position) : World :=
  {| claims := claims w; markets := markets w;
     positions := <[market.id p := p]> (positions w); claim_reg := claim_reg w;
     measurement_reg := measurement_reg w; next_id := next_id w;
     paid := paid w |}.

Definition put_claim_reg (w : World) (r : claim_registry.ClaimRegistry) : World :=
  {| claims := claims w; markets := markets w; positions := positions w;
     claim_reg := r; measurement_reg := measurement_reg w;
     next_id := next_id w; paid := paid w |}.

Definition put_measurement_reg (w : World) (r : attestation.MeasurementRegistry)
    : World :=
  {| claims := claims w; markets := markets w; positions := positions w;
     claim_reg := claim_reg w; measurement_reg := r; next_id := next_id w;
     paid := paid w |}.

Definition close_ctx (w : World) (ctx : TxContext) : World :=
  {| claims := claims w; markets := markets w; positions := positions w;
     claim_reg := claim_reg w; measurement_reg := measurement_reg w;
     next_id := fresh ctx; paid := paid w |}.

(** [transfer::public_transfer(coin, recipient)] of a coin taken from the
    escrow of claim [cid]. *)
Definition pay (w : World) (cid : ID) (recipient : address) (amount : Z) : World :=
  {| claims := claims w; markets := markets w; positions := positions w;
     claim_reg := claim_reg w; measurement_reg := measurement_reg w;
     next_id := next_id w; paid := (cid, recipient, amount) :: paid w |}.

(** The state right after publication by [publisher]: both [init]
    functions have run. *)
Definition genesis (publisher : address) : World :=
  let ctx := {| sender := publisher; fresh := 0%N |} in
  let '(creg, ctx1) := claim_registry.init ctx in
  let '(mreg, ctx2) := attestation.init ctx1 in
  {| claims := ∅; markets := ∅; positions := ∅; claim_reg := creg;
     measurement_reg := mreg; next_id := fresh ctx2; paid := [] |}.

(** One transaction: the entry function named by the call, applied to the
    objects looked up in the ledger. *)
Definition run (w : World) (tx : Tx) : outcome World :=
  let ctx := {| sender := tx_sender tx; fresh := next_id w |} in
  let clock := {| timestamp_ms := tx_now tx |} in
  match tx_call tx with
  | CreateClaim spec_blob evidence_blob descr deadline_ms fee_bps =>
      '(reg, c, ctx) ← claim_registry.create_claim (claim_reg w) spec_blob
                          evidence_blob descr deadline_ms fee_bps clock ctx;
      Ok (close_ctx (put_claim (put_claim_reg w reg) c) ctx)
  | CreateMarket cid =>
      let '(m, ctx) := market.create_market cid ctx in
      Ok (close_ctx (put_market w m) ctx)
  | Stake claim_obj market_obj payment is_yes =>
      c ← fetch (claims w) claim_obj;
      m ← fetch (markets w) market_obj;
      '(c, m, p, ctx) ← market.stake c m payment is_yes ctx;
      Ok (close_ctx (put_position (put_market (put_claim w c) m) p) ctx)
  | ClaimWinnings claim_obj position_obj =>
      c ← fetch (claims w) claim_obj;
      p ← fetch (positions w) position_obj;
      '(c, p, payout, ctx) ← market.claim_winnings c p ctx;
      Ok (close_ctx
            (pay (put_position (put_claim w c) p)
                 (claim_registry.id c) (market.user p) payout) ctx)
  | ClaimRefund claim_obj position_obj =>
      c ← fetch (claims w) claim_obj;
      p ← fetch (positions w) position_obj;
      '(c, p, refund, ctx) ← market.claim_refund c p ctx;
      Ok (close_ctx
            (pay (put_position (put_claim w c) p)
                 (claim_registry.id c) (market.user p) refund) ctx)
  | CancelClaim claim_obj reason =>
      c ← fetch (claims w) claim_obj;
      c ← claim_registry.cancel_claim c reason ctx;
      Ok (put_claim w c)
  | SubmitAttestedResolution claim_obj res blob att =>
      c ← fetch (claims w) claim_obj;
      c ← attestation.submit_attested_resolution (measurement_reg w) c res
             blob att clock ctx;
      Ok (put_claim w c)
  | WhitelistMeasurement measurement descr =>
      r ← attestation.whitelist_measurement (measurement_reg w) measurement
             descr clock ctx;
      Ok (put_measurement_reg w r)
  | RevokeMeasurement measurement =>
      r ← attestation.revoke_measurement (measurement_reg w) measurement ctx;
      Ok (put_measurement_reg w r)
  | UpdateAdmin new_admin =>
      r ← attestation.update_admin (measurement_reg w) new_admin ctx;
      Ok (put_measurement_reg w r)
  | UpdateProtocolFee new_fee_bps =>
      r ← claim_registry.update_protocol_fee (claim_reg w) new_fee_bps ctx;
      Ok (put_claim_reg w r)
  | UpdateFeeRecipient new_recipient =>
      r ← claim_registry.update_fee_recipient (claim_reg w) new_recipient ctx;
      Ok (put_claim_reg w r)
  end.

(** An aborted transaction has no effect. *)
Definition step (w : World) (tx : Tx) : World :=
  match run w tx with
  | Ok w' => w'
  | Abort _ => w
  end.

(** The [u64] arguments of a transaction are in range. *)
Definition call_wf (c : Call) : Prop :=
  match c with
  | CreateClaim _ _ _ deadline_ms fee_bps => is_u64 deadline_ms ∧ is_u64 fee_bps
  | Stake _ _ payment _ => is_u64 payment
  | UpdateProtocolFee new_fee_bps => is_u64 new_fee_bps
  | _ => True
  end.

Definition tx_wf (tx : Tx) : Prop := is_u64 (tx_now tx) ∧ call_wf (tx_call tx).

Inductive reachable (publisher : address) : World → Prop :=
| reach_genesis : reachable publisher (genesis publisher)
| reach_step w tx :
    reachable publisher w → tx_wf tx → reachable publisher (step w tx).

(** Coins paid out of the escrow of claim [cid] so far. *)
Definition paid_from (cid : ID) (log : list (ID * address * Z)) : Z :=
  foldr (fun e acc => if bool_decide (e.1.1 = cid) then e.2 + acc else acc) 0 log.

Definition run_all (w : World) (txs : list Tx) : World := foldl step w txs.

(** ** The payout formula in the words of the specification

    Integer arithmetic, truncating division at each step, basis-point
    denominator 10,000.  These definitions follow the specification, not
    the code; [market.payout_amount] is the code. *)

Definition spec_user_share_bps (user_stake winning_total : Z) : Z :=
  user_stake * 10000 / winning_total.

Definition spec_winnings_from_losers (losing_total user_share_bps : Z) : Z :=
  losing_total * user_share_bps / 10000.

Definition spec_fees (winnings_from_losers fee_bps : Z) : Z :=
  winnings_from_losers * fee_bps / 10000.

Definition spec_total_payout (user_stake winning_total losing_total fee_bps : Z) : Z :=
  let user_share_bps := spec_user_share_bps user_stake winning_total in
  let winnings_from_losers := spec_winnings_from_losers losing_total user_share_bps in
  let fees := spec_fees winnings_from_losers fee_bps in
  let net_winnings := winnings_from_losers - fees in
  user_stake + net_winnings.

(** The sides of a claim as [claim_winnings] reads them. *)
Definition user_stake_of (won : bool) (p : market.Position) : Z :=
  if won then market.yes_amount p else market.no_amount p.

Definition winning_total (won : bool) (c : claim_registry.Claim) : Z :=
  if won then claim_registry.yes_stake c else claim_registry.no_stake c.

Definition losing_total (won : bool) (c : claim_registry.Claim) : Z :=
  if won then claim_registry.no_stake c else claim_registry.yes_stake c.

Definition total_fee_bps (c : claim_registry.Claim) : Z :=
  claim_registry.creator_fee_bps c + claim_registry.protocol_fee_bps c.



(** ** Invariants of the ledger *)

Definition status_known (s : Z) : Prop :=
  s = claim_registry.STATUS_OPEN ∨ s = claim_registry.STATUS_RESOLVED
  ∨ s = claim_registry.STATUS_CANCELLED.

(** What holds of the claim stored under [k] when [out] has been paid out
    of its escrow so far. *)
Record claim_inv (out : Z) (k : ID) (c : claim_registry.Claim) : Prop := {
  inv_key : claim_registry.id c = k;
  inv_yes : 0 <= claim_registry.yes_stake c;
  inv_no : 0 <= claim_registry.no_stake c;
  inv_escrow : 0 <= claim_registry.escrow c <= MAX_U64;
  inv_total : claim_registry.yes_stake c + claim_registry.no_stake c <= MAX_U64;
  inv_paid : 0 <= out;
  inv_balance :
    claim_registry.escrow c
    = claim_registry.yes_stake c + claim_registry.no_stake c - out;
  inv_open :
    claim_registry.status c = claim_registry.STATUS_OPEN → out = 0;
  inv_cancelled :
    claim_registry.status c = claim_registry.STATUS_CANCELLED →
    claim_registry.yes_stake c = 0 ∧ claim_registry.no_stake c = 0;
  inv_status : status_known (claim_registry.status c);
  inv_result :
    is_Some (claim_registry.result c)
    ↔ claim_registry.status c = claim_registry.STATUS_RESOLVED
}.

(** Every position records a positive stake that the totals of its claim
    cover. *)
Record position_inv (cs : gmap ID claim_registry.Claim) (p : market.Position)
    : Prop := {
  inv_yes_amount : 0 <= market.yes_amount p;
  inv_no_amount : 0 <= market.no_amount p;
  inv_staked : 0 < market.yes_amount p + market.no_amount p;
  inv_backed :
    ∃ c, cs !! market.claim_id p = Some c
         ∧ market.yes_amount p <= claim_registry.yes_stake c
         ∧ market.no_amount p <= claim_registry.no_stake c
}.

Record ledger_inv (cs : gmap ID claim_registry.Claim)
    (ps : gmap ID market.Position) (log : list (ID * address * Z)) (n : N)
    : Prop := {
  inv_claims : ∀ k c, cs !! k = Some c → claim_inv (paid_from k log) k c;
  inv_positions : ∀ k p, ps !! k = Some p → position_inv cs p;
  inv_fresh : ∀ k : ID, (n <= k)%N → cs !! k = None ∧ paid_from k log = 0
}.

Definition world_inv (w : World) : Prop :=
  ledger_inv (claims w) (positions w) (paid w) (next_id w).

(** The errors with which [claim_refund] is observed to fail. *)
Definition refund_failure (e : abort_code) : Prop :=
  e = ObjectNotFound
  ∨ e = market.err market.EInvalidClaim
  ∨ e = market.err market.EAlreadyClaimed
  ∨ e = MoveAbort InBalance balance.ENotEnough.

(** ** Histories used as concrete inputs *)

Definition publisher : address := 9%N.
Definition alice : address := 2%N.
Definition bob : address := 5%N.
Definition carol : address := 6%N.
Definition creator1 : address := 1%N.
Definition resolver : address := 7%N.

Definition oracle : list byte := repeat "001"%byte 32.

Definition mk (s : address) (now : Z) (c : Call) : Tx :=
  {| tx_sender := s; tx_now := now; tx_call := c |}.

(** A claim (object 3) with its market (object 4), 600 staked on YES by
    alice (100, position 6) and bob (500, position 7), 400 on NO by carol
    (position 8), creator fee 100 bps on top of the default protocol fee of
    100 bps, resolved YES at its deadline. *)
Definition settled_history : list Tx :=
  [ mk creator1 10 (CreateClaim "spec" "evidence" "rain tomorrow" 100 100);
    mk creator1 11 (CreateMarket 3%N);
    mk alice 12 (Stake 3%N 4%N 100 true);
    mk bob 13 (Stake 3%N 4%N 500 true);
    mk carol 14 (Stake 3%N 4%N 400 false);
    mk publisher 15 (WhitelistMeasurement oracle "oracle v1");
    mk resolver 100 (SubmitAttestedResolution 3%N true "result" (oracle ++ ["000"%byte])) ].

Definition settled_world : World := run_all (genesis publisher) settled_history.

(** Two claims: A (object 3, market 4) stays open and holds alice's
    position 9; B (object 6, market 7) is resolved YES.  Alice then
    presents her position on A to [claim_winnings] together with claim B. *)
Definition crossed_history : list Tx :=
  [ mk creator1 10 (CreateClaim "specA" "evidenceA" "claim A" 1000 100);
    mk creator1 11 (CreateMarket 3%N);
    mk creator1 12 (CreateClaim "specB" "evidenceB" "claim B" 100 100);
    mk creator1 13 (CreateMarket 6%N);
    mk alice 14 (Stake 3%N 4%N 100 true);
    mk bob 15 (Stake 6%N 7%N 600 true);
    mk carol 16 (Stake 6%N 7%N 400 false);
    mk publisher 17 (WhitelistMeasurement oracle "oracle v1");
    mk resolver 100 (SubmitAttestedResolution 6%N true "result" oracle);
    mk alice 101 (ClaimWinnings 6%N 9%N) ].

Definition crossed_world : World := run_all (genesis publisher) crossed_history.

(** Claim A (object 3, market 4) holds alice's position 7; claim B
    (object 6) never received a stake and was cancelled by its creator. *)
Definition cancelled_history : list Tx :=
  [ mk creator1 10 (CreateClaim "specA" "evidenceA" "claim A" 1000 100);
    mk creator1 11 (CreateMarket 3%N);
    mk creator1 12 (CreateClaim "specB" "evidenceB" "claim B" 100 100);
    mk alice 13 (Stake 3%N 4%N 100 true);
    mk creator1 14 (CancelClaim 6%N "withdrawn") ].

Definition cancelled_world : World := run_all (genesis publisher) cancelled_history.

(** As [settled_history], with a creator fee of 20000 bps. *)
Definition overcharged_history : list Tx :=
  [ mk creator1 10 (CreateClaim "spec" "evidence" "rain tomorrow" 100 20000);
    mk creator1 11 (CreateMarket 3%N);
    mk alice 12 (Stake 3%N 4%N 100 true);
    mk bob 13 (Stake 3%N 4%N 500 true);
    mk carol 14 (Stake 3%N 4%N 400 false);
    mk publisher 15 (WhitelistMeasurement oracle "oracle v1");
    mk resolver 100 (SubmitAttestedResolution 3%N true "result" oracle) ].

Definition overcharged_world : World := run_all (genesis publisher) overcharged_history.

(** An open claim (object 3) with two markets (objects 4 and 7) and one
    stake by alice through the first. *)
Definition staked_history : list Tx :=
  [ mk creator1 10 (CreateClaim "spec" "evidence" "rain tomorrow" 100 100);
    mk creator1 11 (CreateMarket 3%N);
    mk alice 12 (Stake 3%N 4%N 100 true);
    mk creator1 13 (CreateMarket 3%N) ].

Definition staked_world : World := run_all (genesis publisher) staked_history.

(** The measurement registry after the oracle was whitelisted, and after
    it was revoked again. *)
Definition whitelisted_world : World :=
  run_all (genesis publisher)
    [ mk publisher 15 (WhitelistMeasurement oracle "oracle v1") ].

Definition revoked_world : World :=
  run_all whitelisted_world [ mk publisher 16 (RevokeMeasurement oracle) ].



(** Claim A (object 3, market 4) is resolved YES, alice's position 7 on it
    is claimed and bob's position 8 is not; claim B (object 6) was
    cancelled by its creator. *)
Definition mixed_history : list Tx :=
  [ mk creator1 10 (CreateClaim "specA" "evidenceA" "claim A" 100 100);
    mk creator1 11 (CreateMarket 3%N);
    mk creator1 12 (CreateClaim "specB" "evidenceB" "claim B" 100 100);
    mk alice 13 (Stake 3%N 4%N 100 true);
    mk bob 14 (Stake 3%N 4%N 400 false);
    mk creator1 15 (CancelClaim 6%N "withdrawn");
    mk publisher 16 (WhitelistMeasurement oracle "oracle v1");
    mk resolver 100 (SubmitAttestedResolution 3%N true "result" oracle);
    mk alice 101 (ClaimWinnings 3%N 7%N) ].

Definition mixed_world : World := run_all (genesis publisher) mixed_history.

(** Objects of these histories, written out. *)

(** Claim 3 of [settled_world]. *)
Definition settled_claim : claim_registry.Claim :=
  {| claim_registry.id := 3%N;
     claim_registry.creator := creator1;
     claim_registry.spec_blob_id := "spec";
     claim_registry.evidence_blob_id := "evidence";
     claim_registry.description := "rain tomorrow";
     claim_registry.deadline := 100;
     claim_registry.status := claim_registry.STATUS_RESOLVED;
     claim_registry.result := Some true;
     claim_registry.result_blob_id := Some "result"%string;
     claim_registry.resolver_measurement := Some oracle;
     claim_registry.yes_stake := 600;
     claim_registry.no_stake := 400;
     claim_registry.creator_fee_bps := 100;
     claim_registry.protocol_fee_bps := 100;
     claim_registry.escrow := 1000;
     claim_registry.created_at := 10;
     claim_registry.resolved_at := Some 100 |}.

(** Position 6 of [settled_world]: alice's 100 on YES. *)
Definition alice_position : market.Position :=
  {| market.id := 6%N; market.claim_id := 3%N; market.user := alice;
     market.yes_amount := 100; market.no_amount := 0;
     market.claimed := false |}.

(** Claim 6 of [cancelled_history] as created, before its cancellation. *)
Definition idle_claim : claim_registry.Claim :=
  {| claim_registry.id := 6%N;
     claim_registry.creator := creator1;
     claim_registry.spec_blob_id := "specB";
     claim_registry.evidence_blob_id := "evidenceB";
     claim_registry.description := "claim B";
     claim_registry.deadline := 100;
     claim_registry.status := claim_registry.STATUS_OPEN;
     claim_registry.result := None;
     claim_registry.result_blob_id := None;
     claim_registry.resolver_measurement := None;
     claim_registry.yes_stake := 0;
     claim_registry.no_stake := 0;
     claim_registry.creator_fee_bps := 100;
     claim_registry.protocol_fee_bps := 100;
     claim_registry.escrow := 0;
     claim_registry.created_at := 12;
     claim_registry.resolved_at := None |}.

(** Claim 3 of [crossed_world], still open, and alice's position 9 on it,
    already claimed against claim 6. *)
Definition open_claim : claim_registry.Claim :=
  {| claim_registry.id := 3%N;
     claim_registry.creator := creator1;
     claim_registry.spec_blob_id := "specA";
     claim_registry.evidence_blob_id := "evidenceA";
     claim_registry.description := "claim A";
     claim_registry.deadline := 1000;
     claim_registry.status := claim_registry.STATUS_OPEN;
     claim_registry.result := None;
     claim_registry.result_blob_id := None;
     claim_registry.resolver_measurement := None;
     claim_registry.yes_stake := 100;
     claim_registry.no_stake := 0;
     claim_registry.creator_fee_bps := 100;
     claim_registry.protocol_fee_bps := 100;
     claim_registry.escrow := 100;
     claim_registry.created_at := 10;
     claim_registry.resolved_at := None |}.

Definition spent_position : market.Position :=
  {| market.id := 9%N; market.claim_id := 3%N; market.user := alice;
     market.yes_amount := 100; market.no_amount := 0;
     market.claimed := true |}.

(** [settled_world] after alice has claimed her winnings. *)
Definition paid_world : World :=
  run_all settled_world [ mk alice 101 (ClaimWinnings 3%N 6%N) ].

Definition ctx_of (s : address) (w : World) : TxContext :=
  {| sender := s; fresh := next_id w |}.

(** ** Module [truth_markets::time_lock_policy]

    The Seal access policy, with the reader of [sui::bcs] it calls.  Its
    aborts are kept apart from those of the settlement modules. *)

Inductive policy_fault :=
| PolicyAbort (code : Z)
| BcsAbort (code : Z)
| VectorAbort (code : Z)
| PolicyArithmetic (f : arith_fault).

Inductive verdict (A : Type) :=
| Pass (a : A)
| Fail (e : policy_fault).

Arguments Pass {A} a.
Arguments Fail {A} e.

#[global] Instance verdict_ret : MRet verdict := fun A a => Pass a.

#[global] Instance verdict_bind : MBind verdict := fun A B f m =>
  match m with
  | Pass a => f a
  | Fail e => Fail e
  end.

Definition passes {A} (r : verdict A) : bool :=
  match r with Pass _ => true | Fail _ => false end.

(** A byte as a number, and the low byte of a number. *)
Definition Z_of_byte (b : byte) : Z := Z.of_N (Byte.to_N b).

Definition byte_of_Z (z : Z) : byte :=
  default "000"%byte (Byte.of_N (Z.to_N (z mod 256))).

(** [sui::bcs]: [new] stores the bytes reversed, so that [pop_back] reads
    them in order; [peel_u64] pops eight bytes, least significant first;
    [into_remainder_bytes] restores the order of what is left. *)
Module bcs.

Definition EOutOfRange : Z := 0.
Definition POP_EMPTY_VEC : Z := 2.

Record BCS := { bytes : list byte }.

Definition new (v : list byte) : BCS := {| bytes := reverse v |}.

Definition into_remainder_bytes (b : BCS) : list byte := reverse (bytes b).

(** [vector::pop_back] *)
Definition pop_back (v : list byte) : verdict (byte * list byte) :=
  match reverse v with
  | [] => Fail (VectorAbort POP_EMPTY_VEC)
  | b :: r => Pass (b, reverse r)
  end.

(** One turn of the loop of [peel_u64]:
    [value = value + ((pop_back as u64) << i)]. *)
Definition peel_step (acc : verdict (Z * list byte)) (i : Z)
    : verdict (Z * list byte) :=
  '(value, v) ← acc;
  '(b, v) ← pop_back v;
  let shifted := Z.land (Z.shiftl (Z_of_byte b) i) MAX_U64 in
  if value + shifted <=? MAX_U64
  then Pass (value + shifted, v)
  else Fail (PolicyArithmetic AddOverflow).

Definition peel_u64 (b : BCS) : verdict (Z * BCS) :=
  if 8 <=? Z.of_nat (length (bytes b))
  then '(value, v) ← foldl peel_step (Pass (0, bytes b))
                       [0; 8; 16; 24; 32; 40; 48; 56];
       Pass (value, {| bytes := v |})
  else Fail (BcsAbort EOutOfRange).

End bcs.

Module time_lock_policy.

Definition ENoAccess : Z := 77.

(** [fun check_policy] *)
Definition check_policy (id : list byte) (c : Clock) : verdict bool :=
  let prepared := bcs.new id in
  '(t, prepared) ← bcs.peel_u64 prepared;
  let leftovers := bcs.into_remainder_bytes prepared in
  Pass ((Z.of_nat (length leftovers) =? 0) && (t <=? timestamp_ms c)).

(** [entry fun seal_approve] *)
Definition seal_approve (id : list byte) (c : Clock) : verdict unit :=
  check_policy id c
  ≫= (λ ok : bool, if ok then Pass tt else Fail (PolicyAbort ENoAccess)).

End time_lock_policy.

(** ** The key id built by the claim-creation dialog

    [handleCreate] of [CreateClaimDialog] writes the deadline into an
    8-byte array with [DataView.setBigUint64(0, BigInt(deadlineMs), true)]
    (little-endian, the value taken modulo 2^64) and renders the array as
    ["0x"] followed by two lower-case hexadecimal digits per byte. *)
Module CreateClaimDialog.

Fixpoint le_bytes (n : nat) (x : Z) : list byte :=
  match n with
  | O => []
  | S n' => byte_of_Z (x mod 256) :: le_bytes n' (x / 256)
  end.

Definition idBytes (deadlineMs : Z) : list byte :=
  le_bytes 8 (deadlineMs mod 2 ^ 64).

(** [n.toString(16)] for [0 <= n < 16]. *)
Definition hex_digit (n : Z) : Ascii.ascii :=
  match String.get (Z.to_nat n) "0123456789abcdef" with
  | Some c => c
  | None => Ascii.zero
  end.

(** [b.toString(16).padStart(2, '0')] for a byte [b]. *)
Definition byte_hex (b : byte) : string :=
  String (hex_digit (Z_of_byte b / 16))
    (String (hex_digit (Z_of_byte b mod 16)) EmptyString).

Definition idHex (deadlineMs : Z) : string :=
  String.append "0x" (String.concat "" (map byte_hex (idBytes deadlineMs))).

End CreateClaimDialog.

(** The little-endian value of a byte string. *)
Fixpoint le_value (bs : list byte) : Z :=
  match bs with
  | [] => 0
  | b :: bs' => Z_of_byte b + 256 * le_value bs'
  end.

(** ** More invariants of the ledger *)

(** The resolution record of a claim against the measurement registry. *)
Record resolution_inv (reg : attestation.MeasurementRegistry)
    (c : claim_registry.Claim) : Prop := {
  res_deadline : claim_registry.created_at c < claim_registry.deadline c;
  res_resolved :
    claim_registry.status c = claim_registry.STATUS_RESOLVED →
    ∃ t m blob,
      claim_registry.resolved_at c = Some t
      ∧ claim_registry.deadline c <= t
      ∧ claim_registry.resolver_measurement c = Some m
      ∧ length m = 32%nat
      ∧ is_Some (attestation.measurements reg !! m)
      ∧ claim_registry.result_blob_id c = Some blob;
  res_unresolved :
    claim_registry.status c ≠ claim_registry.STATUS_RESOLVED →
    claim_registry.resolved_at c = None
    ∧ claim_registry.resolver_measurement c = None
    ∧ claim_registry.result_blob_id c = None
}.

(** The table of a market against the positions of the ledger. *)
Record market_inv (ps : gmap ID market.Position) (k : ID)
    (m : market.MarketState) : Prop := {
  mkt_key : market.market_id m = k;
  mkt_count : market.total_positions m = Z.of_nat (size (market.positions m));
  mkt_entries :
    ∀ (u : address) (pid : ID),
      market.positions m !! u = Some pid →
      ∃ p, ps !! pid = Some p ∧ market.user p = u
}.

Record position_shape (k : ID) (p : market.Position) : Prop := {
  pos_key : market.id p = k;
  pos_one_sided :
    (market.yes_amount p = 0 ∧ 0 < market.no_amount p)
    ∨ (market.no_amount p = 0 ∧ 0 < market.yes_amount p)
}.

Record book_inv (w : World) : Prop := {
  book_claims :
    ∀ k c, claims w !! k = Some c → resolution_inv (measurement_reg w) c;
  book_measurements :
    ∀ m info,
      attestation.measurements (measurement_reg w) !! m = Some info →
      length m = 32%nat;
  book_markets :
    ∀ k m, markets w !! k = Some m → market_inv (positions w) k m;
  book_positions :
    ∀ k p, positions w !! k = Some p → position_shape k p;
  book_count :
    claim_registry.total_claims (claim_reg w) = Z.of_nat (size (claims w));
  book_fresh :
    ∀ k : ID, (next_id w <= k)%N →
      markets w !! k = None ∧ positions w !! k = None
}.

(** How a claim may differ between a state and a later one. *)
Record claim_evolves (c c' : claim_registry.Claim) : Prop := {
  ev_id : claim_registry.id c' = claim_registry.id c;
  ev_creator : claim_registry.creator c' = claim_registry.creator c;
  ev_spec : claim_registry.spec_blob_id c' = claim_registry.spec_blob_id c;
  ev_evidence :
    claim_registry.evidence_blob_id c' = claim_registry.evidence_blob_id c;
  ev_description : claim_registry.description c' = claim_registry.description c;
  ev_deadline : claim_registry.deadline c' = claim_registry.deadline c;
  ev_creator_fee :
    claim_registry.creator_fee_bps c' = claim_registry.creator_fee_bps c;
  ev_protocol_fee :
    claim_registry.protocol_fee_bps c' = claim_registry.protocol_fee_bps c;
  ev_created_at : claim_registry.created_at c' = claim_registry.created_at c;
  ev_status :
    claim_registry.status c' = claim_registry.status c
    ∨ (claim_registry.status c = claim_registry.STATUS_OPEN
       ∧ (claim_registry.status c' = claim_registry.STATUS_RESOLVED
          ∨ claim_registry.status c' = claim_registry.STATUS_CANCELLED));
  ev_yes : claim_registry.yes_stake c <= claim_registry.yes_stake c';
  ev_no : claim_registry.no_stake c <= claim_registry.no_stake c';
  ev_frozen :
    claim_registry.status c ≠ claim_registry.STATUS_OPEN →
    claim_registry.status c' = claim_registry.status c
    ∧ claim_registry.yes_stake c' = claim_registry.yes_stake c
    ∧ claim_registry.no_stake c' = claim_registry.no_stake c
    ∧ claim_registry.result c' = claim_registry.result c
    ∧ claim_registry.result_blob_id c' = claim_registry.result_blob_id c
    ∧ claim_registry.resolver_measurement c'
      = claim_registry.resolver_measurement c
    ∧ claim_registry.resolved_at c' = claim_registry.resolved_at c
    ∧ claim_registry.escrow c' <= claim_registry.escrow c
}.

(** How a position may differ between a state and a later one. *)
Record position_evolves (p p' : market.Position) : Prop := {
  pev_id : market.id p' = market.id p;
  pev_claim : market.claim_id p' = market.claim_id p;
  pev_user : market.user p' = market.user p;
  pev_yes : market.yes_amount p' = market.yes_amount p;
  pev_no : market.no_amount p' = market.no_amount p;
  pev_claimed : market.claimed p = true → market.claimed p' = true
}.

(** How a whitelist entry may differ between a state and a later one. *)
Record entry_evolves (i i' : attestation.MeasurementInfo) : Prop := {
  eev_description : attestation.description i' = attestation.description i;
  eev_added_at : attestation.added_at i' = attestation.added_at i;
  eev_active : attestation.active i' = true → attestation.active i = true
}.

(** The claim, the position and the market a transaction is applied to. *)
Definition claim_of_call (c : Call) : option ID :=
  match c with
  | Stake k _ _ _ | ClaimWinnings k _ | ClaimRefund k _ | CancelClaim k _
  | SubmitAttestedResolution k _ _ _ => Some k
  | _ => None
  end.

Definition position_of_call (c : Call) : option ID :=
  match c with
  | ClaimWinnings _ k | ClaimRefund _ k => Some k
  | _ => None
  end.

Definition market_of_call (c : Call) : option ID :=
  match c with
  | Stake _ k _ _ => Some k
  | _ => None
  end.

(** A resolved claim with 1,000,000 on YES and 500,000 on NO. *)
Definition whale_claim : claim_registry.Claim :=
  claim_registry.set_yes_stake
    (claim_registry.set_no_stake settled_claim 500000) 1000000.

(** Every transaction of a written-out history has its arguments in range. *)
Ltac history_wf :=
  repeat (apply List.Forall_cons;
          [unfold tx_wf; simpl; unfold is_u64, MAX_U64; repeat split; lia|]);
  apply List.Forall_nil.

(** * Properties *)

(** ** The outcome monad and checked arithmetic *)

Lemma bind_Ok {A B} (m : outcome A) (f : A → outcome B) (b : B) :
  m ≫= f = Ok b ↔ ∃ a, m = Ok a ∧ f a = Ok b.
Proof.
  destruct m as [a|e]; simpl; split.
  - intros Hf. exists a. auto.
  - intros (a' & Ha & Hf). congruence.
  - discriminate.
  - intros (a' & Ha & _). discriminate.
Qed.

Lemma is_ok_true {A} (r : outcome A) : is_ok r = true ↔ ∃ a, r = Ok a.
Proof.
  destruct r as [a|e]; simpl; split; eauto.
  - discriminate.
  - intros [a Ha]. discriminate.
Qed.

Lemma assert_bind_Ok {B} (cond : bool) (e : abort_code) (f : unit → outcome B) (b : B) :
  assert cond e ≫= f = Ok b ↔ cond = true ∧ f tt = Ok b.
Proof.
  destruct cond; simpl; split.
  - auto.
  - tauto.
  - discriminate.
  - intros [? _]. discriminate.
Qed.

Lemma u64_add_Ok (a b r : Z) :
  u64_add a b = Ok r ↔ a + b <= MAX_U64 ∧ r = a + b.
Proof.
  unfold u64_add. destruct (Z.leb_spec (a + b) MAX_U64); split.
  - intros [= <-]. auto.
  - intros [_ ->]. reflexivity.
  - discriminate.
  - intros [? _]. lia.
Qed.

Lemma u64_sub_Ok (a b r : Z) :
  u64_sub a b = Ok r ↔ b <= a ∧ r = a - b.
Proof.
  unfold u64_sub. destruct (Z.leb_spec b a); split.
  - intros [= <-]. auto.
  - intros [_ ->]. reflexivity.
  - discriminate.
  - intros [? _]. lia.
Qed.

Lemma u64_mul_Ok (a b r : Z) :
  u64_mul a b = Ok r ↔ a * b <= MAX_U64 ∧ r = a * b.
Proof.
  unfold u64_mul. destruct (Z.leb_spec (a * b) MAX_U64); split.
  - intros [= <-]. auto.
  - intros [_ ->]. reflexivity.
  - discriminate.
  - intros [? _]. lia.
Qed.

Lemma u64_div_Ok (a b r : Z) :
  u64_div a b = Ok r ↔ b ≠ 0 ∧ r = a / b.
Proof.
  unfold u64_div. destruct (Z.eqb_spec b 0); split.
  - discriminate.
  - intros [? _]. contradiction.
  - intros [= <-]. auto.
  - intros [_ ->]. reflexivity.
Qed.

Lemma balance_split_Ok (self v rest c : Z) :
  balance.split self v = Ok (rest, c) ↔ v <= self ∧ rest = self - v ∧ c = v.
Proof.
  unfold balance.split. rewrite assert_bind_Ok, bind_Ok. split.
  - intros (Hle & r & Hsub & [= <- <-]).
    apply u64_sub_Ok in Hsub. apply Z.leb_le in Hle. tauto.
  - intros (Hle & -> & ->). split; [by apply Z.leb_le|].
    exists (self - v). split; [|done]. apply u64_sub_Ok. auto.
Qed.

(** ** Cancellation *)

Lemma cancel_claim_cases (claim : claim_registry.Claim) (reason : string)
    (ctx : TxContext) :
  claim_registry.cancel_claim claim reason ctx
  = if bool_decide (claim_registry.creator claim = sender ctx)
    then if bool_decide (claim_registry.status claim = claim_registry.STATUS_OPEN
                         ∧ claim_registry.yes_stake claim = 0
                         ∧ claim_registry.no_stake claim = 0)
         then Ok (claim_registry.set_status claim claim_registry.STATUS_CANCELLED)
         else Abort (claim_registry.err claim_registry.EInvalidStatus)
    else Abort (claim_registry.err claim_registry.EUnauthorized).
Proof.
  unfold claim_registry.cancel_claim.
  destruct (bool_decide_reflect (claim_registry.creator claim = sender ctx));
    simpl; [|reflexivity].
  destruct (Z.eqb_spec (claim_registry.yes_stake claim) 0) as [Hy|Hy];
  destruct (Z.eqb_spec (claim_registry.no_stake claim) 0) as [Hn|Hn];
  destruct (Z.eqb_spec (claim_registry.status claim) claim_registry.STATUS_OPEN)
    as [Hs|Hs]; simpl;
  case_bool_decide; try reflexivity; tauto.
Qed.

Lemma cancel_claim_Ok (claim claim' : claim_registry.Claim) (reason : string)
    (ctx : TxContext) :
  claim_registry.cancel_claim claim reason ctx = Ok claim'
  ↔ (claim_registry.creator claim = sender ctx
     ∧ claim_registry.status claim = claim_registry.STATUS_OPEN
     ∧ claim_registry.yes_stake claim = 0
     ∧ claim_registry.no_stake claim = 0)
    ∧ claim' = claim_registry.set_status claim claim_registry.STATUS_CANCELLED.
Proof.
  rewrite cancel_claim_cases. repeat case_bool_decide; split;
    try discriminate; try (intros [= <-]; tauto); try tauto.
  intros [_ ->]. reflexivity.
Qed.

(** C3: [cancel_claim] succeeds exactly when the signer is the creator, the
    claim is open and both stake totals are zero; a signer other than the
    creator gets [EUnauthorized], every other illegal call
    [EInvalidStatus]; a failed call leaves the ledger, hence the claim, as
    it was; the claim a successful call returns, and the ledger then
    holds, has the status cancelled and every other field as before. *)
Theorem cancel_claim_decision (claim : claim_registry.Claim) (reason : string)
    (ctx : TxContext) :
  let legal :=
    claim_registry.creator claim = sender ctx
    ∧ claim_registry.status claim = claim_registry.STATUS_OPEN
    ∧ claim_registry.yes_stake claim = 0
    ∧ claim_registry.no_stake claim = 0 in
  (is_ok (claim_registry.cancel_claim claim reason ctx) = true ↔ legal)
  ∧ (legal →
     claim_registry.cancel_claim claim reason ctx
     = Ok (claim_registry.set_status claim claim_registry.STATUS_CANCELLED))
  ∧ (claim_registry.creator claim ≠ sender ctx →
     claim_registry.cancel_claim claim reason ctx
     = Abort (claim_registry.err claim_registry.EUnauthorized))
  ∧ (claim_registry.creator claim = sender ctx → ¬ legal →
     claim_registry.cancel_claim claim reason ctx
     = Abort (claim_registry.err claim_registry.EInvalidStatus))
  ∧ (∀ w k now,
       claims w !! k = Some claim →
       step w (mk (sender ctx) now (CancelClaim k reason))
       = if bool_decide legal
         then put_claim w (claim_registry.set_status claim
                             claim_registry.STATUS_CANCELLED)
         else w)
  ∧ (∀ claim',
       claim_registry.cancel_claim claim reason ctx = Ok claim' →
       claim_registry.status claim' = claim_registry.STATUS_CANCELLED
       ∧ claim_registry.status claim' ≠ claim_registry.status claim
       ∧ claim_registry.id claim' = claim_registry.id claim
       ∧ claim_registry.creator claim' = claim_registry.creator claim
       ∧ claim_registry.spec_blob_id claim' = claim_registry.spec_blob_id claim
       ∧ claim_registry.evidence_blob_id claim'
         = claim_registry.evidence_blob_id claim
       ∧ claim_registry.description claim' = claim_registry.description claim
       ∧ claim_registry.deadline claim' = claim_registry.deadline claim
       ∧ claim_registry.result claim' = claim_registry.result claim
       ∧ claim_registry.result_blob_id claim'
         = claim_registry.result_blob_id claim
       ∧ claim_registry.resolver_measurement claim'
         = claim_registry.resolver_measurement claim
       ∧ claim_registry.yes_stake claim' = claim_registry.yes_stake claim
       ∧ claim_registry.no_stake claim' = claim_registry.no_stake claim
       ∧ claim_registry.creator_fee_bps claim'
         = claim_registry.creator_fee_bps claim
       ∧ claim_registry.protocol_fee_bps claim'
         = claim_registry.protocol_fee_bps claim
       ∧ claim_registry.escrow claim' = claim_registry.escrow claim
       ∧ claim_registry.created_at claim' = claim_registry.created_at claim
       ∧ claim_registry.resolved_at claim' = claim_registry.resolved_at claim)
  ∧ (∀ w k now,
       claims w !! k = Some claim → claim_registry.id claim = k →
       (legal →
        ∃ claim',
          claims (step w (mk (sender ctx) now (CancelClaim k reason))) !! k
          = Some claim'
          ∧ claim_registry.status claim' = claim_registry.STATUS_CANCELLED)
       ∧ (¬ legal →
          claims (step w (mk (sender ctx) now (CancelClaim k reason))) !! k
          = Some claim)).
Proof.
  intros legal.
  pose proof (cancel_claim_cases claim reason ctx) as Hdec.
  assert (Hlegal : legal →
    claim_registry.cancel_claim claim reason ctx
    = Ok (claim_registry.set_status claim claim_registry.STATUS_CANCELLED)).
  { intros (Hc & Hs & Hy & Hn). rewrite Hdec.
    rewrite bool_decide_eq_true_2 by done.
    by rewrite bool_decide_eq_true_2. }
  assert (Hillegal : ¬ legal →
    is_ok (claim_registry.cancel_claim claim reason ctx) = false).
  { intros Hnot. rewrite Hdec. repeat case_bool_decide; try reflexivity.
    exfalso. apply Hnot. unfold legal. tauto. }
  assert (Hstep : ∀ w k now,
    claims w !! k = Some claim →
    step w (mk (sender ctx) now (CancelClaim k reason))
    = if bool_decide legal
      then put_claim w (claim_registry.set_status claim
                          claim_registry.STATUS_CANCELLED)
      else w).
  { intros w k now Hk. unfold step, run, fetch. simpl. rewrite Hk. simpl.
    assert (Hctx : ∀ c1 c2, sender c1 = sender c2 →
              claim_registry.cancel_claim claim reason c1
              = claim_registry.cancel_claim claim reason c2).
    { intros c1 c2 Heq. unfold claim_registry.cancel_claim. by rewrite Heq. }
    rewrite (Hctx _ ctx) by done.
    destruct (decide legal) as [Hl|Hl].
    + rewrite (bool_decide_eq_true_2 legal Hl), Hlegal by done. reflexivity.
    + rewrite (bool_decide_eq_false_2 legal Hl). specialize (Hillegal Hl).
      destruct (claim_registry.cancel_claim claim reason ctx); [discriminate|done]. }
  split; [|split; [|split; [|split; [|split; [|split]]]]].
  - split.
    + intros Hok. destruct (decide legal) as [|Hnot]; [done|].
      rewrite Hillegal in Hok by done. discriminate.
    + intros Hl. by rewrite Hlegal.
  - exact Hlegal.
  - intros Hne. rewrite Hdec. by rewrite bool_decide_eq_false_2.
  - intros Hc Hnot. rewrite Hdec. rewrite bool_decide_eq_true_2 by done.
    rewrite bool_decide_eq_false_2; [done|]. intros ?. apply Hnot.
    unfold legal. tauto.
  - exact Hstep.
  - intros claim' Hrun.
    apply cancel_claim_Ok in Hrun as [(_ & Hopen & _) ->].
    cbn [claim_registry.set_status claim_registry.status claim_registry.id
         claim_registry.creator claim_registry.spec_blob_id
         claim_registry.evidence_blob_id claim_registry.description
         claim_registry.deadline claim_registry.result
         claim_registry.result_blob_id claim_registry.resolver_measurement
         claim_registry.yes_stake claim_registry.no_stake
         claim_registry.creator_fee_bps claim_registry.protocol_fee_bps
         claim_registry.escrow claim_registry.created_at
         claim_registry.resolved_at].
    split; [reflexivity|]. split; [rewrite Hopen; discriminate|].
    repeat split.
  - intros w k now Hk Hid. rewrite (Hstep w k now Hk). split.
    + intros Hl. rewrite (bool_decide_eq_true_2 legal Hl).
      exists (claim_registry.set_status claim claim_registry.STATUS_CANCELLED).
      split; [|reflexivity].
      unfold put_claim. cbn [claims claim_registry.set_status claim_registry.id].
      rewrite Hid. apply lookup_insert_eq.
    + intros Hl. by rewrite (bool_decide_eq_false_2 legal Hl).
Qed.

(** ** Resolution *)

Lemma resolve_claim_is_ok (claim : claim_registry.Claim) (res : bool)
    (blob : string) (measurement : list byte) (clock : Clock) :
  is_ok (claim_registry.resolve_claim claim res blob measurement clock)
  = (claim_registry.deadline claim <=? timestamp_ms clock)
    && ((claim_registry.status claim =? claim_registry.STATUS_OPEN)
        || (claim_registry.status claim =? claim_registry.STATUS_RESOLVING)).
Proof.
  unfold claim_registry.resolve_claim.
  destruct (claim_registry.deadline claim <=? timestamp_ms clock); simpl;
    [|reflexivity].
  destruct ((claim_registry.status claim =? claim_registry.STATUS_OPEN)
            || (claim_registry.status claim =? claim_registry.STATUS_RESOLVING));
    reflexivity.
Qed.

(** C4: [resolve_claim] fails with [EDeadlineNotReached] whenever the clock
    is before the deadline, whatever the status; from the deadline on it
    succeeds on an open or resolving claim, recording the status, the
    result, the result blob, the resolver measurement and the resolution
    time, and it fails with [EClaimAlreadyResolved] on a resolved or
    cancelled claim; a failed call changes nothing. *)
Theorem resolve_claim_decision (claim : claim_registry.Claim) (res : bool)
    (blob : string) (measurement : list byte) (clock : Clock) :
  let now := timestamp_ms clock in
  let out := claim_registry.resolve_claim claim res blob measurement clock in
  (now < claim_registry.deadline claim →
   out = Abort (claim_registry.err claim_registry.EDeadlineNotReached))
  ∧ (claim_registry.deadline claim <= now →
     claim_registry.status claim = claim_registry.STATUS_OPEN
     ∨ claim_registry.status claim = claim_registry.STATUS_RESOLVING →
     ∃ claim',
       out = Ok claim'
       ∧ claim_registry.status claim' = claim_registry.STATUS_RESOLVED
       ∧ claim_registry.result claim' = Some res
       ∧ claim_registry.result_blob_id claim' = Some blob
       ∧ claim_registry.resolver_measurement claim' = Some measurement
       ∧ claim_registry.resolved_at claim' = Some now
       ∧ claim' = claim_registry.set_resolution claim res blob measurement now)
  ∧ (claim_registry.deadline claim <= now →
     claim_registry.status claim = claim_registry.STATUS_RESOLVED
     ∨ claim_registry.status claim = claim_registry.STATUS_CANCELLED →
     out = Abort (claim_registry.err claim_registry.EClaimAlreadyResolved))
  ∧ (∀ w k s att,
       claims w !! k = Some claim →
       is_ok out = false →
       step w (mk s now (SubmitAttestedResolution k res blob att)) = w).
Proof.
  intros now out. subst out.
  split; [|split; [|split]].
  - intros Hlt. unfold claim_registry.resolve_claim. fold now.
    apply Z.leb_gt in Hlt. by rewrite Hlt.
  - intros Hge Hst. unfold claim_registry.resolve_claim. fold now.
    apply Z.leb_le in Hge. rewrite Hge. simpl.
    exists (claim_registry.set_resolution claim res blob measurement now).
    split; [destruct Hst as [-> | ->]; reflexivity | repeat split].
  - intros Hge Hst. unfold claim_registry.resolve_claim. fold now.
    apply Z.leb_le in Hge. rewrite Hge. simpl.
    destruct Hst as [-> | ->]; reflexivity.
  - intros w k s att Hk Hfail. rewrite resolve_claim_is_ok in Hfail.
    unfold step, run, fetch. simpl. rewrite Hk. simpl.
    destruct (attestation.submit_attested_resolution _ _ _ _ _ _ _) as [c'|e] eqn:Hrun;
      [|done].
    exfalso. unfold attestation.submit_attested_resolution in Hrun.
    apply assert_bind_Ok in Hrun as [_ Hrun].
    apply bind_Ok in Hrun as (m & _ & Hrun).
    apply assert_bind_Ok in Hrun as [_ Hrun].
    apply bind_Ok in Hrun as (info & _ & Hrun).
    apply assert_bind_Ok in Hrun as [_ Hrun].
    apply (f_equal is_ok) in Hrun.
    rewrite resolve_claim_is_ok in Hrun. simpl in Hrun. fold now in Hfail.
    congruence.
Qed.

(** ** Attested resolution *)

Lemma read_measurement_take (n : nat) (att : list byte) :
  (n <= length att)%nat →
  foldl (fun acc i =>
           measurement ← acc;
           b ← vector_borrow att i;
           Ok (measurement ++ [b]))
        (Ok []) (seq 0 n)
  = Ok (take n att).
Proof.
  induction n as [|n IH]; intros Hn.
  - reflexivity.
  - rewrite seq_S, foldl_app, IH by lia. simpl.
    destruct (lookup_lt_is_Some_2 att n) as [b Hb]; [lia|].
    unfold vector_borrow. rewrite Hb. simpl.
    by rewrite (take_S_r _ _ b).
Qed.

Lemma read_measurement_prefix (fingerprint rest : list byte) :
  length fingerprint = 32%nat →
  attestation.read_measurement (fingerprint ++ rest) = Ok fingerprint.
Proof.
  intros Hlen. unfold attestation.read_measurement.
  rewrite read_measurement_take by (rewrite length_app; lia).
  by rewrite <- Hlen, take_app_length.
Qed.

Lemma not_whitelisted_cases (registry : attestation.MeasurementRegistry)
    (m : list byte) :
  attestation.is_measurement_whitelisted registry m = false
  ↔ attestation.measurements registry !! m = None
    ∨ ∃ info, attestation.measurements registry !! m = Some info
              ∧ attestation.active info = false.
Proof.
  unfold attestation.is_measurement_whitelisted.
  destruct (attestation.measurements registry !! m) as [info|]; split.
  - intros Hi. right. eauto.
  - intros [|(info' & [= <-] & Hi)]; [discriminate|done].
  - auto.
  - auto.
Qed.

(** C7: [submit_attested_resolution] with an attestation whose 32-byte
    measurement is not whitelisted ([is_measurement_whitelisted] is false:
    absent from the table, or present but inactive) fails with
    [EMeasurementNotWhitelisted], whatever the claim and the clock are (it
    does not get to [resolve_claim]), and the ledger, hence the claim with
    its status, stays as it was. *)
Theorem submit_not_whitelisted (registry : attestation.MeasurementRegistry)
    (claim : claim_registry.Claim) (res : bool) (blob : string)
    (fingerprint rest : list byte) (clock : Clock) (ctx : TxContext) :
  length fingerprint = 32%nat →
  attestation.is_measurement_whitelisted registry fingerprint = false →
  attestation.submit_attested_resolution registry claim res blob
    (fingerprint ++ rest) clock ctx
  = Abort (attestation.err attestation.EMeasurementNotWhitelisted)
  ∧ ∀ w k s now,
      measurement_reg w = registry →
      claims w !! k = Some claim →
      run w (mk s now (SubmitAttestedResolution k res blob (fingerprint ++ rest)))
      = Abort (attestation.err attestation.EMeasurementNotWhitelisted)
      ∧ step w (mk s now (SubmitAttestedResolution k res blob (fingerprint ++ rest)))
        = w.
Proof.
  intros Hlen Hnot. apply not_whitelisted_cases in Hnot.
  assert (Hsub : ∀ c clk cx,
    attestation.submit_attested_resolution registry c res blob
      (fingerprint ++ rest) clk cx
    = Abort (attestation.err attestation.EMeasurementNotWhitelisted)).
  { intros c clk cx. unfold attestation.submit_attested_resolution.
    assert (Hge : (32 <=? Z.of_nat (length (fingerprint ++ rest))) = true).
    { apply Z.leb_le. rewrite length_app. lia. }
    rewrite Hge, read_measurement_prefix by done. simpl.
    unfold table.contains, table.borrow.
    destruct Hnot as [Hnone | (info & Hsome & Hinactive)].
    - rewrite bool_decide_eq_false_2; [done|]. rewrite Hnone. by intros [? ?].
    - rewrite bool_decide_eq_true_2 by (rewrite Hsome; eauto).
      simpl. rewrite Hsome. simpl. by rewrite Hinactive. }
  split; [apply Hsub|].
  intros w k s now <- Hk. unfold step, run, fetch. simpl. rewrite Hk. simpl.
  by rewrite Hsub.
Qed.

(** ** The measurement whitelist *)

(** C8, as the code has it: for the administrator, [whitelist_measurement]
    fails with [EInvalidMeasurement] exactly when the measurement is not 32
    bytes long; with 32 bytes it succeeds when the table has no entry for
    the measurement, and [is_measurement_whitelisted] is true right after;
    when the table already has an entry, active or revoked, [table::add]
    aborts. *)
Theorem whitelist_measurement_decision (registry : attestation.MeasurementRegistry)
    (measurement : list byte) (descr : string) (clock : Clock) (ctx : TxContext) :
  attestation.admin registry = sender ctx →
  let out := attestation.whitelist_measurement registry measurement descr clock ctx in
  (out = Abort (attestation.err attestation.EInvalidMeasurement)
   ↔ length measurement ≠ 32%nat)
  ∧ (length measurement = 32%nat →
     attestation.measurements registry !! measurement = None →
     ∃ registry',
       out = Ok registry'
       ∧ attestation.is_measurement_whitelisted registry' measurement = true)
  ∧ (length measurement = 32%nat →
     is_Some (attestation.measurements registry !! measurement) →
     out = Abort (MoveAbort InDynamicField table.EFieldAlreadyExists)).
Proof.
  intros Hadmin out. subst out. unfold attestation.whitelist_measurement.
  rewrite bool_decide_eq_true_2 by done. simpl.
  destruct (Z.eqb_spec (Z.of_nat (length measurement)) 32) as [Hlen|Hlen]; simpl.
  - unfold table.add. split; [|split].
    + destruct (attestation.measurements registry !! measurement); simpl;
        split; (discriminate || lia).
    + intros _ ->. simpl. eexists. split; [reflexivity|].
      unfold attestation.is_measurement_whitelisted. simpl.
      by rewrite lookup_insert_eq.
    + intros _ [info ->]. reflexivity.
  - split; [|split].
    + split; [lia|done].
    + lia.
    + lia.
Qed.

(** ** Payouts *)

(** The code's payout arithmetic succeeds exactly when none of its checked
    operations fails, and then yields the value of the specification's
    formula. *)
Lemma payout_amount_Ok (c : claim_registry.Claim) (won : bool) (u r : Z) :
  let share := spec_user_share_bps u (winning_total won c) in
  let wfl := spec_winnings_from_losers (losing_total won c) share in
  let fees := spec_fees wfl (total_fee_bps c) in
  market.payout_amount c won u = Ok r
  ↔ claim_registry.yes_stake c + claim_registry.no_stake c <= MAX_U64
    ∧ total_fee_bps c <= MAX_U64
    ∧ u * 10000 <= MAX_U64
    ∧ winning_total won c ≠ 0
    ∧ losing_total won c * share <= MAX_U64
    ∧ wfl * total_fee_bps c <= MAX_U64
    ∧ fees <= wfl
    ∧ u + (wfl - fees) <= MAX_U64
    ∧ r = spec_total_payout u (winning_total won c) (losing_total won c)
            (total_fee_bps c).
Proof.
  intros share wfl fees. unfold market.payout_amount.
  unfold claim_registry.get_yes_stake, claim_registry.get_no_stake,
    claim_registry.get_creator_fee_bps, claim_registry.get_protocol_fee_bps.
  fold (winning_total won c). fold (losing_total won c). fold (total_fee_bps c).
  split.
  - intros H.
    apply bind_Ok in H as (t & Ht & H). apply u64_add_Ok in Ht as [Ht ->].
    apply bind_Ok in H as (f & Hf & H). apply u64_add_Ok in Hf as [Hf ->].
    apply bind_Ok in H as (s & Hs & H). apply u64_mul_Ok in Hs as [Hs ->].
    apply bind_Ok in H as (sh & Hsh & H). apply u64_div_Ok in Hsh as [Hsh ->].
    apply bind_Ok in H as (g & Hg & H). apply u64_mul_Ok in Hg as [Hg ->].
    apply bind_Ok in H as (w & Hw & H). apply u64_div_Ok in Hw as [_ ->].
    apply bind_Ok in H as (fp & Hfp & H). apply u64_mul_Ok in Hfp as [Hfp ->].
    apply bind_Ok in H as (fe & Hfe & H). apply u64_div_Ok in Hfe as [_ ->].
    apply bind_Ok in H as (n & Hn & H). apply u64_sub_Ok in Hn as [Hn ->].
    apply u64_add_Ok in H as [H ->].
    repeat split; assumption.
  - intros (Ht & Hf & Hs & Hsh & Hg & Hfp & Hn & Hp & ->).
    apply bind_Ok. eexists. split; [by apply u64_add_Ok|].
    apply bind_Ok. eexists. split; [by apply u64_add_Ok|].
    apply bind_Ok. eexists. split; [by apply u64_mul_Ok|].
    apply bind_Ok. eexists. split; [by apply u64_div_Ok|].
    apply bind_Ok. eexists. split; [by apply u64_mul_Ok|].
    apply bind_Ok. eexists. split; [by apply u64_div_Ok|].
    apply bind_Ok. eexists. split; [by apply u64_mul_Ok|].
    apply bind_Ok. eexists. split; [by apply u64_div_Ok|].
    apply bind_Ok. eexists. split; [by apply u64_sub_Ok|].
    by apply u64_add_Ok.
Qed.

Lemma withdraw_escrow_Ok (c c' : claim_registry.Claim) (amount coin_out : Z)
    (ctx ctx' : TxContext) :
  claim_registry.withdraw_escrow c amount ctx = Ok (c', coin_out, ctx')
  ↔ amount <= claim_registry.escrow c
    ∧ c' = claim_registry.set_escrow c (claim_registry.escrow c - amount)
    ∧ coin_out = amount
    ∧ ctx' = (object_new ctx).2.
Proof.
  unfold claim_registry.withdraw_escrow, coin.take. simpl. rewrite bind_Ok. split.
  - intros ([[rest cn] cx] & Htake & [= <- <- <-]).
    apply bind_Ok in Htake as ([rest' cn'] & Hsplit & [= <- <- <-]).
    apply balance_split_Ok in Hsplit as (Hle & -> & ->). auto.
  - intros (Hle & -> & -> & ->). eexists (_, _, _). split; [|reflexivity].
    apply bind_Ok. exists (claim_registry.escrow c - amount, amount).
    split; [|reflexivity]. by apply balance_split_Ok.
Qed.

(** An eligible call reduces to the arithmetic and the withdrawal. *)
Lemma claim_winnings_eligible (c : claim_registry.Claim) (p : market.Position)
    (ctx : TxContext) (won : bool) :
  claim_registry.status c = claim_registry.STATUS_RESOLVED →
  claim_registry.result c = Some won →
  market.claimed p = false →
  market.user p = sender ctx →
  0 < user_stake_of won p →
  market.claim_winnings c p ctx
  = (total_payout ← market.payout_amount c won (user_stake_of won p);
     '(c', payout_coin, ctx') ← claim_registry.withdraw_escrow c total_payout ctx;
     Ok (c', market.set_claimed p, payout_coin, ctx')).
Proof.
  intros Hst Hres Hcl Husr Hpos. unfold market.claim_winnings.
  unfold claim_registry.is_resolved, claim_registry.get_result.
  rewrite Hst, Hres, Hcl. simpl.
  rewrite bool_decide_eq_true_2 by done. simpl.
  fold (user_stake_of won p). apply Z.ltb_lt in Hpos. rewrite Hpos. reflexivity.
Qed.



(** C6, as the code has it: on a claimed position [claim_winnings] always
    fails, with [EAlreadyClaimed] when the claim presented is resolved and
    with [EClaimNotResolved] when it is not (the resolution check comes
    first), and the failed call moves nothing: the ledger, with the claim's
    escrow and stake totals and the position, is as before. *)
Theorem claim_winnings_claimed (c : claim_registry.Claim) (p : market.Position)
    (ctx : TxContext) :
  market.claimed p = true →
  market.claim_winnings c p ctx
  = Abort (market.err (if claim_registry.is_resolved c
                       then market.EAlreadyClaimed
                       else market.EClaimNotResolved))
  ∧ ∀ w kc kp s now,
      claims w !! kc = Some c → positions w !! kp = Some p →
      step w (mk s now (ClaimWinnings kc kp)) = w.
Proof.
  intros Hcl.
  assert (Hfail : ∀ cx, market.claim_winnings c p cx
    = Abort (market.err (if claim_registry.is_resolved c
                         then market.EAlreadyClaimed
                         else market.EClaimNotResolved))).
  { intros cx. unfold market.claim_winnings. rewrite Hcl.
    by destruct (claim_registry.is_resolved c). }
  split; [apply Hfail|].
  intros w kc kp s now Hc Hp. unfold step, run, fetch. simpl.
  rewrite Hc, Hp. simpl. by rewrite Hfail.
Qed.

(** ** What a successful call did *)

Lemma add_stake_Ok (c c' : claim_registry.Claim) (amount : Z) (is_yes : bool) :
  claim_registry.add_stake c amount is_yes = Ok c'
  ↔ claim_registry.status c = claim_registry.STATUS_OPEN
    ∧ claim_registry.escrow c + amount <= MAX_U64
    ∧ (if is_yes then claim_registry.yes_stake c else claim_registry.no_stake c)
      + amount <= MAX_U64
    ∧ c' = (let c1 := claim_registry.set_escrow c (claim_registry.escrow c + amount) in
            if is_yes
            then claim_registry.set_yes_stake c1 (claim_registry.yes_stake c + amount)
            else claim_registry.set_no_stake c1 (claim_registry.no_stake c + amount)).
Proof.
  unfold claim_registry.add_stake, coin.put, coin.value, balance.join.
  rewrite assert_bind_Ok, bind_Ok, Z.eqb_eq. split.
  - intros (Hst & bal & Hbal & H). apply u64_add_Ok in Hbal as [Hle ->].
    destruct is_yes; apply bind_Ok in H as (t & Ht & [= <-]);
      apply u64_add_Ok in Ht as [Ht ->]; auto.
  - intros (Hst & Hle & Ht & ->). split; [done|].
    exists (claim_registry.escrow c + amount). split; [by apply u64_add_Ok|].
    destruct is_yes; apply bind_Ok; eexists; (split; [by apply u64_add_Ok|]);
      reflexivity.
Qed.

Lemma stake_Ok (c c' : claim_registry.Claim) (m m' : market.MarketState)
    (payment : Z) (is_yes : bool) (p : market.Position) (ctx ctx' : TxContext) :
  market.stake c m payment is_yes ctx = Ok (c', m', p, ctx') →
  0 < payment
  ∧ claim_registry.add_stake c payment is_yes = Ok c'
  ∧ market.positions m !! sender ctx = None
  ∧ market.positions m' = <[sender ctx := fresh ctx]> (market.positions m)
  ∧ p = {| market.id := fresh ctx; market.claim_id := claim_registry.id c;
           market.user := sender ctx;
           market.yes_amount := if is_yes then payment else 0;
           market.no_amount := if is_yes then 0 else payment;
           market.claimed := false |}
  ∧ ctx' = (object_new ctx).2.
Proof.
  unfold market.stake, coin.value. intros H.
  apply assert_bind_Ok in H as [Hpos H]. apply Z.ltb_lt in Hpos.
  apply assert_bind_Ok in H as [_ H].
  apply bind_Ok in H as (c1 & Hadd & H).
  apply bind_Ok in H as ([] & _ & H). simpl in H.
  apply bind_Ok in H as (tbl & Htbl & H).
  apply bind_Ok in H as (total & _ & H).
  injection H as <- <- <- <-.
  unfold table.add in Htbl.
  destruct (market.positions m !! sender ctx) eqn:Hlook; [discriminate|].
  injection Htbl as <-. auto 10.
Qed.

Lemma claim_winnings_Ok (c c' : claim_registry.Claim) (p p' : market.Position)
    (payout : Z) (ctx ctx' : TxContext) :
  market.claim_winnings c p ctx = Ok (c', p', payout, ctx') →
  claim_registry.status c = claim_registry.STATUS_RESOLVED
  ∧ market.claimed p = false
  ∧ market.user p = sender ctx
  ∧ ∃ won,
      claim_registry.result c = Some won
      ∧ 0 < user_stake_of won p
      ∧ market.payout_amount c won (user_stake_of won p) = Ok payout
      ∧ payout <= claim_registry.escrow c
      ∧ c' = claim_registry.set_escrow c (claim_registry.escrow c - payout)
      ∧ p' = market.set_claimed p
      ∧ ctx' = (object_new ctx).2.
Proof.
  unfold market.claim_winnings, claim_registry.is_resolved,
    claim_registry.get_result. intros H.
  apply assert_bind_Ok in H as [Hst H]. apply Z.eqb_eq in Hst.
  apply assert_bind_Ok in H as [Hcl H]. apply negb_true_iff in Hcl.
  apply assert_bind_Ok in H as [Husr H]. apply bool_decide_eq_true in Husr.
  destruct (claim_registry.result c) as [won|]; [|discriminate].
  fold (user_stake_of won p) in H.
  apply assert_bind_Ok in H as [Hpos H]. apply Z.ltb_lt in Hpos.
  apply bind_Ok in H as (tp & Htp & H).
  apply bind_Ok in H as ([[c1 cn] cx] & Hw & [= <- <- <- <-]).
  apply withdraw_escrow_Ok in Hw as (Hle & -> & -> & ->).
  repeat split; try assumption. exists won. auto 10.
Qed.

Lemma claim_refund_Ok (c c' : claim_registry.Claim) (p p' : market.Position)
    (refund : Z) (ctx ctx' : TxContext) :
  market.claim_refund c p ctx = Ok (c', p', refund, ctx') →
  claim_registry.status c = claim_registry.STATUS_CANCELLED
  ∧ market.claimed p = false
  ∧ market.user p = sender ctx
  ∧ refund = market.yes_amount p + market.no_amount p
  ∧ 0 < refund
  ∧ refund <= claim_registry.escrow c.
Proof.
  unfold market.claim_refund, claim_registry.get_status. intros H.
  apply assert_bind_Ok in H as [Hst H]. apply Z.eqb_eq in Hst.
  apply assert_bind_Ok in H as [Hcl H]. apply negb_true_iff in Hcl.
  apply assert_bind_Ok in H as [Husr H]. apply bool_decide_eq_true in Husr.
  apply bind_Ok in H as (r & Hr & H). apply u64_add_Ok in Hr as [_ ->].
  apply assert_bind_Ok in H as [Hpos H]. apply Z.ltb_lt in Hpos.
  apply bind_Ok in H as ([[c1 cn] cx] & Hw & [= <- <- <- <-]).
  apply withdraw_escrow_Ok in Hw as (Hle & -> & -> & ->).
  auto 10.
Qed.

Lemma submit_attested_resolution_Ok (registry : attestation.MeasurementRegistry)
    (c c' : claim_registry.Claim) (res : bool) (blob : string)
    (att : list byte) (clock : Clock) (ctx : TxContext) :
  attestation.submit_attested_resolution registry c res blob att clock ctx = Ok c' →
  ∃ measurement,
    attestation.is_measurement_whitelisted registry measurement = true
    ∧ claim_registry.deadline c <= timestamp_ms clock
    ∧ (claim_registry.status c = claim_registry.STATUS_OPEN
       ∨ claim_registry.status c = claim_registry.STATUS_RESOLVING)
    ∧ c' = claim_registry.set_resolution c res blob measurement (timestamp_ms clock).
Proof.
  unfold attestation.submit_attested_resolution. intros H.
  apply assert_bind_Ok in H as [_ H].
  apply bind_Ok in H as (m & _ & H).
  apply assert_bind_Ok in H as [_ H].
  apply bind_Ok in H as (info & Hinfo & H).
  apply assert_bind_Ok in H as [Hact H].
  unfold claim_registry.resolve_claim in H.
  apply assert_bind_Ok in H as [Hdl H]. apply Z.leb_le in Hdl.
  apply assert_bind_Ok in H as [Hst H]. injection H as <-.
  exists m. repeat split; try assumption.
  - unfold attestation.is_measurement_whitelisted. unfold table.borrow in Hinfo.
    destruct (attestation.measurements registry !! m); [|discriminate].
    by injection Hinfo as ->.
  - apply orb_true_iff in Hst. by rewrite !Z.eqb_eq in Hst.
Qed.

Lemma create_claim_Ok (registry registry' : claim_registry.ClaimRegistry)
    (spec_blob evidence_blob descr : string) (deadline_ms fee_bps : Z)
    (clock : Clock) (ctx ctx' : TxContext) (c : claim_registry.Claim) :
  claim_registry.create_claim registry spec_blob evidence_blob descr deadline_ms
    fee_bps clock ctx = Ok (registry', c, ctx')
  ↔ timestamp_ms clock < deadline_ms
    ∧ claim_registry.total_claims registry + 1 <= MAX_U64
    ∧ registry' = claim_registry.set_total_claims registry
                    (claim_registry.total_claims registry + 1)
    ∧ ctx' = (object_new ctx).2
    ∧ c = {| claim_registry.id := fresh ctx;
             claim_registry.creator := sender ctx;
             claim_registry.spec_blob_id := spec_blob;
             claim_registry.evidence_blob_id := evidence_blob;
             claim_registry.description := descr;
             claim_registry.deadline := deadline_ms;
             claim_registry.status := claim_registry.STATUS_OPEN;
             claim_registry.result := None;
             claim_registry.result_blob_id := None;
             claim_registry.resolver_measurement := None;
             claim_registry.yes_stake := 0;
             claim_registry.no_stake := 0;
             claim_registry.creator_fee_bps := fee_bps;
             claim_registry.protocol_fee_bps :=
               claim_registry.default_protocol_fee_bps registry;
             claim_registry.escrow := 0;
             claim_registry.created_at := timestamp_ms clock;
             claim_registry.resolved_at := None |}.
Proof.
  unfold claim_registry.create_claim. simpl.
  rewrite assert_bind_Ok, bind_Ok, Z.ltb_lt. split.
  - intros (Hdl & t & Ht & [= <- <- <-]). apply u64_add_Ok in Ht as [Ht ->].
    auto 10.
  - intros (Hdl & Ht & -> & -> & ->). split; [done|].
    eexists. split; [by apply u64_add_Ok|]. reflexivity.
Qed.

(** ** The invariant of the ledger *)

Lemma fetch_Ok {A} (m : gmap ID A) (k : ID) (a : A) :
  fetch m k = Ok a ↔ m !! k = Some a.
Proof.
  unfold fetch. destruct (m !! k); split; intros H; try discriminate;
    by injection H as ->.
Qed.

Lemma paid_from_cons_eq (k : ID) (u : address) (a : Z) (log : list (ID * address * Z)) :
  paid_from k ((k, u, a) :: log) = a + paid_from k log.
Proof. unfold paid_from. simpl. by rewrite bool_decide_eq_true_2. Qed.

Lemma paid_from_cons_ne (k k' : ID) (u : address) (a : Z)
    (log : list (ID * address * Z)) :
  k' ≠ k → paid_from k' ((k, u, a) :: log) = paid_from k' log.
Proof. intros Hne. unfold paid_from. simpl. by rewrite bool_decide_eq_false_2. Qed.

Lemma claim_inv_add_stake (out : Z) (k : ID) (c c' : claim_registry.Claim)
    (amount : Z) (is_yes : bool) :
  claim_inv out k c → 0 <= amount →
  claim_registry.add_stake c amount is_yes = Ok c' →
  claim_inv out k c'
  ∧ claim_registry.yes_stake c <= claim_registry.yes_stake c'
  ∧ claim_registry.no_stake c <= claim_registry.no_stake c'
  ∧ (if is_yes then amount <= claim_registry.yes_stake c'
     else amount <= claim_registry.no_stake c').
Proof.
  intros [] Hpos Hadd. apply add_stake_Ok in Hadd as (Hst & Hle & Ht & ->).
  specialize (inv_open0 Hst).
  destruct is_yes; simpl;
    (split; [constructor; simpl; try done; try lia|lia]);
    intros Hc; rewrite Hc in Hst; discriminate.
Qed.

Lemma claim_inv_resolve (out : Z) (k : ID) (c : claim_registry.Claim)
    (res : bool) (blob : string) (m : list byte) (now : Z) :
  claim_inv out k c →
  claim_inv out k (claim_registry.set_resolution c res blob m now).
Proof.
  intros []. constructor; simpl; try done.
  all: try (right; by left).
  all: try (split; eauto).
Qed.

Lemma claim_inv_cancel (out : Z) (k : ID) (c : claim_registry.Claim) :
  claim_inv out k c →
  claim_registry.status c = claim_registry.STATUS_OPEN →
  claim_registry.yes_stake c = 0 → claim_registry.no_stake c = 0 →
  claim_inv out k (claim_registry.set_status c claim_registry.STATUS_CANCELLED).
Proof.
  intros [] Hst Hy Hn. constructor; simpl; try done.
  all: try (right; by right).
  all: try (rewrite inv_result0, Hst; split; discriminate).
Qed.

Lemma claim_inv_withdraw (out : Z) (k : ID) (c : claim_registry.Claim) (a : Z) :
  claim_inv out k c →
  claim_registry.status c = claim_registry.STATUS_RESOLVED →
  0 <= a <= claim_registry.escrow c →
  claim_inv (a + out) k
    (claim_registry.set_escrow c (claim_registry.escrow c - a)).
Proof.
  intros [] Hst Ha. constructor; simpl; try done; try lia.
  intros Hopen. rewrite Hopen in Hst. discriminate.
Qed.

(** A cancelled claim holds nothing. *)
Lemma claim_inv_cancelled_empty (out : Z) (k : ID) (c : claim_registry.Claim) :
  claim_inv out k c →
  claim_registry.status c = claim_registry.STATUS_CANCELLED →
  claim_registry.escrow c = 0 ∧ out = 0.
Proof. intros [] Hst. destruct (inv_cancelled0 Hst). lia. Qed.

Lemma position_inv_update (cs : gmap ID claim_registry.Claim) (k : ID)
    (c c' : claim_registry.Claim) (p : market.Position) :
  cs !! k = Some c →
  claim_registry.yes_stake c <= claim_registry.yes_stake c' →
  claim_registry.no_stake c <= claim_registry.no_stake c' →
  position_inv cs p → position_inv (<[k := c']> cs) p.
Proof.
  intros Hk Hy Hn [? ? ? (c1 & Hc1 & Hy1 & Hn1)]. constructor; try done.
  destruct (decide (market.claim_id p = k)) as [Heq|Hne].
  - exists c'. rewrite Heq, lookup_insert_eq. assert (c1 = c) as -> by congruence.
    split; [done|lia].
  - exists c1. by rewrite lookup_insert_ne.
Qed.

Lemma ledger_update_claim cs ps log n (k : ID) (c c' : claim_registry.Claim) :
  ledger_inv cs ps log n → cs !! k = Some c →
  claim_inv (paid_from k log) k c' →
  claim_registry.yes_stake c <= claim_registry.yes_stake c' →
  claim_registry.no_stake c <= claim_registry.no_stake c' →
  ledger_inv (<[k := c']> cs) ps log n.
Proof.
  intros [Hc Hp Hf] Hk Hinv Hy Hn. constructor.
  - intros k0 c0. destruct (decide (k = k0)) as [<-|Hne].
    + rewrite lookup_insert_eq. by intros [= <-].
    + rewrite lookup_insert_ne by done. apply Hc.
  - intros kp p Hkp. eapply position_inv_update; eauto.
  - intros k0 Hk0. destruct (Hf k0 Hk0) as [Hnone Hz]. split; [|done].
    rewrite lookup_insert_ne; [done|]. intros ->. rewrite Hnone in Hk. discriminate.
Qed.

Lemma ledger_pay cs ps log n (k : ID) (c c' : claim_registry.Claim)
    (u : address) (a : Z) :
  ledger_inv cs ps log n → cs !! k = Some c →
  claim_inv (a + paid_from k log) k c' →
  claim_registry.yes_stake c <= claim_registry.yes_stake c' →
  claim_registry.no_stake c <= claim_registry.no_stake c' →
  ledger_inv (<[k := c']> cs) ps ((k, u, a) :: log) n.
Proof.
  intros [Hc Hp Hf] Hk Hinv Hy Hn. constructor.
  - intros k0 c0. destruct (decide (k = k0)) as [<-|Hne].
    + rewrite lookup_insert_eq, paid_from_cons_eq. by intros [= <-].
    + rewrite lookup_insert_ne, paid_from_cons_ne by done. apply Hc.
  - intros kp p Hkp. eapply position_inv_update; eauto.
  - intros k0 Hk0. destruct (Hf k0 Hk0) as [Hnone Hz].
    assert (k0 ≠ k) by (intros ->; rewrite Hnone in Hk; discriminate).
    by rewrite lookup_insert_ne, paid_from_cons_ne.
Qed.

Lemma ledger_new_claim cs ps log (n : ID) (c' : claim_registry.Claim) :
  ledger_inv cs ps log n → claim_inv 0 n c' →
  ledger_inv (<[n := c']> cs) ps log (N.succ n).
Proof.
  intros [Hc Hp Hf] Hinv. destruct (Hf n) as [Hnone Hz]; [lia|]. constructor.
  - intros k0 c0. destruct (decide (n = k0)) as [<-|Hne].
    + rewrite lookup_insert_eq, Hz. by intros [= <-].
    + rewrite lookup_insert_ne by done. apply Hc.
  - intros kp p Hkp. destruct (Hp kp p Hkp) as [? ? ? (c1 & Hc1 & Hy1 & Hn1)].
    constructor; try done. exists c1. rewrite lookup_insert_ne; [done|].
    intros Heq. rewrite <- Heq, Hnone in Hc1. discriminate.
  - intros k0 Hk0. destruct (Hf k0) as [Hnone0 Hz0]; [lia|].
    rewrite lookup_insert_ne by lia. done.
Qed.

Lemma ledger_new_position cs ps log n (kp : ID) (p : market.Position) :
  ledger_inv cs ps log n → position_inv cs p →
  ledger_inv cs (<[kp := p]> ps) log n.
Proof.
  intros [Hc Hp Hf] Hinv. constructor; try done.
  intros k0 p0. destruct (decide (kp = k0)) as [<-|Hne].
  - rewrite lookup_insert_eq. by intros [= <-].
  - rewrite lookup_insert_ne by done. apply Hp.
Qed.

Lemma ledger_next_id cs ps log (n n' : N) :
  (n <= n')%N → ledger_inv cs ps log n → ledger_inv cs ps log n'.
Proof.
  intros Hle [Hc Hp Hf]. constructor; try done.
  intros k Hk. apply Hf. lia.
Qed.

Lemma position_inv_claimed cs (p : market.Position) :
  position_inv cs p → position_inv cs (market.set_claimed p).
Proof. intros []. by constructor. Qed.

Lemma genesis_inv (publisher0 : address) : world_inv (genesis publisher0).
Proof.
  unfold world_inv, genesis. simpl. constructor.
  - intros k c. by rewrite lookup_empty.
  - intros k p. by rewrite lookup_empty.
  - intros k _. by rewrite lookup_empty.
Qed.

(** A successful [claim_winnings] pays a positive amount. *)
Lemma payout_amount_pos (c : claim_registry.Claim) (won : bool) (u r : Z) :
  0 < u → market.payout_amount c won u = Ok r → 0 < r.
Proof.
  intros Hu H. apply payout_amount_Ok in H.
  destruct H as (_ & _ & _ & _ & _ & _ & Hfees & _ & ->).
  unfold spec_total_payout. lia.
Qed.

Lemma run_preserves_inv (w w' : World) (tx : Tx) :
  tx_wf tx → world_inv w → run w tx = Ok w' → world_inv w'.
Proof.
  intros [Hnow Hwf] Hinv Hrun. destruct tx as [s now call].
  unfold run in Hrun. simpl in *. unfold world_inv in *.
  destruct call; simpl in *.
  - (* create_claim *)
    apply bind_Ok in Hrun as ([[reg c] ctx'] & Hc & [= <-]).
    apply create_claim_Ok in Hc as (Hdl & Ht & -> & -> & ->). simpl.
    apply ledger_new_claim; [done|].
    constructor; simpl; try done; try lia.
    all: try (left; reflexivity).
    all: try (split; [by intros [? ?]|discriminate]).
  - (* create_market *)
    injection Hrun as <-. simpl.
    apply (ledger_next_id _ _ _ (next_id w)); [lia|done].
  - (* stake *)
    apply bind_Ok in Hrun as (c & Hc & Hrun). apply fetch_Ok in Hc.
    apply bind_Ok in Hrun as (m & Hm & Hrun).
    apply bind_Ok in Hrun as ([[[c' m'] p] ctx'] & Hst & [= <-]).
    apply stake_Ok in Hst as (Hpos & Hadd & _ & _ & -> & ->). simpl.
    pose proof (inv_claims _ _ _ _ Hinv _ _ Hc) as Hci.
    destruct (claim_inv_add_stake _ _ _ _ _ _ Hci (Z.lt_le_incl _ _ Hpos) Hadd)
      as (Hci' & Hy & Hn & Hcover).
    rewrite (inv_key _ _ _ Hci'), (inv_key _ _ _ Hci).
    apply (ledger_next_id _ _ _ (next_id w)); [simpl; lia|].
    apply ledger_new_position.
    + eapply ledger_update_claim; eauto.
    + constructor; simpl.
      * destruct is_yes; lia.
      * destruct is_yes; lia.
      * destruct is_yes; lia.
      * exists c'. rewrite lookup_insert_eq. split; [done|].
        pose proof (inv_yes _ _ _ Hci'). pose proof (inv_no _ _ _ Hci').
        destruct is_yes; lia.
  - (* claim_winnings *)
    apply bind_Ok in Hrun as (c & Hc & Hrun). apply fetch_Ok in Hc.
    apply bind_Ok in Hrun as (p & Hp & Hrun). apply fetch_Ok in Hp.
    apply bind_Ok in Hrun as ([[[c' p'] payout] ctx'] & Hcw & [= <-]).
    apply claim_winnings_Ok in Hcw
      as (Hst & _ & _ & won & _ & Hu & Hpay & Hle & -> & -> & ->). simpl.
    pose proof (inv_claims _ _ _ _ Hinv _ _ Hc) as Hci.
    pose proof (payout_amount_pos _ _ _ _ Hu Hpay) as Hpos.
    rewrite (inv_key _ _ _ Hci).
    apply (ledger_next_id _ _ _ (next_id w)); [simpl; lia|].
    apply ledger_new_position.
    + eapply ledger_pay; eauto; simpl; try lia.
      apply claim_inv_withdraw; [done|done|lia].
    + apply position_inv_claimed.
      eapply position_inv_update; eauto; simpl; try lia.
      eapply inv_positions; eauto.
  - (* claim_refund *)
    apply bind_Ok in Hrun as (c & Hc & Hrun). apply fetch_Ok in Hc.
    apply bind_Ok in Hrun as (p & Hp & Hrun).
    apply bind_Ok in Hrun as ([[[c' p'] refund] ctx'] & Hcr & _).
    apply claim_refund_Ok in Hcr as (Hst & _ & _ & _ & Hpos & Hle).
    pose proof (inv_claims _ _ _ _ Hinv _ _ Hc) as Hci.
    destruct (claim_inv_cancelled_empty _ _ _ Hci Hst). lia.
  - (* cancel_claim *)
    apply bind_Ok in Hrun as (c & Hc & Hrun). apply fetch_Ok in Hc.
    apply bind_Ok in Hrun as (c' & Hcc & [= <-]).
    apply cancel_claim_Ok in Hcc as ((_ & Hst & Hy & Hn) & ->). simpl.
    pose proof (inv_claims _ _ _ _ Hinv _ _ Hc) as Hci.
    rewrite (inv_key _ _ _ Hci).
    eapply ledger_update_claim; eauto; simpl; try lia.
    by apply claim_inv_cancel.
  - (* submit_attested_resolution *)
    apply bind_Ok in Hrun as (c & Hc & Hrun). apply fetch_Ok in Hc.
    apply bind_Ok in Hrun as (c' & Hs & [= <-]).
    apply submit_attested_resolution_Ok in Hs as (m & _ & _ & _ & ->). simpl.
    pose proof (inv_claims _ _ _ _ Hinv _ _ Hc) as Hci.
    rewrite (inv_key _ _ _ Hci).
    eapply ledger_update_claim; eauto; simpl; try lia.
    by apply claim_inv_resolve.
  - apply bind_Ok in Hrun as (r & _ & [= <-]). done.
  - apply bind_Ok in Hrun as (r & _ & [= <-]). done.
  - apply bind_Ok in Hrun as (r & _ & [= <-]). done.
  - apply bind_Ok in Hrun as (r & _ & [= <-]). done.
  - apply bind_Ok in Hrun as (r & _ & [= <-]). done.
Qed.

Lemma step_preserves_inv (w : World) (tx : Tx) :
  tx_wf tx → world_inv w → world_inv (step w tx).
Proof.
  intros Hwf Hinv. unfold step. destruct (run w tx) as [w'|e] eqn:Hrun; [|done].
  eapply run_preserves_inv; eauto.
Qed.

Lemma reachable_inv (publisher0 : address) (w : World) :
  reachable publisher0 w → world_inv w.
Proof.
  induction 1 as [|w tx _ IH Hwf].
  - apply genesis_inv.
  - by apply step_preserves_inv.
Qed.

Lemma reachable_run_all (publisher0 : address) (w : World) (txs : list Tx) :
  reachable publisher0 w → Forall tx_wf txs →
  reachable publisher0 (run_all w txs).
Proof.
  intros Hw Hwf. revert w Hw. induction Hwf as [|tx txs Htx _ IH]; intros w Hw.
  - exact Hw.
  - simpl. apply IH. by constructor.
Qed.

(** ** Escrow accounting *)

Lemma resolve_claim_Ok (c c' : claim_registry.Claim) (res : bool)
    (blob : string) (m : list byte) (clock : Clock) :
  claim_registry.resolve_claim c res blob m clock = Ok c' →
  c' = claim_registry.set_resolution c res blob m (timestamp_ms clock).
Proof.
  unfold claim_registry.resolve_claim. intros H.
  apply assert_bind_Ok in H as [_ H]. apply assert_bind_Ok in H as [_ H].
  by injection H as <-.
Qed.

(** C2: in every reachable state and for every claim, the escrow balance
    is the sum of the two stake totals minus everything withdrawn from the
    claim so far, and it is not negative; until something is withdrawn it
    is the sum of the totals.  [add_stake] adds the amount to the escrow
    and to one total, [resolve_claim] and [cancel_claim] leave the escrow
    and the totals alone, [withdraw_escrow] only lowers the escrow. *)
Theorem escrow_accounting (publisher0 : address) (w : World) :
  reachable publisher0 w →
  (∀ k c,
     claims w !! k = Some c →
     claim_registry.escrow c
     = claim_registry.yes_stake c + claim_registry.no_stake c
       - paid_from k (paid w)
     ∧ 0 <= claim_registry.escrow c
     ∧ 0 <= paid_from k (paid w)
     ∧ (paid_from k (paid w) = 0 →
        claim_registry.escrow c
        = claim_registry.yes_stake c + claim_registry.no_stake c))
  ∧ (∀ c c' amount is_yes,
       claim_registry.add_stake c amount is_yes = Ok c' →
       claim_registry.escrow c' = claim_registry.escrow c + amount
       ∧ claim_registry.yes_stake c'
         = claim_registry.yes_stake c + (if is_yes then amount else 0)
       ∧ claim_registry.no_stake c'
         = claim_registry.no_stake c + (if is_yes then 0 else amount))
  ∧ (∀ c c' res blob m clock,
       claim_registry.resolve_claim c res blob m clock = Ok c' →
       claim_registry.escrow c' = claim_registry.escrow c
       ∧ claim_registry.yes_stake c' = claim_registry.yes_stake c
       ∧ claim_registry.no_stake c' = claim_registry.no_stake c)
  ∧ (∀ c c' reason ctx,
       claim_registry.cancel_claim c reason ctx = Ok c' →
       claim_registry.escrow c' = claim_registry.escrow c
       ∧ claim_registry.yes_stake c' = claim_registry.yes_stake c
       ∧ claim_registry.no_stake c' = claim_registry.no_stake c)
  ∧ (∀ c c' amount coin_out ctx ctx',
       0 <= amount →
       claim_registry.withdraw_escrow c amount ctx = Ok (c', coin_out, ctx') →
       claim_registry.escrow c' = claim_registry.escrow c - amount
       ∧ claim_registry.escrow c' <= claim_registry.escrow c
       ∧ 0 <= claim_registry.escrow c'
       ∧ coin_out = amount
       ∧ claim_registry.yes_stake c' = claim_registry.yes_stake c
       ∧ claim_registry.no_stake c' = claim_registry.no_stake c).
Proof.
  intros Hreach. apply reachable_inv in Hreach.
  split; [|split; [|split; [|split]]].
  - intros k c Hk. destruct (inv_claims _ _ _ _ Hreach k c Hk). lia.
  - intros c c' amount is_yes H. apply add_stake_Ok in H as (_ & _ & _ & ->).
    destruct is_yes; simpl; lia.
  - intros c c' res blob m clock H. apply resolve_claim_Ok in H as ->. done.
  - intros c c' reason ctx H. apply cancel_claim_Ok in H as [_ ->]. done.
  - intros c c' amount coin_out ctx ctx' Hpos H.
    apply withdraw_escrow_Ok in H as (Hle & -> & -> & _). simpl. lia.
Qed.

(** ** Refunds *)

Lemma u64_add_fits (a b : Z) : a + b <= MAX_U64 → u64_add a b = Ok (a + b).
Proof. intros H. by apply u64_add_Ok. Qed.

Lemma u64_mul_fits (a b : Z) : a * b <= MAX_U64 → u64_mul a b = Ok (a * b).
Proof. intros H. by apply u64_mul_Ok. Qed.

Lemma u64_div_nonzero (a b : Z) : b ≠ 0 → u64_div a b = Ok (a / b).
Proof. intros H. by apply u64_div_Ok. Qed.

Lemma u64_sub_underflow (a b : Z) :
  a < b → u64_sub a b = Abort (ArithmeticError SubUnderflow).
Proof. intros H. unfold u64_sub. apply Z.leb_gt in H. by rewrite H. Qed.

(** On a claim that holds nothing, [claim_refund] of a position with a
    positive stake gets past every assertion of the market module and
    aborts in the escrow. *)
Lemma claim_refund_cases (c : claim_registry.Claim) (p : market.Position)
    (ctx : TxContext) :
  0 < market.yes_amount p + market.no_amount p <= MAX_U64 →
  (claim_registry.status c = claim_registry.STATUS_CANCELLED →
   claim_registry.escrow c = 0) →
  market.claim_refund c p ctx
  = if negb (claim_registry.status c =? claim_registry.STATUS_CANCELLED)
    then Abort (market.err market.EInvalidClaim)
    else if market.claimed p
    then Abort (market.err market.EAlreadyClaimed)
    else if negb (bool_decide (market.user p = sender ctx))
    then Abort (market.err market.EInvalidClaim)
    else Abort (MoveAbort InBalance balance.ENotEnough).
Proof.
  intros [Hpos Hfit] Hempty. unfold market.claim_refund, claim_registry.get_status.
  change 3 with claim_registry.STATUS_CANCELLED.
  destruct (Z.eqb_spec (claim_registry.status c) claim_registry.STATUS_CANCELLED)
    as [Hst|Hst]; simpl; [|reflexivity].
  destruct (market.claimed p); simpl; [reflexivity|].
  destruct (bool_decide (market.user p = sender ctx)); simpl; [|reflexivity].
  rewrite u64_add_fits by done. simpl.
  apply Z.ltb_lt in Hpos as Hpos'. rewrite Hpos'. simpl.
  unfold claim_registry.withdraw_escrow, coin.take, balance.split. simpl.
  rewrite (Hempty Hst).
  assert (Hgt : (market.yes_amount p + market.no_amount p <=? 0) = false)
    by (apply Z.leb_gt; lia).
  by rewrite Hgt.
Qed.

Lemma position_refund_fits cs log n k (p : market.Position) ps :
  ledger_inv cs ps log n → ps !! k = Some p →
  0 < market.yes_amount p + market.no_amount p <= MAX_U64
  ∧ ∃ c, cs !! market.claim_id p = Some c
         ∧ claim_registry.status c ≠ claim_registry.STATUS_CANCELLED.
Proof.
  intros Hinv Hp.
  destruct (inv_positions _ _ _ _ Hinv k p Hp) as [Hy Hn Hpos (c & Hc & Hyc & Hnc)].
  destruct (inv_claims _ _ _ _ Hinv _ c Hc).
  split; [lia|]. exists c. split; [done|].
  intros Hst. destruct (inv_cancelled0 Hst). lia.
Qed.

(** C9, as the code has it: in every reachable state no call to
    [claim_refund] returns funds.  A cancelled claim has zero stake totals
    and an empty escrow, every position records a positive stake and
    belongs to a claim that is not cancelled; so [claim_refund] always
    fails and the ledger stays as it was.  The checks are made in this
    order: [EInvalidClaim] when the claim presented is not cancelled; on a
    cancelled claim, [EAlreadyClaimed] when the position is claimed; on an
    unclaimed position, [EInvalidClaim] when the signer is not its user;
    and for its user the abort of the withdrawal from the empty escrow.
    It never fails with [ENoWinnings]. *)
Theorem claim_refund_never_pays (publisher0 : address) (w : World) :
  reachable publisher0 w →
  (∀ s now kc kp,
     ∃ e, run w (mk s now (ClaimRefund kc kp)) = Abort e
          ∧ refund_failure e
          ∧ e ≠ market.err market.ENoWinnings)
  ∧ (∀ s now kc kp c p,
       claims w !! kc = Some c → positions w !! kp = Some p →
       claim_registry.status c = claim_registry.STATUS_CANCELLED →
       market.claimed p = false → market.user p = s →
       run w (mk s now (ClaimRefund kc kp))
       = Abort (MoveAbort InBalance balance.ENotEnough))
  ∧ (∀ s now kc kp c p,
       claims w !! kc = Some c → positions w !! kp = Some p →
       (claim_registry.status c ≠ claim_registry.STATUS_CANCELLED →
        run w (mk s now (ClaimRefund kc kp))
        = Abort (market.err market.EInvalidClaim))
       ∧ (claim_registry.status c = claim_registry.STATUS_CANCELLED →
          market.claimed p = true →
          run w (mk s now (ClaimRefund kc kp))
          = Abort (market.err market.EAlreadyClaimed))
       ∧ (claim_registry.status c = claim_registry.STATUS_CANCELLED →
          market.claimed p = false → market.user p ≠ s →
          run w (mk s now (ClaimRefund kc kp))
          = Abort (market.err market.EInvalidClaim)))
  ∧ (∀ s now kc kp,
       claims w !! kc = None ∨ positions w !! kp = None →
       run w (mk s now (ClaimRefund kc kp)) = Abort ObjectNotFound)
  ∧ (∀ s now kc kp,
       step w (mk s now (ClaimRefund kc kp)) = w)
  ∧ (∀ k c,
       claims w !! k = Some c →
       claim_registry.status c = claim_registry.STATUS_CANCELLED →
       claim_registry.yes_stake c = 0 ∧ claim_registry.no_stake c = 0
       ∧ claim_registry.escrow c = 0)
  ∧ (∀ kp p,
       positions w !! kp = Some p →
       0 < market.yes_amount p + market.no_amount p
       ∧ ∃ c, claims w !! market.claim_id p = Some c
              ∧ claim_registry.status c ≠ claim_registry.STATUS_CANCELLED).
Proof.
  intros Hreach. apply reachable_inv in Hreach. unfold world_inv in Hreach.
  assert (Hcases : ∀ s now kc kp c p,
    claims w !! kc = Some c → positions w !! kp = Some p →
    run w (mk s now (ClaimRefund kc kp))
    = market.claim_refund c p {| sender := s; fresh := next_id w |}
      ≫= (λ '(c, p, refund, ctx),
            Ok (close_ctx (pay (put_position (put_claim w c) p)
                  (claim_registry.id c) (market.user p) refund) ctx))).
  { intros s now kc kp c p Hc Hp. unfold run, fetch. simpl. by rewrite Hc, Hp. }
  assert (Hrefund : ∀ s kc kp c p,
    claims w !! kc = Some c → positions w !! kp = Some p →
    market.claim_refund c p {| sender := s; fresh := next_id w |}
    = if negb (claim_registry.status c =? claim_registry.STATUS_CANCELLED)
      then Abort (market.err market.EInvalidClaim)
      else if market.claimed p
      then Abort (market.err market.EAlreadyClaimed)
      else if negb (bool_decide (market.user p = s))
      then Abort (market.err market.EInvalidClaim)
      else Abort (MoveAbort InBalance balance.ENotEnough)).
  { intros s kc kp c p Hc Hp. apply claim_refund_cases.
    - eapply position_refund_fits; eauto.
    - intros Hst.
      by destruct (claim_inv_cancelled_empty _ _ _ (inv_claims _ _ _ _ Hreach _ _ Hc) Hst). }
  assert (Hfails : ∀ s now kc kp,
    ∃ e, run w (mk s now (ClaimRefund kc kp)) = Abort e
         ∧ refund_failure e
         ∧ e ≠ market.err market.ENoWinnings).
  { intros s now kc kp. unfold refund_failure.
    destruct (claims w !! kc) as [c|] eqn:Hc.
    + destruct (positions w !! kp) as [p|] eqn:Hp.
      * rewrite (Hcases s now kc kp c p Hc Hp), (Hrefund s kc kp c p Hc Hp).
        destruct (negb _); [eexists; split; [reflexivity|]; split; [tauto|discriminate]|].
        destruct (market.claimed p);
          [eexists; split; [reflexivity|]; split; [tauto|discriminate]|].
        destruct (negb _);
          eexists; (split; [reflexivity|]); (split; [tauto|discriminate]).
      * exists ObjectNotFound. unfold run, fetch. simpl. rewrite Hc, Hp. simpl.
        split; [reflexivity|]. split; [tauto|discriminate].
    + exists ObjectNotFound. unfold run, fetch. simpl. rewrite Hc. simpl.
      split; [reflexivity|]. split; [tauto|discriminate]. }
  split; [exact Hfails|]. split; [|split; [|split; [|split; [|split]]]].
  - intros s now kc kp c p Hc Hp Hst Hcl Husr.
    rewrite (Hcases s now kc kp c p Hc Hp), (Hrefund s kc kp c p Hc Hp).
    rewrite Hst, Hcl. simpl. by rewrite bool_decide_eq_true_2.
  - intros s now kc kp c p Hc Hp.
    rewrite (Hcases s now kc kp c p Hc Hp), (Hrefund s kc kp c p Hc Hp).
    split; [|split].
    + intros Hst. apply Z.eqb_neq in Hst. by rewrite Hst.
    + intros Hst Hcl. by rewrite Hst, Hcl.
    + intros Hst Hcl Husr. rewrite Hst, Hcl. simpl.
      by rewrite bool_decide_eq_false_2.
  - intros s now kc kp Hnone. unfold run, fetch. simpl.
    destruct (claims w !! kc) as [c|]; simpl; [|reflexivity].
    destruct Hnone as [Hnone|Hnone]; [discriminate|]. by rewrite Hnone.
  - intros s now kc kp. unfold step.
    destruct (Hfails s now kc kp) as (e & Hrun & _). by rewrite Hrun.
  - intros k c Hc Hst. pose proof (inv_claims _ _ _ _ Hreach _ _ Hc) as Hci.
    destruct (claim_inv_cancelled_empty _ _ _ Hci Hst).
    destruct (inv_cancelled _ _ _ Hci Hst). auto.
  - intros kp p Hp. destruct (position_refund_fits _ _ _ _ _ _ Hreach Hp) as [[? _] ?].
    auto.
Qed.

(** ** The histories are reachable *)

Lemma settled_world_reachable : reachable publisher settled_world.
Proof. apply reachable_run_all; [constructor|]. unfold settled_history. history_wf. Qed.

Lemma crossed_world_reachable : reachable publisher crossed_world.
Proof. apply reachable_run_all; [constructor|]. unfold crossed_history. history_wf. Qed.

Lemma cancelled_world_reachable : reachable publisher cancelled_world.
Proof. apply reachable_run_all; [constructor|]. unfold cancelled_history. history_wf. Qed.

Lemma overcharged_world_reachable : reachable publisher overcharged_world.
Proof. apply reachable_run_all; [constructor|]. unfold overcharged_history. history_wf. Qed.

Lemma staked_world_reachable : reachable publisher staked_world.
Proof. apply reachable_run_all; [constructor|]. unfold staked_history. history_wf. Qed.

Lemma whitelisted_world_reachable : reachable publisher whitelisted_world.
Proof. apply reachable_run_all; [constructor|]. history_wf. Qed.

Lemma revoked_world_reachable : reachable publisher revoked_world.
Proof.
  apply reachable_run_all; [apply whitelisted_world_reachable|]. history_wf.
Qed.

Lemma paid_world_reachable : reachable publisher paid_world.
Proof.
  apply reachable_run_all; [apply settled_world_reachable|]. history_wf.
Qed.


Lemma mixed_world_reachable : reachable publisher mixed_world.
Proof. apply reachable_run_all; [constructor|]. unfold mixed_history. history_wf. Qed.

Lemma settled_world_objects :
  claims settled_world !! 3%N = Some settled_claim
  ∧ positions settled_world !! 6%N = Some alice_position.
Proof. split; vm_compute; reflexivity. Qed.

Lemma crossed_world_objects :
  claims crossed_world !! 3%N = Some open_claim
  ∧ positions crossed_world !! 9%N = Some spent_position.
Proof. split; vm_compute; reflexivity. Qed.

(** ** Repeated stakes *)

(** Through a market whose table already maps the signer to a position,
    [stake] never succeeds; when the amount and the claim pass the checks
    and the totals do not overflow, the abort is the one of [table::add]. *)
Lemma stake_existing_position (c : claim_registry.Claim) (m : market.MarketState)
    (payment : Z) (is_yes : bool) (ctx : TxContext) (c' : claim_registry.Claim) :
  is_Some (market.positions m !! sender ctx) →
  is_ok (market.stake c m payment is_yes ctx) = false
  ∧ (0 < payment → claim_registry.add_stake c payment is_yes = Ok c' →
     market.stake c m payment is_yes ctx
     = Abort (MoveAbort InDynamicField table.EFieldAlreadyExists)).
Proof.
  intros [pid Hpid]. split.
  - apply not_true_is_false. intros Hok.
    apply is_ok_true in Hok as ([[[c1 m1] p1] ctx1] & Hrun).
    apply stake_Ok in Hrun as (_ & _ & Hnone & _). congruence.
  - intros Hpos Hadd. unfold market.stake, coin.value.
    apply Z.ltb_lt in Hpos. rewrite Hpos. simpl.
    pose proof Hadd as Hopen. apply add_stake_Ok in Hopen as (Hopen & _).
    unfold claim_registry.get_status. rewrite Hopen. simpl.
    rewrite Hadd. simpl.
    unfold table.contains.
    rewrite bool_decide_eq_true_2 by (rewrite Hpid; eauto).
    unfold table.borrow, table.add. rewrite Hpid. reflexivity.
Qed.

(** C5, at a failing input: alice already holds position 6 on the open
    claim 3, recorded in the table of market 4; her further stake on that
    claim through that market aborts in [table::add] and creates nothing. *)
Theorem stake_again_same_market_aborts :
  reachable publisher staked_world
  ∧ (∃ c, claims staked_world !! 3%N = Some c
          ∧ claim_registry.status c = claim_registry.STATUS_OPEN)
  ∧ (∃ m, markets staked_world !! 4%N = Some m
          ∧ market.positions m !! alice = Some 6%N)
  ∧ run staked_world (mk alice 102 (Stake 3%N 4%N 50 true))
    = Abort (MoveAbort InDynamicField table.EFieldAlreadyExists)
  ∧ step staked_world (mk alice 102 (Stake 3%N 4%N 50 true)) = staked_world.
Proof.
  split; [apply staked_world_reachable|].
  split; [eexists; split; vm_compute; reflexivity|].
  split; [eexists; split; vm_compute; reflexivity|].
  split; vm_compute; reflexivity.
Qed.

(** Through a second market of the same claim the further stake succeeds
    and yields a separate position 9 of 50; position 6 keeps its 100. *)
Lemma stake_again_other_market :
  ∃ w', run staked_world (mk alice 102 (Stake 3%N 7%N 50 true)) = Ok w'
        ∧ market.yes_amount <$> positions w' !! 6%N = Some 100
        ∧ market.yes_amount <$> positions w' !! 9%N = Some 50
        ∧ claim_registry.yes_stake <$> claims w' !! 3%N = Some 150.
Proof. eexists. split; [vm_compute; reflexivity|]. repeat split. Qed.

(** ** Fees above the denominator *)

Lemma fees_exceed_winnings (wfl fee_bps : Z) :
  0 < wfl → 20000 <= fee_bps → wfl < spec_fees wfl fee_bps.
Proof.
  intros Hw Hf. unfold spec_fees.
  assert (2 * wfl <= wfl * fee_bps / 10000); [|lia].
  apply Z.div_le_lower_bound; [lia|]. nia.
Qed.

(** C10: [create_claim] stores whatever creator fee it is given, with no
    upper bound; on a claim created with a creator fee of 20000 bps, an
    eligible [claim_winnings] whose winnings from the losing side are
    positive never succeeds, and when no earlier operation overflows it
    aborts in the subtraction [winnings_from_losers - fees], which is not
    one of the declared errors.  The history [overcharged_history] reaches
    such an abort. *)
Theorem creator_fee_unbounded_underflow :
  (∀ registry spec_blob evidence_blob descr deadline_ms fee_bps clock ctx,
     is_u64 fee_bps →
     timestamp_ms clock < deadline_ms →
     claim_registry.total_claims registry + 1 <= MAX_U64 →
     ∃ registry' c ctx',
       claim_registry.create_claim registry spec_blob evidence_blob descr
         deadline_ms fee_bps clock ctx = Ok (registry', c, ctx')
       ∧ claim_registry.creator_fee_bps c = fee_bps)
  ∧ (∀ c p ctx won,
       claim_registry.status c = claim_registry.STATUS_RESOLVED →
       claim_registry.result c = Some won →
       market.claimed p = false →
       market.user p = sender ctx →
       0 < user_stake_of won p →
       claim_registry.creator_fee_bps c = 20000 →
       0 <= claim_registry.protocol_fee_bps c →
       let u := user_stake_of won p in
       let share := spec_user_share_bps u (winning_total won c) in
       let wfl := spec_winnings_from_losers (losing_total won c) share in
       0 < wfl →
       is_ok (market.claim_winnings c p ctx) = false
       ∧ (claim_registry.yes_stake c + claim_registry.no_stake c <= MAX_U64 →
          total_fee_bps c <= MAX_U64 →
          u * 10000 <= MAX_U64 →
          winning_total won c ≠ 0 →
          losing_total won c * share <= MAX_U64 →
          wfl * total_fee_bps c <= MAX_U64 →
          market.claim_winnings c p ctx = Abort (ArithmeticError SubUnderflow)))
  ∧ (reachable publisher overcharged_world
     ∧ claim_registry.creator_fee_bps <$> claims overcharged_world !! 3%N
       = Some 20000
     ∧ run overcharged_world (mk alice 101 (ClaimWinnings 3%N 6%N))
       = Abort (ArithmeticError SubUnderflow)).
Proof.
  split; [|split].
  - intros registry spec_blob evidence_blob descr deadline_ms fee_bps clock ctx
      _ Hdl Htotal.
    eexists _, _, _. split; [apply create_claim_Ok; eauto 10|]. reflexivity.
  - intros c p ctx won Hst Hres Hcl Husr Hpos Hfee Hprot u share wfl Hwfl.
    assert (Hover : wfl < spec_fees wfl (total_fee_bps c)).
    { apply fees_exceed_winnings; [done|]. unfold total_fee_bps. lia. }
    split.
    + apply not_true_is_false. intros Hok.
      apply is_ok_true in Hok as ([[[c1 p1] payout] ctx1] & Hrun).
      apply claim_winnings_Ok in Hrun
        as (_ & _ & _ & won' & Hres' & _ & Hpay & _).
      assert (won' = won) as -> by congruence.
      apply payout_amount_Ok in Hpay.
      destruct Hpay as (_ & _ & _ & _ & _ & _ & Hfees & _).
      fold u share wfl in Hfees. lia.
    + intros Ht Hf Hu Hw Hl Hwf.
      rewrite (claim_winnings_eligible c p ctx won) by assumption.
      fold u. unfold market.payout_amount.
      unfold claim_registry.get_yes_stake, claim_registry.get_no_stake,
        claim_registry.get_creator_fee_bps, claim_registry.get_protocol_fee_bps.
      fold (winning_total won c). fold (losing_total won c).
      fold (total_fee_bps c).
      rewrite (u64_add_fits _ _ Ht). simpl.
      rewrite (u64_add_fits _ _ Hf). simpl.
      rewrite (u64_mul_fits _ _ Hu). simpl.
      rewrite (u64_div_nonzero _ _ Hw). simpl.
      fold (spec_user_share_bps u (winning_total won c)). fold share.
      rewrite (u64_mul_fits _ _ Hl). simpl.
      fold (spec_winnings_from_losers (losing_total won c) share). fold wfl.
      fold (total_fee_bps c).
      rewrite (u64_mul_fits _ _ Hwf). simpl.
      fold (spec_fees wfl (total_fee_bps c)).
      by rewrite (u64_sub_underflow _ _ Hover).
  - split; [apply overcharged_world_reachable|].
    split; vm_compute; reflexivity.
Qed.

(** ** Concrete instances *)


(** The theorem of C2 on [paid_world]: after alice's payout of 165 the
    escrow of claim 3 is 600 + 400 - 165. *)
Lemma escrow_accounting_witness :
  reachable publisher paid_world
  ∧ paid_from 3%N (paid paid_world) = 165
  ∧ ∃ c, claims paid_world !! 3%N = Some c
         ∧ claim_registry.escrow c = 835
         ∧ claim_registry.escrow c
           = claim_registry.yes_stake c + claim_registry.no_stake c
             - paid_from 3%N (paid paid_world).
Proof.
  split; [apply paid_world_reachable|]. split; [reflexivity|].
  destruct (escrow_accounting publisher paid_world paid_world_reachable)
    as [Hacc _].
  eexists. split; [vm_compute; reflexivity|]. split; [reflexivity|].
  refine (proj1 (Hacc 3%N _ _)). vm_compute; reflexivity.
Defined.

(** The theorem of C3 on the idle claim 6, cancelled by its creator: the
    claim returned has the status 3. *)
Lemma cancel_claim_decision_witness :
  (claim_registry.creator idle_claim = creator1
   ∧ claim_registry.status idle_claim = claim_registry.STATUS_OPEN
   ∧ claim_registry.yes_stake idle_claim = 0
   ∧ claim_registry.no_stake idle_claim = 0)
  ∧ (∃ claim',
       claim_registry.cancel_claim idle_claim "withdrawn"
         {| sender := creator1; fresh := 8%N |} = Ok claim'
       ∧ claim_registry.status claim' = 3
       ∧ claim_registry.status idle_claim = 0
       ∧ claim_registry.deadline claim' = claim_registry.deadline idle_claim)
  ∧ claim_registry.cancel_claim idle_claim "withdrawn"
      {| sender := creator1; fresh := 8%N |}
    = Ok (claim_registry.set_status idle_claim claim_registry.STATUS_CANCELLED)
  ∧ claim_registry.cancel_claim idle_claim "withdrawn"
      {| sender := alice; fresh := 8%N |}
    = Abort (claim_registry.err claim_registry.EUnauthorized)
  ∧ claim_registry.cancel_claim open_claim "withdrawn"
      {| sender := creator1; fresh := 8%N |}
    = Abort (claim_registry.err claim_registry.EInvalidStatus).
Proof.
  split; [repeat split|]. split; [|split; [|split]].
  - destruct (cancel_claim_decision idle_claim "withdrawn"
                {| sender := creator1; fresh := 8%N |})
      as (_ & Hok & _ & _ & _ & Hfields & _).
    specialize (Hok (conj eq_refl (conj eq_refl (conj eq_refl eq_refl)))).
    destruct (Hfields _ Hok)
      as (Hst & _ & _ & _ & _ & _ & _ & Hdl & _).
    eexists. split; [exact Hok|]. split; [exact Hst|].
    split; [reflexivity|exact Hdl].
  - destruct (cancel_claim_decision idle_claim "withdrawn"
                {| sender := creator1; fresh := 8%N |}) as (_ & Hok & _).
    apply Hok. repeat split.
  - destruct (cancel_claim_decision idle_claim "withdrawn"
                {| sender := alice; fresh := 8%N |}) as (_ & _ & Hno & _).
    apply Hno. discriminate.
  - destruct (cancel_claim_decision open_claim "withdrawn"
                {| sender := creator1; fresh := 8%N |}) as (_ & _ & _ & Hno & _).
    apply Hno; [reflexivity|]. intros (_ & _ & Hy & _). discriminate.
Defined.

(** The theorem of C4 on the idle claim 6 (deadline 100): too early at 99,
    resolved at 100; and on the resolved claim 3. *)
Lemma resolve_claim_decision_witness :
  claim_registry.resolve_claim idle_claim true "result" oracle
    {| timestamp_ms := 99 |}
  = Abort (claim_registry.err claim_registry.EDeadlineNotReached)
  ∧ claim_registry.resolve_claim idle_claim true "result" oracle
      {| timestamp_ms := 100 |}
    = Ok (claim_registry.set_resolution idle_claim true "result" oracle 100)
  ∧ claim_registry.resolve_claim settled_claim false "again" oracle
      {| timestamp_ms := 100 |}
    = Abort (claim_registry.err claim_registry.EClaimAlreadyResolved).
Proof.
  split; [|split].
  - destruct (resolve_claim_decision idle_claim true "result" oracle
                {| timestamp_ms := 99 |}) as (Hearly & _).
    apply Hearly. simpl. lia.
  - destruct (resolve_claim_decision idle_claim true "result" oracle
                {| timestamp_ms := 100 |}) as (_ & Hok & _).
    destruct Hok as (c' & Hrun & _ & _ & _ & _ & _ & ->).
    + simpl. lia.
    + left. reflexivity.
    + exact Hrun.
  - destruct (resolve_claim_decision settled_claim false "again" oracle
                {| timestamp_ms := 100 |}) as (_ & _ & Hdone & _).
    apply Hdone; [simpl; lia|]. left. reflexivity.
Defined.

(** The theorem of C6 on alice's claimed position 9 and its own claim 3,
    which is still open. *)
Lemma claim_winnings_claimed_witness :
  market.claimed spent_position = true
  ∧ market.claim_winnings open_claim spent_position (ctx_of alice crossed_world)
    = Abort (market.err market.EClaimNotResolved)
  ∧ market.claim_winnings settled_claim spent_position (ctx_of alice crossed_world)
    = Abort (market.err market.EAlreadyClaimed).
Proof.
  split; [reflexivity|]. split.
  - exact (proj1 (claim_winnings_claimed open_claim spent_position
                    (ctx_of alice crossed_world) eq_refl)).
  - exact (proj1 (claim_winnings_claimed settled_claim spent_position
                    (ctx_of alice crossed_world) eq_refl)).
Defined.

(** The theorem of C7 on the empty whitelist of the genesis state and on
    the whitelist in which the oracle was revoked. *)
Lemma submit_not_whitelisted_witness :
  length oracle = 32%nat
  ∧ attestation.is_measurement_whitelisted (measurement_reg (genesis publisher))
      oracle = false
  ∧ attestation.is_measurement_whitelisted (measurement_reg revoked_world)
      oracle = false
  ∧ attestation.submit_attested_resolution (measurement_reg (genesis publisher))
      idle_claim true "result" (oracle ++ ["000"%byte])
      {| timestamp_ms := 100 |} {| sender := resolver; fresh := 8%N |}
    = Abort (attestation.err attestation.EMeasurementNotWhitelisted)
  ∧ attestation.submit_attested_resolution (measurement_reg revoked_world)
      idle_claim true "result" (oracle ++ ["000"%byte])
      {| timestamp_ms := 100 |} {| sender := resolver; fresh := 8%N |}
    = Abort (attestation.err attestation.EMeasurementNotWhitelisted).
Proof.
  split; [reflexivity|]. split; [reflexivity|]. split; [reflexivity|]. split.
  - exact (proj1 (submit_not_whitelisted (measurement_reg (genesis publisher))
                    idle_claim true "result" oracle ["000"%byte]
                    {| timestamp_ms := 100 |} {| sender := resolver; fresh := 8%N |}
                    eq_refl eq_refl)).
  - exact (proj1 (submit_not_whitelisted (measurement_reg revoked_world)
                    idle_claim true "result" oracle ["000"%byte]
                    {| timestamp_ms := 100 |} {| sender := resolver; fresh := 8%N |}
                    eq_refl eq_refl)).
Defined.

(** The theorem of C8 on the genesis state: the publisher, who is the
    administrator, whitelists the oracle. *)
Lemma whitelist_measurement_decision_witness :
  attestation.admin (measurement_reg (genesis publisher)) = publisher
  ∧ length oracle = 32%nat
  ∧ attestation.measurements (measurement_reg (genesis publisher)) !! oracle = None
  ∧ ∃ registry',
      attestation.whitelist_measurement (measurement_reg (genesis publisher))
        oracle "oracle v1" {| timestamp_ms := 15 |}
        {| sender := publisher; fresh := 3%N |} = Ok registry'
      ∧ attestation.is_measurement_whitelisted registry' oracle = true.
Proof.
  split; [reflexivity|]. split; [reflexivity|]. split; [reflexivity|].
  destruct (whitelist_measurement_decision (measurement_reg (genesis publisher))
              oracle "oracle v1" {| timestamp_ms := 15 |}
              {| sender := publisher; fresh := 3%N |} eq_refl) as (_ & Hok & _).
  exact (Hok eq_refl eq_refl).
Defined.

(** The theorem of C9 on [mixed_world], where claim 3 is resolved, claim 6
    is cancelled, alice's position 7 is claimed and bob's position 8 is
    not: each of the refusals, in the order of the checks. *)
Lemma claim_refund_never_pays_witness :
  reachable publisher mixed_world
  ∧ (∃ e, run mixed_world (mk bob 102 (ClaimRefund 6%N 8%N)) = Abort e
          ∧ refund_failure e
          ∧ e ≠ market.err market.ENoWinnings)
  ∧ run mixed_world (mk bob 102 (ClaimRefund 3%N 8%N))
    = Abort (market.err market.EInvalidClaim)
  ∧ run mixed_world (mk bob 102 (ClaimRefund 6%N 7%N))
    = Abort (market.err market.EAlreadyClaimed)
  ∧ run mixed_world (mk alice 102 (ClaimRefund 6%N 8%N))
    = Abort (market.err market.EInvalidClaim)
  ∧ run mixed_world (mk bob 102 (ClaimRefund 6%N 8%N))
    = Abort (MoveAbort InBalance balance.ENotEnough)
  ∧ run mixed_world (mk bob 102 (ClaimRefund 6%N 99%N)) = Abort ObjectNotFound
  ∧ step mixed_world (mk bob 102 (ClaimRefund 6%N 8%N)) = mixed_world.
Proof.
  split; [apply mixed_world_reachable|].
  destruct (claim_refund_never_pays publisher mixed_world mixed_world_reachable)
    as (Hfails & Huser & Hcases & Hnone & Hstep & _).
  destruct (claims mixed_world !! 3%N) as [cA|] eqn:HcA;
    [|vm_compute in HcA; discriminate].
  destruct (claims mixed_world !! 6%N) as [cB|] eqn:HcB;
    [|vm_compute in HcB; discriminate].
  destruct (positions mixed_world !! 7%N) as [p7|] eqn:Hp7;
    [|vm_compute in Hp7; discriminate].
  destruct (positions mixed_world !! 8%N) as [p8|] eqn:Hp8;
    [|vm_compute in Hp8; discriminate].
  pose proof HcA as HcA'. vm_compute in HcA'. injection HcA' as HcA'.
  pose proof HcB as HcB'. vm_compute in HcB'. injection HcB' as HcB'.
  pose proof Hp7 as Hp7'. vm_compute in Hp7'. injection Hp7' as Hp7'.
  pose proof Hp8 as Hp8'. vm_compute in Hp8'. injection Hp8' as Hp8'.
  split; [exact (Hfails bob 102 6%N 8%N)|].
  split; [|split; [|split; [|split; [|split]]]].
  - apply (proj1 (Hcases bob 102 3%N 8%N cA p8 HcA Hp8)).
    rewrite <- HcA'. discriminate.
  - apply (proj1 (proj2 (Hcases bob 102 6%N 7%N cB p7 HcB Hp7)));
      [rewrite <- HcB'|rewrite <- Hp7']; reflexivity.
  - apply (proj2 (proj2 (Hcases alice 102 6%N 8%N cB p8 HcB Hp8)));
      [rewrite <- HcB'; reflexivity|rewrite <- Hp8'; reflexivity|].
    rewrite <- Hp8'. discriminate.
  - apply (Huser bob 102 6%N 8%N cB p8 HcB Hp8);
      [rewrite <- HcB'|rewrite <- Hp8'|rewrite <- Hp8']; reflexivity.
  - apply Hnone. right. vm_compute. reflexivity.
  - apply Hstep.
Defined.

(** The theorem of C10 on the genesis registry: a creator fee of 20000 bps
    is accepted. *)
Lemma creator_fee_unbounded_underflow_witness :
  is_u64 20000
  ∧ ∃ registry' c ctx',
      claim_registry.create_claim (claim_reg (genesis publisher)) "spec"
        "evidence" "rain tomorrow" 100 20000 {| timestamp_ms := 10 |}
        {| sender := creator1; fresh := 3%N |} = Ok (registry', c, ctx')
      ∧ claim_registry.creator_fee_bps c = 20000.
Proof.
  assert (Hfee : is_u64 20000) by (unfold is_u64, MAX_U64; lia).
  split; [exact Hfee|].
  apply (proj1 creator_fee_unbounded_underflow); [exact Hfee|simpl; lia|].
  unfold MAX_U64. simpl. lia.
Defined.

(** ** Where the code departs from the claims as stated *)


(** Against C6 as stated: alice's position 9 on claim 3 is claimed (she
    presented it with the resolved claim 6 and was paid from that claim's
    escrow), claim 3 is still open, and her call of [claim_winnings] on
    that position with its own claim fails with [EClaimNotResolved], not
    with [EAlreadyClaimed]. *)
Lemma claimed_position_counterexample :
  reachable publisher crossed_world
  ∧ claims crossed_world !! 3%N = Some open_claim
  ∧ positions crossed_world !! 9%N = Some spent_position
  ∧ market.claim_id spent_position = claim_registry.id open_claim
  ∧ market.claimed spent_position = true
  ∧ run crossed_world (mk alice 102 (ClaimWinnings 3%N 9%N))
    = Abort (market.err market.EClaimNotResolved)
  ∧ market.err market.EClaimNotResolved ≠ market.err market.EAlreadyClaimed.
Proof.
  split; [apply crossed_world_reachable|].
  split; [apply crossed_world_objects|].
  split; [apply crossed_world_objects|].
  repeat split; try (vm_compute; reflexivity). discriminate.
Qed.

(** Against C8 as stated: the administrator registers the 32-byte oracle
    measurement a second time, while it is active and after it was
    revoked; both calls abort in [table::add]. *)
Lemma whitelist_again_counterexample :
  reachable publisher whitelisted_world
  ∧ reachable publisher revoked_world
  ∧ attestation.admin (measurement_reg whitelisted_world) = publisher
  ∧ attestation.admin (measurement_reg revoked_world) = publisher
  ∧ length oracle = 32%nat
  ∧ run whitelisted_world (mk publisher 16 (WhitelistMeasurement oracle "oracle v1"))
    = Abort (MoveAbort InDynamicField table.EFieldAlreadyExists)
  ∧ attestation.is_measurement_whitelisted (measurement_reg revoked_world) oracle
    = false
  ∧ run revoked_world (mk publisher 17 (WhitelistMeasurement oracle "oracle v1"))
    = Abort (MoveAbort InDynamicField table.EFieldAlreadyExists).
Proof.
  split; [apply whitelisted_world_reachable|].
  split; [apply revoked_world_reachable|].
  repeat split; vm_compute; reflexivity.
Qed.

(** Against C9 as stated: claim 6 is cancelled, alice's position 7 records
    a stake of 100 on another claim, and her call of [claim_refund] with
    the two aborts in the withdrawal from the empty escrow, not with
    [ENoWinnings]. *)
Lemma claim_refund_counterexample :
  reachable publisher cancelled_world
  ∧ claim_registry.status <$> claims cancelled_world !! 6%N
    = Some claim_registry.STATUS_CANCELLED
  ∧ market.yes_amount <$> positions cancelled_world !! 7%N = Some 100
  ∧ run cancelled_world (mk alice 102 (ClaimRefund 6%N 7%N))
    = Abort (MoveAbort InBalance balance.ENotEnough)
  ∧ MoveAbort InBalance balance.ENotEnough ≠ market.err market.ENoWinnings.
Proof.
  split; [apply cancelled_world_reachable|].
  repeat split; try (vm_compute; reflexivity). discriminate.
Qed.

(** ** The time lock *)

Lemma Z_of_byte_range (b : byte) : 0 <= Z_of_byte b <= 255.
Proof.
  unfold Z_of_byte. pose proof (Byte.to_N_bounded b). lia.
Qed.

Lemma Z_of_byte_of_Z (z : Z) : Z_of_byte (byte_of_Z z) = z mod 256.
Proof.
  unfold Z_of_byte, byte_of_Z.
  destruct (Byte.of_N (Z.to_N (z mod 256))) as [b|] eqn:Hb; simpl.
  - apply Byte.to_of_N in Hb. rewrite Hb.
    rewrite Z2N.id; [done|]. apply Z.mod_pos_bound. lia.
  - apply Byte.of_N_None_iff in Hb.
    pose proof (Z.mod_pos_bound z 256). lia.
Qed.

Lemma pop_back_reverse_cons (b : byte) (l : list byte) :
  bcs.pop_back (reverse (b :: l)) = Pass (b, reverse l).
Proof. unfold bcs.pop_back. by rewrite reverse_involutive. Qed.

Lemma shifted_byte (b : byte) (i : Z) :
  0 <= i <= 56 →
  Z.land (Z.shiftl (Z_of_byte b) i) MAX_U64 = Z_of_byte b * 2 ^ i.
Proof.
  intros Hi. pose proof (Z_of_byte_range b) as Hb.
  change MAX_U64 with (Z.ones 64).
  rewrite Z.land_ones, Z.shiftl_mul_pow2 by lia.
  apply Z.mod_small. split; [apply Z.mul_nonneg_nonneg; lia|].
  assert (2 ^ i <= 2 ^ 56) by (apply Z.pow_le_mono_r; lia).
  assert (0 < 2 ^ i) by (apply Z.pow_pos_nonneg; lia).
  change (2 ^ 64) with (256 * 2 ^ 56). nia.
Qed.

(** One turn of the loop on a value below [2 ^ i]. *)
Lemma peel_step_cons (value i : Z) (b : byte) (l : list byte) :
  0 <= i <= 56 → 0 <= value < 2 ^ i →
  bcs.peel_step (Pass (value, reverse (b :: l))) i
  = Pass (value + Z_of_byte b * 2 ^ i, reverse l).
Proof.
  intros Hi Hv. unfold bcs.peel_step. simpl.
  rewrite pop_back_reverse_cons. simpl. rewrite shifted_byte by done.
  pose proof (Z_of_byte_range b) as Hb.
  assert (2 ^ i <= 2 ^ 56) by (apply Z.pow_le_mono_r; lia).
  change MAX_U64 with (256 * 2 ^ 56 - 1).
  assert (Hfit : (value + Z_of_byte b * 2 ^ i <=? 256 * 2 ^ 56 - 1) = true)
    by (apply Z.leb_le; nia).
  by rewrite Hfit.
Qed.

Lemma peel_u64_new (b0 b1 b2 b3 b4 b5 b6 b7 : byte) (rest : list byte) :
  bcs.peel_u64 (bcs.new (b0 :: b1 :: b2 :: b3 :: b4 :: b5 :: b6 :: b7 :: rest))
  = Pass (le_value [b0; b1; b2; b3; b4; b5; b6; b7],
          {| bcs.bytes := reverse rest |}).
Proof.
  unfold bcs.peel_u64, bcs.new. cbn [bcs.bytes].
  rewrite length_reverse.
  assert (Hlen : (8 <=? Z.of_nat (length (b0 :: b1 :: b2 :: b3 :: b4 :: b5 :: b6 :: b7 :: rest))) = true).
  { apply Z.leb_le. simpl length. lia. }
  rewrite Hlen. cbn [foldl].
  pose proof (Z_of_byte_range b0). pose proof (Z_of_byte_range b1).
  pose proof (Z_of_byte_range b2). pose proof (Z_of_byte_range b3).
  pose proof (Z_of_byte_range b4). pose proof (Z_of_byte_range b5).
  pose proof (Z_of_byte_range b6). pose proof (Z_of_byte_range b7).
  rewrite peel_step_cons by lia.
  rewrite peel_step_cons by lia.
  rewrite peel_step_cons by lia.
  rewrite peel_step_cons by lia.
  rewrite peel_step_cons by lia.
  rewrite peel_step_cons by lia.
  rewrite peel_step_cons by lia.
  rewrite peel_step_cons by lia.
  simpl. f_equal. f_equal. lia.
Qed.

Lemma check_policy_long (id : list byte) (c : Clock) :
  (8 <= length id)%nat →
  time_lock_policy.check_policy id c
  = Pass ((Z.of_nat (length id) =? 8)
          && (le_value (take 8 id) <=? timestamp_ms c)).
Proof.
  intros Hlen.
  destruct id as [|b0 [|b1 [|b2 [|b3 [|b4 [|b5 [|b6 [|b7 rest]]]]]]]];
    simpl in Hlen; try lia.
  unfold time_lock_policy.check_policy. rewrite peel_u64_new.
  cbv [mbind verdict_bind bcs.into_remainder_bytes bcs.bytes]. cbv beta iota.
  rewrite reverse_involutive. f_equal. f_equal.
  destruct (Z.eqb_spec (Z.of_nat (length rest)) 0) as [Hz|Hz];
    destruct (Z.eqb_spec
                (Z.of_nat (length (b0 :: b1 :: b2 :: b3 :: b4 :: b5 :: b6 :: b7 :: rest))) 8)
      as [He|He]; simpl length in He; try reflexivity; lia.
Qed.

Lemma check_policy_short (id : list byte) (c : Clock) :
  (length id < 8)%nat →
  time_lock_policy.check_policy id c = Fail (BcsAbort bcs.EOutOfRange).
Proof.
  intros Hlen. unfold time_lock_policy.check_policy, bcs.peel_u64, bcs.new.
  cbn [bcs.bytes]. rewrite length_reverse.
  assert (Hlt : (8 <=? Z.of_nat (length id)) = false) by (apply Z.leb_gt; lia).
  by rewrite Hlt.
Qed.

Lemma seal_approve_exact (id : list byte) (clk : Clock) :
  length id = 8%nat →
  time_lock_policy.seal_approve id clk
  = if le_value id <=? timestamp_ms clk
    then Pass tt
    else Fail (PolicyAbort time_lock_policy.ENoAccess).
Proof.
  intros Hlen. unfold time_lock_policy.seal_approve.
  rewrite check_policy_long by lia. rewrite Hlen. simpl.
  rewrite <- Hlen, firstn_all. by destruct (le_value id <=? timestamp_ms clk).
Qed.

Lemma seal_approve_long (id : list byte) (clk : Clock) :
  (8 < length id)%nat →
  time_lock_policy.seal_approve id clk
  = Fail (PolicyAbort time_lock_policy.ENoAccess).
Proof.
  intros Hlen. unfold time_lock_policy.seal_approve.
  rewrite check_policy_long by lia.
  assert (Hne : (Z.of_nat (length id) =? 8) = false) by (apply Z.eqb_neq; lia).
  by rewrite Hne.
Qed.

Lemma seal_approve_short (id : list byte) (clk : Clock) :
  (length id < 8)%nat →
  time_lock_policy.seal_approve id clk = Fail (BcsAbort bcs.EOutOfRange).
Proof.
  intros Hlen. unfold time_lock_policy.seal_approve.
  by rewrite check_policy_short.
Qed.

(** X1: [seal_approve] on a key id of fewer than eight bytes aborts in the
    reader of [sui::bcs]; on one of more than eight bytes it aborts with
    [ENoAccess]; on one of exactly eight bytes it passes exactly when the
    clock has reached the little-endian value of the id, and aborts with
    [ENoAccess] before.  Once it passes, it passes at every later time. *)
Theorem seal_approve_decision (id : list byte) (c : Clock) :
  ((length id < 8)%nat →
   time_lock_policy.seal_approve id c = Fail (BcsAbort bcs.EOutOfRange))
  ∧ ((8 < length id)%nat →
     time_lock_policy.seal_approve id c
     = Fail (PolicyAbort time_lock_policy.ENoAccess))
  ∧ (length id = 8%nat →
     time_lock_policy.seal_approve id c
     = if le_value id <=? timestamp_ms c
       then Pass tt
       else Fail (PolicyAbort time_lock_policy.ENoAccess))
  ∧ (∀ c',
       time_lock_policy.seal_approve id c = Pass tt →
       timestamp_ms c <= timestamp_ms c' →
       time_lock_policy.seal_approve id c' = Pass tt).
Proof.
  split; [apply seal_approve_short|]. split; [apply seal_approve_long|].
  split; [apply seal_approve_exact|].
  intros c' Hpass Hle.
  destruct (lt_eq_lt_dec (length id) 8) as [[Hlt|Heq]|Hgt].
  - rewrite seal_approve_short in Hpass by done. discriminate.
  - rewrite seal_approve_exact in * by done.
    destruct (Z.leb_spec (le_value id) (timestamp_ms c)); [|discriminate].
    destruct (Z.leb_spec (le_value id) (timestamp_ms c')); [done|lia].
  - rewrite seal_approve_long in Hpass by done. discriminate.
Qed.

Lemma le_bytes_length (n : nat) (x : Z) :
  length (CreateClaimDialog.le_bytes n x) = n.
Proof. revert x. induction n as [|n IH]; intros x; simpl; [done|]. by rewrite IH. Qed.

Lemma le_value_le_bytes (n : nat) (x : Z) :
  0 <= x < 256 ^ Z.of_nat n →
  le_value (CreateClaimDialog.le_bytes n x) = x.
Proof.
  revert x. induction n as [|n IH]; intros x Hx.
  - simpl in *. lia.
  - cbn [CreateClaimDialog.le_bytes le_value].
    rewrite Nat2Z.inj_succ, Z.pow_succ_r in Hx by lia.
    rewrite Z_of_byte_of_Z, IH.
    + rewrite Z.mod_mod by lia. pose proof (Z.div_mod x 256). lia.
    + split; [apply Z.div_pos; lia|apply Z.div_lt_upper_bound; lia].
Qed.

Lemma le_value_idBytes (d : Z) :
  le_value (CreateClaimDialog.idBytes d) = d mod 2 ^ 64.
Proof.
  unfold CreateClaimDialog.idBytes. apply le_value_le_bytes.
  change (256 ^ Z.of_nat 8) with (2 ^ 64). apply Z.mod_pos_bound. lia.
Qed.

(** X2: the key id the dialog builds from a deadline that fits in 64
    bits has eight bytes and the deadline as its little-endian value.  The
    policy passes on it exactly when the clock has reached the deadline, and
    aborts with [ENoAccess] before; so it passes exactly when [resolve_claim]
    on a claim of that deadline does not abort with [EDeadlineNotReached]. *)
Theorem dialog_key_unlocks_at_deadline (d : Z) (c : Clock) :
  is_u64 d →
  length (CreateClaimDialog.idBytes d) = 8%nat
  ∧ le_value (CreateClaimDialog.idBytes d) = d
  ∧ (time_lock_policy.seal_approve (CreateClaimDialog.idBytes d) c = Pass tt
     ↔ d <= timestamp_ms c)
  ∧ (d <= timestamp_ms c ∨
     time_lock_policy.seal_approve (CreateClaimDialog.idBytes d) c
     = Fail (PolicyAbort time_lock_policy.ENoAccess))
  ∧ ∀ claim res blob m,
      claim_registry.deadline claim = d →
      (time_lock_policy.seal_approve (CreateClaimDialog.idBytes d) c = Pass tt
       ↔ claim_registry.resolve_claim claim res blob m c
         ≠ Abort (claim_registry.err claim_registry.EDeadlineNotReached)).
Proof.
  intros [Hd0 Hd1].
  assert (Hlen : length (CreateClaimDialog.idBytes d) = 8%nat)
    by apply le_bytes_length.
  assert (Hval : le_value (CreateClaimDialog.idBytes d) = d).
  { rewrite le_value_idBytes. apply Z.mod_small. unfold MAX_U64 in Hd1. lia. }
  pose proof (seal_approve_exact _ c Hlen) as Hexact. rewrite Hval in Hexact.
  assert (Hiff : time_lock_policy.seal_approve (CreateClaimDialog.idBytes d) c = Pass tt
                 ↔ d <= timestamp_ms c).
  { rewrite Hexact. destruct (Z.leb_spec d (timestamp_ms c)); split;
      try done; try lia. }
  split; [done|]. split; [done|]. split; [done|]. split.
  - rewrite Hexact. destruct (Z.leb_spec d (timestamp_ms c)); auto.
  - intros claim res blob m Hdl. rewrite Hiff.
    unfold claim_registry.resolve_claim. rewrite Hdl.
    destruct (Z.leb_spec d (timestamp_ms c)) as [Hle|Hgt]; simpl.
    + split; [|done]. intros _.
      destruct (_ || _); simpl; discriminate.
    + split; [lia|]. intros Hne. by destruct Hne.
Qed.

(** ** The key id as a string *)

Lemma hex_digit_inj (n m : Z) :
  0 <= n < 16 → 0 <= m < 16 →
  CreateClaimDialog.hex_digit n = CreateClaimDialog.hex_digit m → n = m.
Proof.
  intros Hn Hm.
  assert (Hcn : n = 0 ∨ n = 1 ∨ n = 2 ∨ n = 3 ∨ n = 4 ∨ n = 5 ∨ n = 6 ∨ n = 7
                ∨ n = 8 ∨ n = 9 ∨ n = 10 ∨ n = 11 ∨ n = 12 ∨ n = 13 ∨ n = 14
                ∨ n = 15) by lia.
  assert (Hcm : m = 0 ∨ m = 1 ∨ m = 2 ∨ m = 3 ∨ m = 4 ∨ m = 5 ∨ m = 6 ∨ m = 7
                ∨ m = 8 ∨ m = 9 ∨ m = 10 ∨ m = 11 ∨ m = 12 ∨ m = 13 ∨ m = 14
                ∨ m = 15) by lia.
  clear Hn Hm.
  repeat (destruct Hcn as [->|Hcn]); try subst n;
    repeat (destruct Hcm as [->|Hcm]); try subst m;
    vm_compute; intros H; first [reflexivity | discriminate H].
Qed.

Lemma Z_of_byte_inj (b1 b2 : byte) : Z_of_byte b1 = Z_of_byte b2 → b1 = b2.
Proof.
  unfold Z_of_byte. intros H. apply N2Z.inj in H.
  apply (f_equal Byte.of_N) in H. rewrite !Byte.of_to_N in H. congruence.
Qed.

Lemma byte_hex_inj (b1 b2 : byte) :
  CreateClaimDialog.byte_hex b1 = CreateClaimDialog.byte_hex b2 → b1 = b2.
Proof.
  unfold CreateClaimDialog.byte_hex. intros H. injection H as Hhi Hlo.
  pose proof (Z_of_byte_range b1) as H1. pose proof (Z_of_byte_range b2) as H2.
  apply hex_digit_inj in Hhi;
    [|split; [apply Z.div_pos; lia|apply Z.div_lt_upper_bound; lia]..].
  apply hex_digit_inj in Hlo; [|apply Z.mod_pos_bound; lia..].
  apply Z_of_byte_inj.
  pose proof (Z.div_mod (Z_of_byte b1) 16). pose proof (Z.div_mod (Z_of_byte b2) 16).
  lia.
Qed.

Lemma hex_concat_inj (l1 l2 : list byte) :
  length l1 = length l2 →
  String.concat "" (map CreateClaimDialog.byte_hex l1)
  = String.concat "" (map CreateClaimDialog.byte_hex l2) →
  l1 = l2.
Proof.
  revert l2. induction l1 as [|a l1 IH]; intros [|b l2] Hlen H;
    simpl in Hlen; try done.
  assert (Hcons : ∀ (x : byte) (l : list byte),
    String.concat "" (map CreateClaimDialog.byte_hex (x :: l))
    = String (CreateClaimDialog.hex_digit (Z_of_byte x / 16))
        (String (CreateClaimDialog.hex_digit (Z_of_byte x mod 16))
           (String.concat "" (map CreateClaimDialog.byte_hex l)))).
  { intros x [|y l]; [reflexivity|]. reflexivity. }
  rewrite !Hcons in H. injection H as Hhi Hlo Hrest.
  f_equal.
  - apply byte_hex_inj. unfold CreateClaimDialog.byte_hex. by rewrite Hhi, Hlo.
  - apply IH; [lia|done].
Qed.

Lemma hex_concat_length (l : list byte) :
  String.length (String.concat "" (map CreateClaimDialog.byte_hex l))
  = (2 * length l)%nat.
Proof.
  induction l as [|a [|b l] IH]; [reflexivity|reflexivity|].
  change (String.length
            (String (CreateClaimDialog.hex_digit (Z_of_byte a / 16))
               (String (CreateClaimDialog.hex_digit (Z_of_byte a mod 16))
                  (String.concat "" (map CreateClaimDialog.byte_hex (b :: l)))))
          = (2 * length (a :: b :: l))%nat).
  cbn [String.length]. rewrite IH. simpl length. lia.
Qed.

(** X3: the key id string of the dialog has eighteen characters, and
    the string, as the bytes, determines the deadline among those that fit
    in 64 bits. *)
Theorem key_id_determines_deadline (d1 d2 : Z) :
  is_u64 d1 → is_u64 d2 →
  String.length (CreateClaimDialog.idHex d1) = 18%nat
  ∧ (CreateClaimDialog.idHex d1 = CreateClaimDialog.idHex d2 → d1 = d2)
  ∧ (CreateClaimDialog.idBytes d1 = CreateClaimDialog.idBytes d2 → d1 = d2).
Proof.
  intros [Ha0 Ha1] [Hb0 Hb1]. unfold MAX_U64 in *.
  assert (Hbytes : CreateClaimDialog.idBytes d1 = CreateClaimDialog.idBytes d2
                   → d1 = d2).
  { intros H. apply (f_equal le_value) in H. rewrite !le_value_idBytes in H.
    rewrite !Z.mod_small in H by lia. done. }
  split; [|split; [|done]].
  - unfold CreateClaimDialog.idHex.
    pose proof (hex_concat_length (CreateClaimDialog.idBytes d1)) as Hlen.
    unfold CreateClaimDialog.idBytes in Hlen at 2.
    rewrite le_bytes_length in Hlen.
    destruct (String.concat "" (map CreateClaimDialog.byte_hex
                                  (CreateClaimDialog.idBytes d1))) as [|a s];
      simpl in *; congruence.
  - unfold CreateClaimDialog.idHex.
    intros H. apply Hbytes, hex_concat_inj;
      [unfold CreateClaimDialog.idBytes; by rewrite !le_bytes_length|].
    revert H.
    generalize (String.concat "" (map CreateClaimDialog.byte_hex
                                    (CreateClaimDialog.idBytes d1))),
               (String.concat "" (map CreateClaimDialog.byte_hex
                                    (CreateClaimDialog.idBytes d2))).
    intros s1 s2 H. simpl in H. by injection H.
Qed.

(** ** More of what a successful call did *)

Lemma stake_Ok_market (c c' : claim_registry.Claim) (m m' : market.MarketState)
    (payment : Z) (is_yes : bool) (p : market.Position) (ctx ctx' : TxContext) :
  market.stake c m payment is_yes ctx = Ok (c', m', p, ctx') →
  claim_registry.status c = claim_registry.STATUS_OPEN
  ∧ market.total_positions m + 1 <= MAX_U64
  ∧ m' = {| market.market_id := market.market_id m;
            market.market_claim_id := market.market_claim_id m;
            market.positions := <[sender ctx := fresh ctx]> (market.positions m);
            market.total_positions := market.total_positions m + 1 |}.
Proof.
  unfold market.stake, coin.value. intros H.
  apply assert_bind_Ok in H as [_ H].
  apply assert_bind_Ok in H as [Hst H]. apply Z.eqb_eq in Hst.
  apply bind_Ok in H as (c1 & _ & H).
  apply bind_Ok in H as ([] & _ & H). simpl in H.
  apply bind_Ok in H as (tbl & Htbl & H).
  apply bind_Ok in H as (total & Htotal & H).
  apply u64_add_Ok in Htotal as [Hfit ->].
  injection H as <- <- <- <-.
  unfold table.add in Htbl.
  destruct (market.positions m !! sender ctx); [discriminate|].
  injection Htbl as <-. auto.
Qed.

Lemma whitelist_measurement_Ok (registry registry' : attestation.MeasurementRegistry)
    (m : list byte) (descr : string) (clock : Clock) (ctx : TxContext) :
  attestation.whitelist_measurement registry m descr clock ctx = Ok registry' →
  attestation.admin registry = sender ctx
  ∧ length m = 32%nat
  ∧ attestation.measurements registry !! m = None
  ∧ registry'
    = {| attestation.id := attestation.id registry;
         attestation.measurements :=
           <[m := {| attestation.description := descr;
                     attestation.added_at := timestamp_ms clock;
                     attestation.active := true |}]>
             (attestation.measurements registry);
         attestation.admin := attestation.admin registry |}.
Proof.
  unfold attestation.whitelist_measurement. intros H.
  apply assert_bind_Ok in H as [Hadm H]. apply bool_decide_eq_true in Hadm.
  apply assert_bind_Ok in H as [Hlen H]. apply Z.eqb_eq in Hlen.
  apply bind_Ok in H as (tbl & Htbl & [= <-]).
  unfold table.add in Htbl.
  destruct (attestation.measurements registry !! m); [discriminate|].
  injection Htbl as <-. repeat split; [done|lia].
Qed.

Lemma revoke_measurement_Ok (registry registry' : attestation.MeasurementRegistry)
    (m : list byte) (ctx : TxContext) :
  attestation.revoke_measurement registry m ctx = Ok registry' →
  attestation.admin registry = sender ctx
  ∧ ∃ info,
      attestation.measurements registry !! m = Some info
      ∧ registry'
        = {| attestation.id := attestation.id registry;
             attestation.measurements :=
               <[m := {| attestation.description := attestation.description info;
                         attestation.added_at := attestation.added_at info;
                         attestation.active := false |}]>
                 (attestation.measurements registry);
             attestation.admin := attestation.admin registry |}.
Proof.
  unfold attestation.revoke_measurement. intros H.
  apply assert_bind_Ok in H as [Hadm H]. apply bool_decide_eq_true in Hadm.
  apply bind_Ok in H as (info & Hinfo & [= <-]).
  unfold table.borrow in Hinfo.
  destruct (attestation.measurements registry !! m) as [i|] eqn:Hm; [|discriminate].
  injection Hinfo as ->. split; [done|]. by exists info.
Qed.

Lemma update_admin_Ok (registry registry' : attestation.MeasurementRegistry)
    (new_admin : address) (ctx : TxContext) :
  attestation.update_admin registry new_admin ctx = Ok registry' →
  attestation.admin registry = sender ctx
  ∧ registry'
    = {| attestation.id := attestation.id registry;
         attestation.measurements := attestation.measurements registry;
         attestation.admin := new_admin |}.
Proof.
  unfold attestation.update_admin. intros H.
  apply assert_bind_Ok in H as [Hadm H]. apply bool_decide_eq_true in Hadm.
  by injection H as <-.
Qed.

Lemma update_protocol_fee_Ok (registry registry' : claim_registry.ClaimRegistry)
    (fee : Z) (ctx : TxContext) :
  claim_registry.update_protocol_fee registry fee ctx = Ok registry' →
  claim_registry.protocol_fee_recipient registry = sender ctx
  ∧ registry'
    = {| claim_registry.registry_id := claim_registry.registry_id registry;
         claim_registry.total_claims := claim_registry.total_claims registry;
         claim_registry.protocol_fee_recipient :=
           claim_registry.protocol_fee_recipient registry;
         claim_registry.default_protocol_fee_bps := fee |}.
Proof.
  unfold claim_registry.update_protocol_fee. intros H.
  apply assert_bind_Ok in H as [Hadm H]. apply bool_decide_eq_true in Hadm.
  by injection H as <-.
Qed.

Lemma update_fee_recipient_Ok (registry registry' : claim_registry.ClaimRegistry)
    (recipient : address) (ctx : TxContext) :
  claim_registry.update_fee_recipient registry recipient ctx = Ok registry' →
  claim_registry.protocol_fee_recipient registry = sender ctx
  ∧ registry'
    = {| claim_registry.registry_id := claim_registry.registry_id registry;
         claim_registry.total_claims := claim_registry.total_claims registry;
         claim_registry.protocol_fee_recipient := recipient;
         claim_registry.default_protocol_fee_bps :=
           claim_registry.default_protocol_fee_bps registry |}.
Proof.
  unfold claim_registry.update_fee_recipient. intros H.
  apply assert_bind_Ok in H as [Hadm H]. apply bool_decide_eq_true in Hadm.
  by injection H as <-.
Qed.

(** ** The second invariant *)

Lemma resolution_inv_same (reg : attestation.MeasurementRegistry)
    (c c' : claim_registry.Claim) :
  claim_registry.created_at c' = claim_registry.created_at c →
  claim_registry.deadline c' = claim_registry.deadline c →
  claim_registry.status c' = claim_registry.status c →
  claim_registry.resolved_at c' = claim_registry.resolved_at c →
  claim_registry.resolver_measurement c' = claim_registry.resolver_measurement c →
  claim_registry.result_blob_id c' = claim_registry.result_blob_id c →
  resolution_inv reg c → resolution_inv reg c'.
Proof.
  intros H1 H2 H3 H4 H5 H6 [Hd Hr Hu]. constructor.
  - by rewrite H1, H2.
  - rewrite H2, H3, H4, H5, H6. exact Hr.
  - rewrite H3, H4, H5, H6. exact Hu.
Qed.

Lemma resolution_inv_grow (reg reg' : attestation.MeasurementRegistry)
    (c : claim_registry.Claim) :
  (∀ m, is_Some (attestation.measurements reg !! m) →
        is_Some (attestation.measurements reg' !! m)) →
  resolution_inv reg c → resolution_inv reg' c.
Proof.
  intros Hgrow [Hd Hr Hu]. constructor; try done.
  intros Hst. destruct (Hr Hst) as (t & m & blob & ? & ? & ? & ? & ? & ?).
  exists t, m, blob. auto 10.
Qed.

Lemma market_inv_positions (ps ps' : gmap ID market.Position) (k : ID)
    (m : market.MarketState) :
  (∀ pid p, ps !! pid = Some p →
            ∃ p', ps' !! pid = Some p' ∧ market.user p' = market.user p) →
  market_inv ps k m → market_inv ps' k m.
Proof.
  intros Hkeep [Hk Hc He]. constructor; try done.
  intros u pid Hu. destruct (He u pid Hu) as (p & Hp & Husr).
  destruct (Hkeep pid p Hp) as (p' & Hp' & Husr'). exists p'. split; [done|].
  congruence.
Qed.

Lemma genesis_book (publisher0 : address) : book_inv (genesis publisher0).
Proof.
  unfold genesis. simpl. constructor; simpl.
  - intros k c. by rewrite lookup_empty.
  - intros m info. by rewrite lookup_empty.
  - intros k m. by rewrite lookup_empty.
  - intros k p. by rewrite lookup_empty.
  - by rewrite map_size_empty.
  - intros k _. by rewrite !lookup_empty.
Qed.

Lemma run_preserves_book (w w' : World) (tx : Tx) :
  tx_wf tx → world_inv w → book_inv w → run w tx = Ok w' → book_inv w'.
Proof.
  intros [Hnow Hwf] Hinv [Hbc Hbm Hbk Hbp Hcount Hfresh] Hrun.
  destruct tx as [s now call]. unfold run in Hrun. simpl in *.
  unfold world_inv in Hinv.
  destruct call; simpl in *.
  - (* create_claim *)
    apply bind_Ok in Hrun as ([[reg c] ctx'] & Hc & [= <-]).
    apply create_claim_Ok in Hc as (Hdl & Ht & -> & -> & ->). simpl.
    destruct (inv_fresh _ _ _ _ Hinv (next_id w)) as [Hnone _]; [lia|].
    constructor; simpl.
    + intros k c. destruct (decide (next_id w = k)) as [<-|Hne].
      * rewrite lookup_insert_eq. intros [= <-].
        constructor; simpl; [done|discriminate|done].
      * rewrite lookup_insert_ne by done. apply Hbc.
    + exact Hbm.
    + exact Hbk.
    + exact Hbp.
    + rewrite map_size_insert_None by done. rewrite Hcount. lia.
    + intros k Hk. apply Hfresh. lia.
  - (* create_market *)
    injection Hrun as <-. simpl. constructor; simpl; try done.
    + intros k m. destruct (decide (next_id w = k)) as [<-|Hne].
      * rewrite lookup_insert_eq. intros [= <-].
        constructor; simpl; [done|by rewrite map_size_empty|].
        intros u pid. by rewrite lookup_empty.
      * rewrite lookup_insert_ne by done. apply Hbk.
    + intros k Hk. destruct (Hfresh k) as [Hm Hp]; [lia|].
      rewrite lookup_insert_ne by lia. done.
  - (* stake *)
    apply bind_Ok in Hrun as (c & Hc & Hrun). apply fetch_Ok in Hc.
    apply bind_Ok in Hrun as (m & Hm & Hrun). apply fetch_Ok in Hm.
    apply bind_Ok in Hrun as ([[[c' m'] p] ctx'] & Hst & [= <-]).
    pose proof (stake_Ok_market _ _ _ _ _ _ _ _ _ Hst) as (Hopen & Hfit & Hm').
    apply stake_Ok in Hst as (Hpos & Hadd & Hfree & _ & -> & ->).
    pose proof (inv_claims _ _ _ _ Hinv _ _ Hc) as Hci.
    destruct (claim_inv_add_stake _ _ _ _ _ _ Hci (Z.lt_le_incl _ _ Hpos) Hadd)
      as (Hci' & _).
    pose proof (Hbk _ _ Hm) as [Hmk Hmc Hme].
    destruct (Hfresh (next_id w)) as [Hmnone Hpnone]; [lia|].
    apply add_stake_Ok in Hadd as (_ & _ & _ & Hc').
    subst m'.
    cbv [close_ctx put_position put_market put_claim pay put_claim_reg put_measurement_reg].
    simpl. rewrite (inv_key _ _ _ Hci'), Hmk.
    constructor; simpl.
    + intros k c0. destruct (decide (claim_obj = k)) as [<-|Hne].
      * rewrite lookup_insert_eq. intros [= <-].
        apply (resolution_inv_same _ c); [..|by eapply Hbc];
          subst c'; by destruct is_yes.
      * rewrite lookup_insert_ne by done. apply Hbc.
    + exact Hbm.
    + intros k m0. destruct (decide (market_obj = k)) as [<-|Hne].
      * rewrite lookup_insert_eq. intros [= <-].
        constructor; simpl; [done| |].
        -- rewrite map_size_insert_None by done. lia.
        -- intros u pid. destruct (decide (s = u)) as [<-|Hu].
           ++ rewrite lookup_insert_eq. intros [= <-].
              eexists. rewrite lookup_insert_eq. split; reflexivity.
           ++ rewrite lookup_insert_ne by done. intros Hu'.
              destruct (Hme u pid Hu') as (p0 & Hp0 & Husr).
              exists p0. split; [|done]. rewrite lookup_insert_ne; [done|].
              intros <-. rewrite Hpnone in Hp0. discriminate.
      * rewrite lookup_insert_ne by done. intros Hm0.
        eapply market_inv_positions; [|by eapply Hbk].
        intros pid p0 Hp0. exists p0. split; [|done].
        rewrite lookup_insert_ne; [done|].
        intros <-. rewrite Hpnone in Hp0. discriminate.
    + intros k p0. destruct (decide (next_id w = k)) as [<-|Hne].
      * rewrite lookup_insert_eq. intros [= <-].
        constructor; simpl; [done|]. destruct is_yes; [right|left]; done.
      * rewrite lookup_insert_ne by done. apply Hbp.
    + rewrite map_size_insert_Some by (rewrite Hc; eauto). done.
    + intros k Hk. destruct (Hfresh k) as [Hm0 Hp0]; [lia|].
      rewrite !lookup_insert_ne; [done|lia|].
      intros <-. rewrite Hm0 in Hm. discriminate.
  - (* claim_winnings *)
    apply bind_Ok in Hrun as (c & Hc & Hrun). apply fetch_Ok in Hc.
    apply bind_Ok in Hrun as (p & Hp & Hrun). apply fetch_Ok in Hp.
    apply bind_Ok in Hrun as ([[[c' p'] payout] ctx'] & Hcw & [= <-]).
    apply claim_winnings_Ok in Hcw
      as (Hst & _ & _ & won & _ & Hu & Hpay & Hle & -> & -> & ->). simpl.
    pose proof (inv_claims _ _ _ _ Hinv _ _ Hc) as Hci.
    pose proof (Hbp _ _ Hp) as [Hpk Hside].
    cbv [close_ctx put_position put_market put_claim pay put_claim_reg put_measurement_reg].
    simpl. rewrite (inv_key _ _ _ Hci), Hpk.
    constructor; simpl.
    + intros k c0. destruct (decide (claim_obj = k)) as [<-|Hne].
      * rewrite lookup_insert_eq. intros [= <-].
        apply (resolution_inv_same _ c); [done..|by eapply Hbc].
      * rewrite lookup_insert_ne by done. apply Hbc.
    + exact Hbm.
    + intros k m0 Hm0. eapply market_inv_positions; [|by eapply Hbk].
      intros pid p0 Hp0. destruct (decide (position_obj = pid)) as [<-|Hne].
      * rewrite lookup_insert_eq. eexists. split; [reflexivity|].
        simpl. congruence.
      * rewrite lookup_insert_ne by done. eauto.
    + intros k p0. destruct (decide (position_obj = k)) as [<-|Hne].
      * rewrite lookup_insert_eq. intros [= <-]. constructor; simpl; done.
      * rewrite lookup_insert_ne by done. apply Hbp.
    + rewrite map_size_insert_Some by (rewrite Hc; eauto). done.
    + intros k Hk. destruct (Hfresh k) as [Hm0 Hp0]; [lia|].
      split; [done|]. rewrite lookup_insert_ne; [done|].
      intros <-. rewrite Hp0 in Hp. discriminate.
  - (* claim_refund *)
    apply bind_Ok in Hrun as (c & Hc & Hrun). apply fetch_Ok in Hc.
    apply bind_Ok in Hrun as (p & Hp & Hrun).
    apply bind_Ok in Hrun as ([[[c' p'] refund] ctx'] & Hcr & _).
    apply claim_refund_Ok in Hcr as (Hst & _ & _ & _ & Hpos & Hle).
    pose proof (inv_claims _ _ _ _ Hinv _ _ Hc) as Hci.
    destruct (claim_inv_cancelled_empty _ _ _ Hci Hst). lia.
  - (* cancel_claim *)
    apply bind_Ok in Hrun as (c & Hc & Hrun). apply fetch_Ok in Hc.
    apply bind_Ok in Hrun as (c' & Hcc & [= <-]).
    apply cancel_claim_Ok in Hcc as ((_ & Hst & Hy & Hn) & ->). simpl.
    pose proof (inv_claims _ _ _ _ Hinv _ _ Hc) as Hci.
    cbv [close_ctx put_position put_market put_claim pay put_claim_reg put_measurement_reg].
    simpl. rewrite (inv_key _ _ _ Hci).
    constructor; simpl; try done.
    + intros k c0. destruct (decide (claim_obj = k)) as [<-|Hne].
      * rewrite lookup_insert_eq. intros [= <-].
        destruct (Hbc _ _ Hc) as [Hd Hr Hu]. constructor; simpl; [done|discriminate|].
        intros _. apply Hu. rewrite Hst. discriminate.
      * rewrite lookup_insert_ne by done. apply Hbc.
    + rewrite map_size_insert_Some by (rewrite Hc; eauto). done.
  - (* submit_attested_resolution *)
    apply bind_Ok in Hrun as (c & Hc & Hrun). apply fetch_Ok in Hc.
    apply bind_Ok in Hrun as (c' & Hs & [= <-]).
    apply submit_attested_resolution_Ok in Hs as (m & Hwl & Hdl & _ & ->). simpl.
    pose proof (inv_claims _ _ _ _ Hinv _ _ Hc) as Hci.
    cbv [close_ctx put_position put_market put_claim pay put_claim_reg put_measurement_reg].
    simpl. rewrite (inv_key _ _ _ Hci).
    constructor; simpl; try done.
    + intros k c0. destruct (decide (claim_obj = k)) as [<-|Hne].
      * rewrite lookup_insert_eq. intros [= <-].
        destruct (Hbc _ _ Hc) as [Hd Hr Hu]. constructor; simpl; [done| |done].
        intros _. unfold attestation.is_measurement_whitelisted in Hwl.
        destruct (attestation.measurements (measurement_reg w) !! m) as [info|] eqn:Hm;
          [|discriminate].
        exists now, m, blob. repeat split; eauto.
      * rewrite lookup_insert_ne by done. apply Hbc.
    + rewrite map_size_insert_Some by (rewrite Hc; eauto). done.
  - (* whitelist_measurement *)
    apply bind_Ok in Hrun as (r & Hr & [= <-]).
    apply whitelist_measurement_Ok in Hr as (_ & Hlen & Hnone & ->). simpl.
    constructor; simpl; try done.
    + intros k c Hc. eapply resolution_inv_grow; [|by eapply Hbc]. simpl.
      intros m [i Hi]. destruct (decide (measurement = m)) as [<-|Hne].
      * rewrite lookup_insert_eq. eauto.
      * rewrite lookup_insert_ne by done. eauto.
    + intros m info. destruct (decide (measurement = m)) as [<-|Hne].
      * by rewrite lookup_insert_eq.
      * rewrite lookup_insert_ne by done. apply Hbm.
  - (* revoke_measurement *)
    apply bind_Ok in Hrun as (r & Hr & [= <-]).
    apply revoke_measurement_Ok in Hr as (_ & info & Hinfo & ->). simpl.
    constructor; simpl; try done.
    + intros k c Hc. eapply resolution_inv_grow; [|by eapply Hbc]. simpl.
      intros m [i Hi]. destruct (decide (measurement = m)) as [<-|Hne].
      * rewrite lookup_insert_eq. eauto.
      * rewrite lookup_insert_ne by done. eauto.
    + intros m info0. destruct (decide (measurement = m)) as [<-|Hne].
      * intros _. by apply (Hbm _ _ Hinfo).
      * rewrite lookup_insert_ne by done. apply Hbm.
  - (* update_admin *)
    apply bind_Ok in Hrun as (r & Hr & [= <-]).
    apply update_admin_Ok in Hr as (_ & ->). simpl.
    constructor; simpl; try done.
    intros k c Hc. eapply resolution_inv_grow; [|by eapply Hbc]. done.
  - (* update_protocol_fee *)
    apply bind_Ok in Hrun as (r & Hr & [= <-]).
    apply update_protocol_fee_Ok in Hr as (_ & ->). simpl.
    constructor; simpl; done.
  - (* update_fee_recipient *)
    apply bind_Ok in Hrun as (r & Hr & [= <-]).
    apply update_fee_recipient_Ok in Hr as (_ & ->). simpl.
    constructor; simpl; done.
Qed.

Lemma reachable_book (publisher0 : address) (w : World) :
  reachable publisher0 w → book_inv w.
Proof.
  induction 1 as [|w tx Hreach IH Hwf].
  - apply genesis_book.
  - unfold step. destruct (run w tx) as [w'|e] eqn:Hrun; [|done].
    eapply run_preserves_book; eauto. by eapply reachable_inv.
Qed.

(** ** Who may change what *)

(** Taking a successful transaction apart: every bind, then every tuple. *)
Ltac run_inv H :=
  repeat (let x := fresh "x" in
          let Hx := fresh "Hx" in
          apply bind_Ok in H as (x & Hx & H));
  repeat match goal with x : (_ * _)%type |- _ => destruct x end;
  simpl in H; injection H as <-.

Lemma run_measurement_reg (w w' : World) (tx : Tx) :
  run w tx = Ok w' →
  measurement_reg w' = measurement_reg w
  ∨ tx_sender tx = attestation.admin (measurement_reg w).
Proof.
  intros Hrun. destruct tx as [s now call]. unfold run in Hrun. simpl in *.
  destruct call; simpl in *;
    try (left; run_inv Hrun; reflexivity).
  - right. apply bind_Ok in Hrun as (r & Hr & _).
    by apply whitelist_measurement_Ok in Hr as (-> & _).
  - right. apply bind_Ok in Hrun as (r & Hr & _).
    by apply revoke_measurement_Ok in Hr as (-> & _).
  - right. apply bind_Ok in Hrun as (r & Hr & _).
    by apply update_admin_Ok in Hr as (-> & _).
Qed.

Lemma run_claim_reg (w w' : World) (tx : Tx) :
  run w tx = Ok w' →
  (claim_registry.default_protocol_fee_bps (claim_reg w')
   = claim_registry.default_protocol_fee_bps (claim_reg w)
   ∧ claim_registry.protocol_fee_recipient (claim_reg w')
     = claim_registry.protocol_fee_recipient (claim_reg w))
  ∨ tx_sender tx = claim_registry.protocol_fee_recipient (claim_reg w).
Proof.
  intros Hrun. destruct tx as [s now call]. unfold run in Hrun. simpl in *.
  destruct call; simpl in *;
    try (left; run_inv Hrun; split; reflexivity).
  - left. apply bind_Ok in Hrun as ([[reg c] ctx'] & Hc & [= <-]).
    apply create_claim_Ok in Hc as (_ & _ & -> & _). split; reflexivity.
  - right. apply bind_Ok in Hrun as (r & Hr & _).
    by apply update_protocol_fee_Ok in Hr as (-> & _).
  - right. apply bind_Ok in Hrun as (r & Hr & _).
    by apply update_fee_recipient_Ok in Hr as (-> & _).
Qed.

(** X4: a transaction that is not signed by the administrator leaves
    the measurement registry as it is, whatever it calls. *)
Theorem measurement_registry_admin_only (w : World) (tx : Tx) :
  tx_sender tx ≠ attestation.admin (measurement_reg w) →
  measurement_reg (step w tx) = measurement_reg w.
Proof.
  intros Hne. unfold step. destruct (run w tx) as [w'|e] eqn:Hrun; [|done].
  by destruct (run_measurement_reg _ _ _ Hrun).
Qed.

(** X5: a transaction that is not signed by the protocol fee recipient
    leaves the default protocol fee and the recipient as they are. *)
Theorem fee_settings_recipient_only (w : World) (tx : Tx) :
  tx_sender tx ≠ claim_registry.protocol_fee_recipient (claim_reg w) →
  claim_registry.default_protocol_fee_bps (claim_reg (step w tx))
  = claim_registry.default_protocol_fee_bps (claim_reg w)
  ∧ claim_registry.protocol_fee_recipient (claim_reg (step w tx))
    = claim_registry.protocol_fee_recipient (claim_reg w).
Proof.
  intros Hne. unfold step. destruct (run w tx) as [w'|e] eqn:Hrun; [|done].
  by destruct (run_claim_reg _ _ _ Hrun).
Qed.

(** ** Where the funds go *)

Lemma run_paid (w w' : World) (tx : Tx) :
  world_inv w → run w tx = Ok w' →
  paid w' = paid w
  ∨ ∃ kc kp c p amount,
      tx_call tx = ClaimWinnings kc kp
      ∧ claims w !! kc = Some c
      ∧ positions w !! kp = Some p
      ∧ claim_registry.status c = claim_registry.STATUS_RESOLVED
      ∧ market.user p = tx_sender tx
      ∧ market.claimed p = false
      ∧ 0 < amount <= claim_registry.escrow c
      ∧ paid w' = (kc, tx_sender tx, amount) :: paid w.
Proof.
  intros Hinv Hrun. destruct tx as [s now call]. unfold run in Hrun. simpl in *.
  destruct call; simpl in *;
    try (left; run_inv Hrun; reflexivity).
  - (* claim_winnings *)
    right.
    apply bind_Ok in Hrun as (c & Hc & Hrun). apply fetch_Ok in Hc.
    apply bind_Ok in Hrun as (p & Hp & Hrun). apply fetch_Ok in Hp.
    apply bind_Ok in Hrun as ([[[c' p'] payout] ctx'] & Hcw & [= <-]).
    apply claim_winnings_Ok in Hcw
      as (Hst & Hcl & Husr & won & _ & Hu & Hpay & Hle & -> & -> & ->).
    pose proof (payout_amount_pos _ _ _ _ Hu Hpay) as Hpos.
    pose proof (inv_claims _ _ _ _ Hinv _ _ Hc) as Hci.
    exists claim_obj, position_obj, c, p, payout. simpl.
    rewrite (inv_key _ _ _ Hci), Husr. auto 10.
  - (* claim_refund *)
    exfalso.
    apply bind_Ok in Hrun as (c & Hc & Hrun). apply fetch_Ok in Hc.
    apply bind_Ok in Hrun as (p & Hp & Hrun).
    apply bind_Ok in Hrun as ([[[c' p'] refund] ctx'] & Hcr & _).
    apply claim_refund_Ok in Hcr as (Hst & _ & _ & _ & Hpos & Hle).
    pose proof (inv_claims _ _ _ _ Hinv _ _ Hc) as Hci.
    destruct (claim_inv_cancelled_empty _ _ _ Hci Hst). lia.
Qed.

(** X6: in a reachable ledger a transaction pays nothing out, or it is
    a [claim_winnings] on a resolved claim with an unclaimed position of the
    signer, and pays one positive amount, within the escrow of that claim,
    to the signer. *)
Theorem payouts_go_to_position_user (publisher0 : address) (w : World) (tx : Tx) :
  reachable publisher0 w →
  paid (step w tx) = paid w
  ∨ ∃ kc kp c p amount,
      tx_call tx = ClaimWinnings kc kp
      ∧ claims w !! kc = Some c
      ∧ positions w !! kp = Some p
      ∧ claim_registry.status c = claim_registry.STATUS_RESOLVED
      ∧ market.user p = tx_sender tx
      ∧ market.claimed p = false
      ∧ 0 < amount <= claim_registry.escrow c
      ∧ paid (step w tx) = (kc, tx_sender tx, amount) :: paid w.
Proof.
  intros Hreach. apply reachable_inv in Hreach. unfold step.
  destruct (run w tx) as [w'|e] eqn:Hrun; [|by left].
  by apply run_paid.
Qed.

(** ** Histories of claims, positions and whitelist entries *)

Lemma claim_evolves_refl (c : claim_registry.Claim) : claim_evolves c c.
Proof. constructor; try done; try lia; by left. Qed.

Lemma claim_evolves_trans (c1 c2 c3 : claim_registry.Claim) :
  claim_evolves c1 c2 → claim_evolves c2 c3 → claim_evolves c1 c3.
Proof.
  intros [a1 a2 a3 a4 a5 a6 a7 a8 a9 Hs1 Hy1 Hn1 Hf1]
         [b1 b2 b3 b4 b5 b6 b7 b8 b9 Hs2 Hy2 Hn2 Hf2].
  constructor; try congruence; try lia.
  - intros Hno. destruct (Hf1 Hno) as (Hs & Hy & Hn & Hr & Hb & Hm & Ht & He).
    assert (Hno' : claim_registry.status c2 ≠ claim_registry.STATUS_OPEN)
      by congruence.
    destruct (Hf2 Hno') as (Hs' & Hy' & Hn' & Hr' & Hb' & Hm' & Ht' & He').
    repeat split; try congruence; lia.
Qed.

Lemma run_claim (w w' : World) (tx : Tx) (k : ID) (c : claim_registry.Claim) :
  tx_wf tx → world_inv w → run w tx = Ok w' → claims w !! k = Some c →
  ∃ c', claims w' !! k = Some c' ∧ claim_evolves c c'
        ∧ (claim_of_call (tx_call tx) ≠ Some k → c' = c).
Proof.
  intros [Hnow Hwf] Hinv Hrun Hk. destruct tx as [s now call].
  unfold run in Hrun. simpl in *.
  pose proof (inv_claims _ _ _ _ Hinv _ _ Hk) as Hck.
  assert (Hsame : ∀ w0, claims w0 = claims w →
            ∃ c', claims w0 !! k = Some c' ∧ claim_evolves c c'
                  ∧ (claim_of_call call ≠ Some k → c' = c)).
  { intros w0 ->. exists c. split; [done|]. split; [apply claim_evolves_refl|done]. }
  assert (Hput : ∀ kc c0 c0' (ws : gmap ID claim_registry.Claim),
            claims w !! kc = Some c0 → claim_evolves c0 c0' →
            claim_of_call call = Some kc →
            ws = <[kc := c0']> (claims w) →
            ∃ c', ws !! k = Some c' ∧ claim_evolves c c'
                  ∧ (claim_of_call call ≠ Some k → c' = c)).
  { intros kc c0 c0' ws Hc0 Hev Hcall ->.
    destruct (decide (kc = k)) as [->|Hne].
    - rewrite lookup_insert_eq. exists c0'. split; [done|].
      assert (c0 = c) as -> by congruence. split; [done|]. congruence.
    - rewrite lookup_insert_ne by done. exists c. split; [done|].
      split; [apply claim_evolves_refl|done]. }
  destruct call; simpl in *;
    try (apply Hsame; run_inv Hrun; reflexivity).
  - (* create_claim *)
    apply bind_Ok in Hrun as ([[reg c0] ctx'] & Hc & [= <-]).
    apply create_claim_Ok in Hc as (_ & _ & -> & -> & ->). simpl.
    destruct (inv_fresh _ _ _ _ Hinv (next_id w)) as [Hnone _]; [lia|].
    rewrite lookup_insert_ne by (intros <-; rewrite Hnone in Hk; discriminate).
    exists c. split; [done|]. split; [apply claim_evolves_refl|done].
  - (* stake *)
    apply bind_Ok in Hrun as (c0 & Hc & Hrun). apply fetch_Ok in Hc.
    apply bind_Ok in Hrun as (m & Hm & Hrun).
    apply bind_Ok in Hrun as ([[[c' m'] p] ctx'] & Hst & [= <-]).
    apply stake_Ok in Hst as (Hpos & Hadd & _).
    pose proof (inv_claims _ _ _ _ Hinv _ _ Hc) as Hci.
    destruct (claim_inv_add_stake _ _ _ _ _ _ Hci (Z.lt_le_incl _ _ Hpos) Hadd)
      as (Hci' & Hy & Hn & _).
    apply add_stake_Ok in Hadd as (Hopen & _ & _ & Hc').
    eapply (Hput claim_obj c0 c'); [done| |done|].
    + subst c'. destruct is_yes; constructor; simpl in *; try done; try lia;
        try (by left); intros Hno; by rewrite Hopen in Hno.
    + simpl. by rewrite (inv_key _ _ _ Hci').
  - (* claim_winnings *)
    apply bind_Ok in Hrun as (c0 & Hc & Hrun). apply fetch_Ok in Hc.
    apply bind_Ok in Hrun as (p & Hp & Hrun).
    apply bind_Ok in Hrun as ([[[c' p'] payout] ctx'] & Hcw & [= <-]).
    apply claim_winnings_Ok in Hcw
      as (Hst & _ & _ & won & _ & Hu & Hpay & Hle & -> & -> & ->).
    pose proof (payout_amount_pos _ _ _ _ Hu Hpay) as Hpos.
    pose proof (inv_claims _ _ _ _ Hinv _ _ Hc) as Hci.
    eapply (Hput claim_obj c0
              (claim_registry.set_escrow c0 (claim_registry.escrow c0 - payout)));
      [done| |done|].
    + constructor; simpl; try done; try lia; try (by left).
      all: try (intros _; repeat split; try done; lia).
    + simpl. by rewrite (inv_key _ _ _ Hci).
  - (* claim_refund *)
    exfalso.
    apply bind_Ok in Hrun as (c0 & Hc & Hrun). apply fetch_Ok in Hc.
    apply bind_Ok in Hrun as (p & Hp & Hrun).
    apply bind_Ok in Hrun as ([[[c' p'] refund] ctx'] & Hcr & _).
    apply claim_refund_Ok in Hcr as (Hst & _ & _ & _ & Hpos & Hle).
    pose proof (inv_claims _ _ _ _ Hinv _ _ Hc) as Hci.
    destruct (claim_inv_cancelled_empty _ _ _ Hci Hst). lia.
  - (* cancel_claim *)
    apply bind_Ok in Hrun as (c0 & Hc & Hrun). apply fetch_Ok in Hc.
    apply bind_Ok in Hrun as (c' & Hcc & [= <-]).
    apply cancel_claim_Ok in Hcc as ((_ & Hst & Hy & Hn) & ->).
    pose proof (inv_claims _ _ _ _ Hinv _ _ Hc) as Hci.
    eapply (Hput claim_obj c0
              (claim_registry.set_status c0 claim_registry.STATUS_CANCELLED));
      [done| |done|].
    + constructor; simpl; try done; try lia.
      all: try (right; split; [done|]; by right).
      all: try (intros Hno; by rewrite Hst in Hno).
    + simpl. by rewrite (inv_key _ _ _ Hci).
  - (* submit_attested_resolution *)
    apply bind_Ok in Hrun as (c0 & Hc & Hrun). apply fetch_Ok in Hc.
    apply bind_Ok in Hrun as (c' & Hs & [= <-]).
    apply submit_attested_resolution_Ok in Hs as (m & _ & _ & Hst & ->).
    pose proof (inv_claims _ _ _ _ Hinv _ _ Hc) as Hci.
    assert (Hopen : claim_registry.status c0 = claim_registry.STATUS_OPEN).
    { destruct Hst as [Ho|Hr]; [done|].
      destruct (inv_status _ _ _ Hci) as [Hs|[Hs|Hs]];
        rewrite Hr in Hs; discriminate. }
    eapply (Hput claim_obj c0
              (claim_registry.set_resolution c0 res blob m now));
      [done| |done|].
    + constructor; simpl; try done; try lia.
      all: try (right; split; [done|]; by left).
      all: try (intros Hno; by rewrite Hopen in Hno).
    + simpl. by rewrite (inv_key _ _ _ Hci).
Qed.

Lemma position_evolves_refl (p : market.Position) : position_evolves p p.
Proof. by constructor. Qed.

Lemma position_evolves_trans (p1 p2 p3 : market.Position) :
  position_evolves p1 p2 → position_evolves p2 p3 → position_evolves p1 p3.
Proof.
  intros [a1 a2 a3 a4 a5 a6] [b1 b2 b3 b4 b5 b6].
  constructor; try congruence. auto.
Qed.

Lemma run_position (w w' : World) (tx : Tx) (k : ID) (p : market.Position) :
  world_inv w → book_inv w → run w tx = Ok w' → positions w !! k = Some p →
  ∃ p', positions w' !! k = Some p' ∧ position_evolves p p'
        ∧ (position_of_call (tx_call tx) ≠ Some k → p' = p).
Proof.
  intros Hinv Hbook Hrun Hk. destruct tx as [s now call].
  unfold run in Hrun. simpl in *.
  assert (Hsame : ∀ w0, positions w0 = positions w →
            ∃ p', positions w0 !! k = Some p' ∧ position_evolves p p'
                  ∧ (position_of_call call ≠ Some k → p' = p)).
  { intros w0 ->. exists p. split; [done|].
    split; [apply position_evolves_refl|done]. }
  destruct call; simpl in *;
    try (apply Hsame; run_inv Hrun; reflexivity).
  - (* stake *)
    apply bind_Ok in Hrun as (c0 & Hc & Hrun).
    apply bind_Ok in Hrun as (m & Hm & Hrun).
    apply bind_Ok in Hrun as ([[[c' m'] p0] ctx'] & Hst & [= <-]).
    apply stake_Ok in Hst as (_ & _ & _ & _ & -> & _). simpl.
    destruct (book_fresh _ Hbook (next_id w)) as [_ Hnone]; [lia|].
    rewrite lookup_insert_ne by (intros <-; rewrite Hnone in Hk; discriminate).
    exists p. split; [done|]. split; [apply position_evolves_refl|done].
  - (* claim_winnings *)
    apply bind_Ok in Hrun as (c0 & Hc & Hrun).
    apply bind_Ok in Hrun as (p0 & Hp & Hrun). apply fetch_Ok in Hp.
    apply bind_Ok in Hrun as ([[[c' p'] payout] ctx'] & Hcw & [= <-]).
    apply claim_winnings_Ok in Hcw as (_ & _ & _ & won & _ & _ & _ & _ & _ & -> & _).
    simpl. rewrite (pos_key _ _ (book_positions _ Hbook _ _ Hp)).
    destruct (decide (position_obj = k)) as [->|Hne].
    + rewrite lookup_insert_eq. eexists. split; [reflexivity|].
      assert (p0 = p) as -> by congruence.
      split; [by constructor|congruence].
    + rewrite lookup_insert_ne by done. exists p. split; [done|].
      split; [apply position_evolves_refl|done].
  - (* claim_refund *)
    exfalso.
    apply bind_Ok in Hrun as (c0 & Hc & Hrun). apply fetch_Ok in Hc.
    apply bind_Ok in Hrun as (p0 & Hp & Hrun).
    apply bind_Ok in Hrun as ([[[c' p'] refund] ctx'] & Hcr & _).
    apply claim_refund_Ok in Hcr as (Hst & _ & _ & _ & Hpos & Hle).
    pose proof (inv_claims _ _ _ _ Hinv _ _ Hc) as Hci.
    destruct (claim_inv_cancelled_empty _ _ _ Hci Hst). lia.
Qed.

Lemma run_market (w w' : World) (tx : Tx) (k : ID) (m : market.MarketState) :
  book_inv w → run w tx = Ok w' → markets w !! k = Some m →
  market_of_call (tx_call tx) ≠ Some k → markets w' !! k = Some m.
Proof.
  intros Hbook Hrun Hk Hcall. destruct tx as [s now call].
  unfold run in Hrun. simpl in *.
  destruct call; simpl in *;
    try (run_inv Hrun; exact Hk).
  - (* create_market *)
    injection Hrun as <-. simpl.
    destruct (book_fresh _ Hbook (next_id w)) as [Hnone _]; [lia|].
    rewrite lookup_insert_ne; [done|]. intros <-. rewrite Hnone in Hk. discriminate.
  - (* stake *)
    apply bind_Ok in Hrun as (c0 & Hc & Hrun).
    apply bind_Ok in Hrun as (m0 & Hm & Hrun). apply fetch_Ok in Hm.
    apply bind_Ok in Hrun as ([[[c' m'] p0] ctx'] & Hst & [= <-]).
    apply stake_Ok_market in Hst as (_ & _ & ->). simpl.
    rewrite (mkt_key _ _ _ (book_markets _ Hbook _ _ Hm)).
    rewrite lookup_insert_ne; [done|]. congruence.
Qed.

Lemma entry_evolves_refl (i : attestation.MeasurementInfo) : entry_evolves i i.
Proof. by constructor. Qed.

Lemma entry_evolves_trans (i1 i2 i3 : attestation.MeasurementInfo) :
  entry_evolves i1 i2 → entry_evolves i2 i3 → entry_evolves i1 i3.
Proof.
  intros [a1 a2 a3] [b1 b2 b3]. constructor; try congruence. auto.
Qed.

Lemma run_entry (w w' : World) (tx : Tx) (m : list byte)
    (i : attestation.MeasurementInfo) :
  run w tx = Ok w' →
  attestation.measurements (measurement_reg w) !! m = Some i →
  ∃ i', attestation.measurements (measurement_reg w') !! m = Some i'
        ∧ entry_evolves i i'.
Proof.
  intros Hrun Hm. destruct tx as [s now call]. unfold run in Hrun. simpl in *.
  assert (Hsame : ∀ w0, measurement_reg w0 = measurement_reg w →
            ∃ i', attestation.measurements (measurement_reg w0) !! m = Some i'
                  ∧ entry_evolves i i').
  { intros w0 ->. exists i. split; [done|apply entry_evolves_refl]. }
  destruct call; simpl in *;
    try (apply Hsame; run_inv Hrun; reflexivity).
  - (* whitelist_measurement *)
    apply bind_Ok in Hrun as (r & Hr & [= <-]).
    apply whitelist_measurement_Ok in Hr as (_ & _ & Hnone & ->). simpl.
    rewrite lookup_insert_ne by (intros <-; rewrite Hnone in Hm; discriminate).
    exists i. split; [done|apply entry_evolves_refl].
  - (* revoke_measurement *)
    apply bind_Ok in Hrun as (r & Hr & [= <-]).
    apply revoke_measurement_Ok in Hr as (_ & info & Hinfo & ->). simpl.
    destruct (decide (measurement = m)) as [->|Hne].
    + rewrite lookup_insert_eq. eexists. split; [reflexivity|].
      assert (info = i) as -> by congruence. by constructor.
    + rewrite lookup_insert_ne by done. exists i.
      split; [done|apply entry_evolves_refl].
  - (* update_admin *)
    apply bind_Ok in Hrun as (r & Hr & [= <-]).
    apply update_admin_Ok in Hr as (_ & ->). simpl.
    exists i. split; [done|apply entry_evolves_refl].
Qed.

(** X7: over any sequence of transactions from a reachable ledger a
    claim stays in the ledger with its id, creator, blobs, description,
    deadline, fees and creation time; its status stays or moves from open to
    resolved or cancelled; its stake totals never decrease; and once it is
    not open, its status, totals and resolution record are fixed and its
    escrow never grows. *)
Theorem claim_history (publisher0 : address) (w : World) (txs : list Tx)
    (k : ID) (c : claim_registry.Claim) :
  reachable publisher0 w → Forall tx_wf txs → claims w !! k = Some c →
  ∃ c', claims (run_all w txs) !! k = Some c' ∧ claim_evolves c c'.
Proof.
  intros Hreach Hwf. revert w c Hreach.
  induction Hwf as [|tx txs Htx _ IH]; intros w c Hreach Hk.
  - exists c. split; [done|apply claim_evolves_refl].
  - assert (Hstep : ∃ c1, claims (step w tx) !! k = Some c1 ∧ claim_evolves c c1).
    { unfold step. destruct (run w tx) as [w'|e] eqn:Hrun.
      - destruct (run_claim w w' tx k c Htx (reachable_inv _ _ Hreach) Hrun Hk)
          as (c1 & ? & ? & _). eauto.
      - exists c. split; [done|apply claim_evolves_refl]. }
    destruct Hstep as (c1 & Hk1 & Hev1).
    destruct (IH (step w tx) c1 (reach_step _ _ _ Hreach Htx) Hk1) as (c' & Hk' & Hev').
    exists c'. split; [exact Hk'|]. eapply claim_evolves_trans; eauto.
Qed.

(** X8: over any sequence of transactions from a reachable ledger a
    position stays in the ledger with its id, claim, user and amounts, and
    once claimed it stays claimed. *)
Theorem position_history (publisher0 : address) (w : World) (txs : list Tx)
    (k : ID) (p : market.Position) :
  reachable publisher0 w → Forall tx_wf txs → positions w !! k = Some p →
  ∃ p', positions (run_all w txs) !! k = Some p' ∧ position_evolves p p'.
Proof.
  intros Hreach Hwf. revert w p Hreach.
  induction Hwf as [|tx txs Htx _ IH]; intros w p Hreach Hk.
  - exists p. split; [done|apply position_evolves_refl].
  - assert (Hstep : ∃ p1, positions (step w tx) !! k = Some p1
                          ∧ position_evolves p p1).
    { unfold step. destruct (run w tx) as [w'|e] eqn:Hrun.
      - destruct (run_position w w' tx k p (reachable_inv _ _ Hreach)
                    (reachable_book _ _ Hreach) Hrun Hk) as (p1 & ? & ? & _).
        eauto.
      - exists p. split; [done|apply position_evolves_refl]. }
    destruct Hstep as (p1 & Hk1 & Hev1).
    destruct (IH (step w tx) p1 (reach_step _ _ _ Hreach Htx) Hk1) as (p' & Hk' & Hev').
    exists p'. split; [exact Hk'|]. eapply position_evolves_trans; eauto.
Qed.

(** X9: over any sequence of transactions an entry of the measurement
    whitelist stays in the table with its description and date, and an
    entry that is not active never becomes active again. *)
Theorem whitelist_history (w : World) (txs : list Tx) (m : list byte)
    (i : attestation.MeasurementInfo) :
  attestation.measurements (measurement_reg w) !! m = Some i →
  ∃ i', attestation.measurements (measurement_reg (run_all w txs)) !! m = Some i'
        ∧ entry_evolves i i'.
Proof.
  revert w i. induction txs as [|tx txs IH]; intros w i Hm.
  - exists i. split; [done|apply entry_evolves_refl].
  - assert (Hstep : ∃ i1, attestation.measurements (measurement_reg (step w tx)) !! m
                          = Some i1 ∧ entry_evolves i i1).
    { unfold step. destruct (run w tx) as [w'|e] eqn:Hrun.
      - eapply run_entry; eauto.
      - exists i. split; [done|apply entry_evolves_refl]. }
    destruct Hstep as (i1 & Hm1 & Hev1).
    destruct (IH (step w tx) i1 Hm1) as (i' & Hm' & Hev').
    exists i'. split; [exact Hm'|]. eapply entry_evolves_trans; eauto.
Qed.

(** X10: a transaction on a reachable ledger leaves every claim,
    position and market other than the ones it names as they are. *)
Theorem untouched_objects (publisher0 : address) (w : World) (tx : Tx) :
  reachable publisher0 w → tx_wf tx →
  (∀ k c, claims w !! k = Some c →
          claim_of_call (tx_call tx) ≠ Some k →
          claims (step w tx) !! k = Some c)
  ∧ (∀ k p, positions w !! k = Some p →
            position_of_call (tx_call tx) ≠ Some k →
            positions (step w tx) !! k = Some p)
  ∧ (∀ k m, markets w !! k = Some m →
            market_of_call (tx_call tx) ≠ Some k →
            markets (step w tx) !! k = Some m).
Proof.
  intros Hreach Hwf.
  pose proof (reachable_inv _ _ Hreach) as Hinv.
  pose proof (reachable_book _ _ Hreach) as Hbook.
  unfold step. destruct (run w tx) as [w'|e] eqn:Hrun; [|done].
  split; [|split].
  - intros k c Hk Hcall.
    destruct (run_claim w w' tx k c Hwf Hinv Hrun Hk) as (c' & Hk' & _ & Hsame).
    by rewrite Hk', (Hsame Hcall).
  - intros k p Hk Hcall.
    destruct (run_position w w' tx k p Hinv Hbook Hrun Hk) as (p' & Hk' & _ & Hsame).
    by rewrite Hk', (Hsame Hcall).
  - intros k m Hk Hcall. eapply run_market; eauto.
Qed.

(** ** What every reachable state records *)

(** X11: in a reachable ledger a claim is stored under its own id, was
    created before its deadline, and is open, resolved or cancelled: the
    status RESOLVING is never taken. *)
Theorem claim_dates_and_status (publisher0 : address) (w : World) (k : ID)
    (c : claim_registry.Claim) :
  reachable publisher0 w → claims w !! k = Some c →
  claim_registry.id c = k
  ∧ claim_registry.created_at c < claim_registry.deadline c
  ∧ (claim_registry.status c = claim_registry.STATUS_OPEN
     ∨ claim_registry.status c = claim_registry.STATUS_RESOLVED
     ∨ claim_registry.status c = claim_registry.STATUS_CANCELLED)
  ∧ claim_registry.status c ≠ claim_registry.STATUS_RESOLVING.
Proof.
  intros Hreach Hk.
  pose proof (inv_claims _ _ _ _ (reachable_inv _ _ Hreach) _ _ Hk) as Hci.
  pose proof (book_claims _ (reachable_book _ _ Hreach) _ _ Hk) as Hri.
  split; [apply (inv_key _ _ _ Hci)|]. split; [apply (res_deadline _ _ Hri)|].
  pose proof (inv_status _ _ _ Hci) as Hst. split; [exact Hst|].
  intros Hr. destruct Hst as [Hs|[Hs|Hs]]; rewrite Hr in Hs; discriminate.
Qed.

(** X12: in a reachable ledger a resolved claim carries a result, a
    resolution time not before its deadline, a result blob and a resolver
    measurement of 32 bytes that has an entry in the whitelist; a claim that
    is not resolved carries none of the four. *)
Theorem resolution_record (publisher0 : address) (w : World) (k : ID)
    (c : claim_registry.Claim) :
  reachable publisher0 w → claims w !! k = Some c →
  (claim_registry.status c = claim_registry.STATUS_RESOLVED →
   ∃ r t m info blob,
     claim_registry.result c = Some r
     ∧ claim_registry.resolved_at c = Some t
     ∧ claim_registry.deadline c <= t
     ∧ claim_registry.resolver_measurement c = Some m
     ∧ length m = 32%nat
     ∧ attestation.measurements (measurement_reg w) !! m = Some info
     ∧ claim_registry.result_blob_id c = Some blob)
  ∧ (claim_registry.status c ≠ claim_registry.STATUS_RESOLVED →
     claim_registry.result c = None
     ∧ claim_registry.resolved_at c = None
     ∧ claim_registry.resolver_measurement c = None
     ∧ claim_registry.result_blob_id c = None).
Proof.
  intros Hreach Hk.
  pose proof (inv_claims _ _ _ _ (reachable_inv _ _ Hreach) _ _ Hk) as Hci.
  pose proof (book_claims _ (reachable_book _ _ Hreach) _ _ Hk) as Hri.
  split.
  - intros Hst. destruct (res_resolved _ _ Hri Hst)
      as (t & m & blob & Ht & Hdl & Hm & Hlen & [info Hinfo] & Hblob).
    destruct (proj2 (inv_result _ _ _ Hci) Hst) as [r Hr].
    exists r, t, m, info, blob. auto 10.
  - intros Hst. destruct (res_unresolved _ _ Hri Hst) as (? & ? & ?).
    split; [|done].
    destruct (claim_registry.result c) as [r|] eqn:Hr; [|done].
    exfalso. apply Hst. apply (inv_result _ _ _ Hci). rewrite Hr. eauto.
Qed.

(** X13: in a reachable ledger [total_claims] of the registry is the
    number of claims. *)
Theorem total_claims_counts (publisher0 : address) (w : World) :
  reachable publisher0 w →
  claim_registry.total_claims (claim_reg w) = Z.of_nat (size (claims w)).
Proof. intros Hreach. apply (book_count _ (reachable_book _ _ Hreach)). Qed.

(** X14: in a reachable ledger a market is stored under its own id,
    its [total_positions] is the number of entries of its table, and every
    entry maps a user to a position of the ledger that belongs to that user
    and is stored under the id the table gives. *)
Theorem market_tables_consistent (publisher0 : address) (w : World) (k : ID)
    (m : market.MarketState) :
  reachable publisher0 w → markets w !! k = Some m →
  market.market_id m = k
  ∧ market.total_positions m = Z.of_nat (size (market.positions m))
  ∧ ∀ (u : address) (pid : ID),
      market.positions m !! u = Some pid →
      ∃ p, positions w !! pid = Some p ∧ market.user p = u ∧ market.id p = pid.
Proof.
  intros Hreach Hk. pose proof (reachable_book _ _ Hreach) as Hbook.
  destruct (book_markets _ Hbook _ _ Hk) as [Hkey Hcount Hentries].
  split; [done|]. split; [done|].
  intros u pid Hu. destruct (Hentries u pid Hu) as (p & Hp & Husr).
  exists p. split; [done|]. split; [done|].
  apply (pos_key _ _ (book_positions _ Hbook _ _ Hp)).
Qed.

(** X15: in a reachable ledger a position is stored under its own id,
    holds a positive amount on exactly one side, and the claim it names is
    in the ledger with stake totals at least the amounts of the position. *)
Theorem position_records (publisher0 : address) (w : World) (k : ID)
    (p : market.Position) :
  reachable publisher0 w → positions w !! k = Some p →
  market.id p = k
  ∧ ((market.yes_amount p = 0 ∧ 0 < market.no_amount p)
     ∨ (market.no_amount p = 0 ∧ 0 < market.yes_amount p))
  ∧ ∃ c, claims w !! market.claim_id p = Some c
         ∧ market.yes_amount p <= claim_registry.yes_stake c
         ∧ market.no_amount p <= claim_registry.no_stake c.
Proof.
  intros Hreach Hk.
  destruct (book_positions _ (reachable_book _ _ Hreach) _ _ Hk) as [Hkey Hside].
  split; [done|]. split; [done|].
  apply (inv_backed _ _ (inv_positions _ _ _ _ (reachable_inv _ _ Hreach) _ _ Hk)).
Qed.

(** X16: in a reachable ledger every key of the measurement whitelist
    has 32 bytes. *)
Theorem whitelist_keys_are_measurements (publisher0 : address) (w : World)
    (m : list byte) (info : attestation.MeasurementInfo) :
  reachable publisher0 w →
  attestation.measurements (measurement_reg w) !! m = Some info →
  length m = 32%nat.
Proof.
  intros Hreach Hm.
  apply (book_measurements _ (reachable_book _ _ Hreach) _ _ Hm).
Qed.

(** ** Shapes of the payout *)

Lemma share_bounds (u W : Z) :
  0 <= u → 0 < W →
  0 <= spec_user_share_bps u W ∧ spec_user_share_bps u W * W <= u * 10000.
Proof.
  intros Hu HW. unfold spec_user_share_bps. split.
  - apply Z.div_pos; lia.
  - pose proof (Z.mul_div_le (u * 10000) W HW). lia.
Qed.

Lemma winnings_bounds (L s : Z) :
  0 <= L → 0 <= s →
  0 <= spec_winnings_from_losers L s
  ∧ 10000 * spec_winnings_from_losers L s <= L * s.
Proof.
  intros HL Hs. unfold spec_winnings_from_losers. split.
  - apply Z.div_pos; [apply Z.mul_nonneg_nonneg|]; lia.
  - apply Z.mul_div_le. lia.
Qed.

Lemma fees_bounds (wfl f : Z) : 0 <= wfl → 0 <= f → 0 <= spec_fees wfl f.
Proof.
  intros Hw Hf. unfold spec_fees. apply Z.div_pos; [apply Z.mul_nonneg_nonneg|]; lia.
Qed.

(** X17: the payout for a winning stake [u], when it is computed, is at
    least [u], at most [u] plus the share of the losing side in proportion
    to [u], and at most [u] plus the whole losing side. *)
Theorem payout_bounds (c : claim_registry.Claim) (won : bool) (u r : Z) :
  0 < u → u <= winning_total won c →
  0 <= losing_total won c → 0 <= total_fee_bps c →
  market.payout_amount c won u = Ok r →
  u <= r
  ∧ r <= u + losing_total won c * u / winning_total won c
  ∧ r <= u + losing_total won c.
Proof.
  intros Hu HuW HL Hf Hpay. apply payout_amount_Ok in Hpay.
  destruct Hpay as (_ & _ & _ & HW & _ & _ & Hfees & _ & ->).
  set (W := winning_total won c) in *. set (L := losing_total won c) in *.
  assert (HWpos : 0 < W) by lia.
  destruct (share_bounds u W ltac:(lia) HWpos) as [Hs0 Hs1].
  destruct (winnings_bounds L _ HL Hs0) as [Hw0 Hw1].
  pose proof (fees_bounds _ _ Hw0 Hf) as Hf0.
  unfold spec_total_payout.
  set (s := spec_user_share_bps u W) in *.
  set (wfl := spec_winnings_from_losers L s) in *.
  set (fees := spec_fees wfl (total_fee_bps c)) in *.
  assert (Hpro : wfl <= L * u / W).
  { apply Z.div_le_lower_bound; [done|]. nia. }
  assert (Hcap : L * u / W <= L).
  { apply Z.div_le_upper_bound; [done|]. nia. }
  lia.
Qed.

(** X18: a position that holds the whole winning side is paid both
    sides less the fees on the losing side; with no fees, both sides. *)
Theorem sole_winner_payout (c : claim_registry.Claim) (won : bool) (r : Z) :
  0 < winning_total won c →
  market.payout_amount c won (winning_total won c) = Ok r →
  r = winning_total won c + losing_total won c
      - spec_fees (losing_total won c) (total_fee_bps c)
  ∧ (total_fee_bps c = 0 →
     r = claim_registry.yes_stake c + claim_registry.no_stake c).
Proof.
  intros HW Hpay. apply payout_amount_Ok in Hpay.
  destruct Hpay as (_ & _ & _ & _ & _ & _ & _ & _ & ->).
  unfold spec_total_payout.
  assert (Hs : spec_user_share_bps (winning_total won c) (winning_total won c) = 10000).
  { unfold spec_user_share_bps. rewrite Z.mul_comm. apply Z.div_mul. lia. }
  rewrite Hs.
  assert (Hw : spec_winnings_from_losers (losing_total won c) 10000
               = losing_total won c).
  { unfold spec_winnings_from_losers. apply Z.div_mul. lia. }
  rewrite Hw. split; [lia|].
  intros Hzero. rewrite Hzero. unfold spec_fees.
  rewrite Z.mul_0_r, Z.div_0_l by lia.
  unfold winning_total, losing_total. destruct won; lia.
Qed.

(** X19: a stake below one basis point of the winning side rounds to a
    share of zero and is paid back as it is, whatever the losing side. *)
Theorem dust_stake_payout (c : claim_registry.Claim) (won : bool) (u r : Z) :
  0 <= u → u * 10000 < winning_total won c →
  market.payout_amount c won u = Ok r → r = u.
Proof.
  intros Hu Hdust Hpay. apply payout_amount_Ok in Hpay.
  destruct Hpay as (_ & _ & _ & _ & _ & _ & _ & _ & ->).
  unfold spec_total_payout.
  assert (Hs : spec_user_share_bps u (winning_total won c) = 0).
  { unfold spec_user_share_bps. apply Z.div_small. lia. }
  rewrite Hs. unfold spec_winnings_from_losers, spec_fees.
  rewrite Z.mul_0_r, Z.div_0_l, Z.mul_0_l, Z.div_0_l by lia. lia.
Qed.

Lemma net_winnings_monotone (w1 w2 f : Z) :
  0 <= w1 <= w2 → 0 <= f <= 10000 →
  w1 - spec_fees w1 f <= w2 - spec_fees w2 f.
Proof.
  intros Hw Hf. unfold spec_fees.
  pose proof (Z.mul_div_le (w1 * f) 10000 ltac:(lia)).
  pose proof (Z.mul_div_le (w2 * f) 10000 ltac:(lia)).
  pose proof (Z.mod_pos_bound (w1 * f) 10000 ltac:(lia)).
  pose proof (Z.div_mod (w1 * f) 10000 ltac:(lia)).
  nia.
Qed.

(** X20: with fees of at most 10000 basis points, a larger stake on the
    winning side is paid at least as much, and earns at least as much on
    top of the stake. *)
Theorem payout_monotone (c : claim_registry.Claim) (won : bool) (u1 u2 r1 r2 : Z) :
  0 <= u1 <= u2 → 0 <= winning_total won c → 0 <= losing_total won c →
  0 <= total_fee_bps c <= 10000 →
  market.payout_amount c won u1 = Ok r1 →
  market.payout_amount c won u2 = Ok r2 →
  r1 <= r2 ∧ r1 - u1 <= r2 - u2.
Proof.
  intros Hu HW0 HL Hf H1 H2.
  apply payout_amount_Ok in H1. apply payout_amount_Ok in H2.
  destruct H1 as (_ & _ & _ & HW & _ & _ & _ & _ & ->).
  destruct H2 as (_ & _ & _ & _ & _ & _ & _ & _ & ->).
  unfold spec_total_payout.
  set (W := winning_total won c) in *. set (L := losing_total won c) in *.
  assert (HWpos : 0 < W) by lia.
  assert (Hgoal : spec_winnings_from_losers L (spec_user_share_bps u1 W)
                  - spec_fees (spec_winnings_from_losers L (spec_user_share_bps u1 W))
                      (total_fee_bps c)
                  <= spec_winnings_from_losers L (spec_user_share_bps u2 W)
                     - spec_fees (spec_winnings_from_losers L (spec_user_share_bps u2 W))
                         (total_fee_bps c)); [|lia].
  destruct (share_bounds u1 W ltac:(lia) HWpos) as [Hs0 _].
  assert (Hs : spec_user_share_bps u1 W <= spec_user_share_bps u2 W).
  { unfold spec_user_share_bps. apply Z.div_le_mono; lia. }
  destruct (winnings_bounds L _ HL Hs0) as [Hw0 _].
  apply net_winnings_monotone; [|done]. split; [done|].
  unfold spec_winnings_from_losers. apply Z.div_le_mono; [lia|]. nia.
Qed.

(** ** Administration of the whitelist *)

(** X21: [revoke_measurement] aborts with [EUnauthorized] for a signer
    who is not the administrator, and in the table for a measurement that
    has no entry; otherwise it succeeds, keeps the entry and every other
    entry, leaves the measurement not whitelisted, and revoking once more
    changes nothing. *)
Theorem revoke_measurement_decision (registry : attestation.MeasurementRegistry)
    (m : list byte) (ctx : TxContext) :
  (attestation.admin registry ≠ sender ctx →
   attestation.revoke_measurement registry m ctx
   = Abort (attestation.err attestation.EUnauthorized))
  ∧ (attestation.admin registry = sender ctx →
     attestation.measurements registry !! m = None →
     attestation.revoke_measurement registry m ctx
     = Abort (MoveAbort InDynamicField table.EFieldDoesNotExist))
  ∧ (attestation.admin registry = sender ctx →
     is_Some (attestation.measurements registry !! m) →
     ∃ registry',
       attestation.revoke_measurement registry m ctx = Ok registry'
       ∧ attestation.is_measurement_whitelisted registry' m = false
       ∧ is_Some (attestation.measurements registry' !! m)
       ∧ attestation.admin registry' = attestation.admin registry
       ∧ (∀ m', m' ≠ m →
            attestation.measurements registry' !! m'
            = attestation.measurements registry !! m')
       ∧ attestation.revoke_measurement registry' m ctx = Ok registry').
Proof.
  unfold attestation.revoke_measurement. split; [|split].
  - intros Hne. by rewrite bool_decide_eq_false_2.
  - intros Hadm Hnone. rewrite bool_decide_eq_true_2 by done. simpl.
    unfold table.borrow. by rewrite Hnone.
  - intros Hadm [info Hinfo]. rewrite bool_decide_eq_true_2 by done. simpl.
    unfold table.borrow. rewrite Hinfo. simpl. eexists. split; [reflexivity|].
    unfold attestation.is_measurement_whitelisted. simpl.
    rewrite lookup_insert_eq. simpl.
    split; [done|]. split; [eauto|]. split; [done|]. split.
    + intros m' Hne. by rewrite lookup_insert_ne.
    + rewrite bool_decide_eq_true_2 by done. simpl.
      by rewrite insert_insert_eq.
Qed.

(** X22: after [update_admin], which only the administrator can call,
    the new administrator is the address given, the whitelist is as before,
    every administrative call signed by anyone else, the former
    administrator included, aborts with [EUnauthorized], and the new
    administrator can hand over again. *)
Theorem admin_handover (registry registry' : attestation.MeasurementRegistry)
    (new_admin : address) (ctx : TxContext) :
  attestation.update_admin registry new_admin ctx = Ok registry' →
  attestation.admin registry = sender ctx
  ∧ attestation.admin registry' = new_admin
  ∧ attestation.measurements registry' = attestation.measurements registry
  ∧ (∀ ctx' m descr clock a,
       sender ctx' ≠ new_admin →
       attestation.whitelist_measurement registry' m descr clock ctx'
       = Abort (attestation.err attestation.EUnauthorized)
       ∧ attestation.revoke_measurement registry' m ctx'
         = Abort (attestation.err attestation.EUnauthorized)
       ∧ attestation.update_admin registry' a ctx'
         = Abort (attestation.err attestation.EUnauthorized))
  ∧ (∀ ctx' a,
       sender ctx' = new_admin →
       is_ok (attestation.update_admin registry' a ctx') = true).
Proof.
  intros H. apply update_admin_Ok in H as (Hadm & ->). simpl.
  split; [done|]. split; [done|]. split; [done|]. split.
  - intros ctx' m descr clock a Hne.
    unfold attestation.whitelist_measurement, attestation.revoke_measurement,
      attestation.update_admin. simpl.
    rewrite bool_decide_eq_false_2 by congruence. done.
  - intros ctx' a Heq. unfold attestation.update_admin. simpl.
    by rewrite bool_decide_eq_true_2.
Qed.

(** ** Administration of the fees *)

(** X23: a claim created after [update_protocol_fee] carries the new
    protocol fee and the creator fee it was given, and the registry has
    counted it. *)
Theorem protocol_fee_applies_to_new_claims
    (registry registry1 registry2 : claim_registry.ClaimRegistry) (fee : Z)
    (ctx ctx1 ctx2 : TxContext) (spec_blob evidence_blob descr : string)
    (deadline_ms fee_bps : Z) (clock : Clock) (c : claim_registry.Claim) :
  claim_registry.update_protocol_fee registry fee ctx = Ok registry1 →
  claim_registry.create_claim registry1 spec_blob evidence_blob descr
    deadline_ms fee_bps clock ctx1 = Ok (registry2, c, ctx2) →
  claim_registry.protocol_fee_recipient registry = sender ctx
  ∧ claim_registry.protocol_fee_bps c = fee
  ∧ claim_registry.creator_fee_bps c = fee_bps
  ∧ claim_registry.default_protocol_fee_bps registry2 = fee
  ∧ claim_registry.total_claims registry2
    = claim_registry.total_claims registry + 1.
Proof.
  intros Hfee Hcreate.
  apply update_protocol_fee_Ok in Hfee as (Hrec & ->).
  apply create_claim_Ok in Hcreate as (_ & _ & -> & _ & ->). simpl. auto.
Qed.

(** X24: after [update_fee_recipient], which only the recipient can
    call, the recipient is the address given, the default fee and the count
    are as before, the fee calls signed by anyone else abort with
    [EUnauthorized], and the new recipient can set the fee. *)
Theorem fee_recipient_handover (registry registry' : claim_registry.ClaimRegistry)
    (recipient : address) (ctx : TxContext) :
  claim_registry.update_fee_recipient registry recipient ctx = Ok registry' →
  claim_registry.protocol_fee_recipient registry = sender ctx
  ∧ claim_registry.protocol_fee_recipient registry' = recipient
  ∧ claim_registry.default_protocol_fee_bps registry'
    = claim_registry.default_protocol_fee_bps registry
  ∧ claim_registry.total_claims registry' = claim_registry.total_claims registry
  ∧ (∀ ctx' fee a,
       sender ctx' ≠ recipient →
       claim_registry.update_protocol_fee registry' fee ctx'
       = Abort (claim_registry.err claim_registry.EUnauthorized)
       ∧ claim_registry.update_fee_recipient registry' a ctx'
         = Abort (claim_registry.err claim_registry.EUnauthorized))
  ∧ (∀ ctx' fee,
       sender ctx' = recipient →
       ∃ registry'',
         claim_registry.update_protocol_fee registry' fee ctx' = Ok registry''
         ∧ claim_registry.default_protocol_fee_bps registry'' = fee).
Proof.
  intros H. apply update_fee_recipient_Ok in H as (Hrec & ->). simpl.
  split; [done|]. split; [done|]. split; [done|]. split; [done|]. split.
  - intros ctx' fee a Hne.
    unfold claim_registry.update_protocol_fee, claim_registry.update_fee_recipient.
    simpl. rewrite bool_decide_eq_false_2 by congruence. done.
  - intros ctx' fee Heq. unfold claim_registry.update_protocol_fee. simpl.
    rewrite bool_decide_eq_true_2 by done. simpl. eauto.
Qed.

(** ** Attested resolution, in full *)

Lemma read_measurement_long (att : list byte) :
  (32 <= length att)%nat → attestation.read_measurement att = Ok (take 32 att).
Proof.
  intros Hlen. rewrite <- (take_drop 32 att) at 1.
  apply read_measurement_prefix. rewrite length_take. lia.
Qed.

(** X25: [submit_attested_resolution] aborts with
    [EInvalidAttestation] on an attestation of fewer than 32 bytes, with
    [EMeasurementNotWhitelisted] when the first 32 bytes are not an active
    entry of the whitelist, and otherwise does what [resolve_claim] does
    with these 32 bytes; bytes after the first 32, and the signer, have no
    effect. *)
Theorem submit_attested_resolution_decision
    (registry : attestation.MeasurementRegistry) (claim : claim_registry.Claim)
    (res : bool) (blob : string) (att : list byte) (clock : Clock)
    (ctx : TxContext) :
  let out :=
    attestation.submit_attested_resolution registry claim res blob att clock ctx in
  ((length att < 32)%nat →
   out = Abort (attestation.err attestation.EInvalidAttestation))
  ∧ ((32 <= length att)%nat →
     attestation.is_measurement_whitelisted registry (take 32 att) = false →
     out = Abort (attestation.err attestation.EMeasurementNotWhitelisted))
  ∧ ((32 <= length att)%nat →
     attestation.is_measurement_whitelisted registry (take 32 att) = true →
     out = claim_registry.resolve_claim claim res blob (take 32 att) clock)
  ∧ (∀ att' ctx',
       (32 <= length att)%nat → (32 <= length att')%nat →
       take 32 att' = take 32 att →
       attestation.submit_attested_resolution registry claim res blob att'
         clock ctx' = out).
Proof.
  intros out.
  assert (Hlong : ∀ a cx, (32 <= length a)%nat →
    attestation.submit_attested_resolution registry claim res blob a clock cx
    = if attestation.is_measurement_whitelisted registry (take 32 a)
      then claim_registry.resolve_claim claim res blob (take 32 a) clock
      else Abort (attestation.err attestation.EMeasurementNotWhitelisted)).
  { intros a cx Hlen. unfold attestation.submit_attested_resolution.
    assert (Hge : (32 <=? Z.of_nat (length a)) = true) by (apply Z.leb_le; lia).
    rewrite Hge, read_measurement_long by done. simpl.
    unfold table.contains, table.borrow,
      attestation.is_measurement_whitelisted.
    destruct (attestation.measurements registry !! take 32 a) as [info|] eqn:Hm.
    - rewrite bool_decide_eq_true_2 by eauto. simpl.
      by destruct (attestation.active info).
    - rewrite bool_decide_eq_false_2; [done|]. by intros [? ?]. }
  subst out. split; [|split; [|split]].
  - intros Hlen. unfold attestation.submit_attested_resolution.
    assert (Hlt : (32 <=? Z.of_nat (length att)) = false) by (apply Z.leb_gt; lia).
    by rewrite Hlt.
  - intros Hlen Hwl. by rewrite Hlong, Hwl.
  - intros Hlen Hwl. by rewrite Hlong, Hwl.
  - intros att' ctx' Hlen Hlen' Htake. by rewrite !Hlong, Htake.
Qed.

(** ** Staking and claiming, in full *)

Lemma stake_is_ok (c : claim_registry.Claim) (m : market.MarketState)
    (payment : Z) (is_yes : bool) (ctx : TxContext) :
  0 < payment →
  claim_registry.status c = claim_registry.STATUS_OPEN →
  claim_registry.escrow c + payment <= MAX_U64 →
  (if is_yes then claim_registry.yes_stake c else claim_registry.no_stake c)
  + payment <= MAX_U64 →
  market.positions m !! sender ctx = None →
  market.total_positions m + 1 <= MAX_U64 →
  is_ok (market.stake c m payment is_yes ctx) = true.
Proof.
  intros Hpos Hopen Hesc Hside Hfree Htotal.
  assert (Hadd : ∃ c', claim_registry.add_stake c payment is_yes = Ok c').
  { eexists. apply add_stake_Ok. repeat split; done. }
  destruct Hadd as [c' Hadd].
  unfold market.stake, coin.value, claim_registry.get_status.
  apply Z.ltb_lt in Hpos. rewrite Hpos, Hopen, Hadd. simpl.
  unfold table.contains, table.add.
  rewrite bool_decide_eq_false_2 by (rewrite Hfree; by intros [? ?]).
  simpl. rewrite Hfree. simpl. by rewrite u64_add_fits.
Qed.

(** X26: [stake] aborts with [EInvalidAmount] on an empty payment and
    with [EInvalidClaim] on a claim that is not open; when it succeeds, the
    escrow and the total of the chosen side have grown by the payment, the
    position is the signer's, on this claim, one-sided and unclaimed, and
    the table of the market, which had no entry for the signer, maps the
    signer to it; it succeeds when the sums fit in 64 bits and the signer
    has no entry; it never aborts with [EInvalidStatus] of the registry. *)
Theorem stake_decision (c : claim_registry.Claim) (m : market.MarketState)
    (payment : Z) (is_yes : bool) (ctx : TxContext) :
  let out := market.stake c m payment is_yes ctx in
  (payment <= 0 → out = Abort (market.err market.EInvalidAmount))
  ∧ (0 < payment →
     claim_registry.status c ≠ claim_registry.STATUS_OPEN →
     out = Abort (market.err market.EInvalidClaim))
  ∧ (∀ c' m' p ctx',
       out = Ok (c', m', p, ctx') →
       0 < payment
       ∧ claim_registry.status c = claim_registry.STATUS_OPEN
       ∧ claim_registry.status c' = claim_registry.STATUS_OPEN
       ∧ claim_registry.escrow c' = claim_registry.escrow c + payment
       ∧ claim_registry.yes_stake c'
         = claim_registry.yes_stake c + (if is_yes then payment else 0)
       ∧ claim_registry.no_stake c'
         = claim_registry.no_stake c + (if is_yes then 0 else payment)
       ∧ market.user p = sender ctx
       ∧ market.claim_id p = claim_registry.id c
       ∧ market.yes_amount p = (if is_yes then payment else 0)
       ∧ market.no_amount p = (if is_yes then 0 else payment)
       ∧ market.claimed p = false
       ∧ market.positions m !! sender ctx = None
       ∧ market.positions m' !! sender ctx = Some (market.id p)
       ∧ market.total_positions m' = market.total_positions m + 1)
  ∧ (0 < payment →
     claim_registry.status c = claim_registry.STATUS_OPEN →
     claim_registry.escrow c + payment <= MAX_U64 →
     (if is_yes then claim_registry.yes_stake c else claim_registry.no_stake c)
     + payment <= MAX_U64 →
     market.positions m !! sender ctx = None →
     market.total_positions m + 1 <= MAX_U64 →
     is_ok out = true)
  ∧ out ≠ Abort (claim_registry.err claim_registry.EInvalidStatus).
Proof.
  intros out. subst out. split; [|split; [|split; [|split]]].
  - intros Hle. unfold market.stake, coin.value.
    assert (Hz : (0 <? payment) = false) by (apply Z.ltb_ge; lia).
    by rewrite Hz.
  - intros Hpos Hst. unfold market.stake, coin.value, claim_registry.get_status.
    apply Z.ltb_lt in Hpos. rewrite Hpos. simpl.
    assert (Hz : (claim_registry.status c =? 0) = false) by (by apply Z.eqb_neq).
    by rewrite Hz.
  - intros c' m' p ctx' Hrun.
    pose proof (stake_Ok_market _ _ _ _ _ _ _ _ _ Hrun) as (Hopen & _ & ->).
    apply stake_Ok in Hrun as (Hpos & Hadd & Hfree & _ & -> & _).
    apply add_stake_Ok in Hadd as (_ & _ & _ & ->). simpl.
    rewrite lookup_insert_eq.
    destruct is_yes; simpl; repeat split; try done; lia.
  - apply stake_is_ok.
  - intros Habs.
    unfold market.stake, coin.value, claim_registry.get_status in Habs.
    destruct (0 <? payment); [|discriminate]. simpl in Habs.
    destruct (Z.eqb_spec (claim_registry.status c) 0) as [Hopen|]; [|discriminate].
    simpl in Habs.
    unfold claim_registry.add_stake, coin.put, coin.value, balance.join in Habs.
    rewrite Hopen in Habs. simpl in Habs.
    unfold u64_add, table.contains, table.borrow, table.add in Habs.
    repeat (case_match; simpl in Habs; try discriminate).
Qed.

(** X27: [claim_winnings] aborts with [EClaimNotResolved] on a claim
    that is not resolved, then with [EInvalidClaim] for a signer who is not
    the user of the unclaimed position, then with [ENoWinnings] for a
    position with nothing on the winning side; it aborts with no other code
    of its own than these and [EAlreadyClaimed], and else on an escrow too
    small or in the arithmetic. *)
Theorem claim_winnings_refusals (c : claim_registry.Claim) (p : market.Position)
    (ctx : TxContext) :
  let out := market.claim_winnings c p ctx in
  (claim_registry.status c ≠ claim_registry.STATUS_RESOLVED →
   out = Abort (market.err market.EClaimNotResolved))
  ∧ (claim_registry.status c = claim_registry.STATUS_RESOLVED →
     market.claimed p = false →
     market.user p ≠ sender ctx →
     out = Abort (market.err market.EInvalidClaim))
  ∧ (claim_registry.status c = claim_registry.STATUS_RESOLVED →
     market.claimed p = false →
     market.user p = sender ctx →
     claim_registry.result c = None →
     out = Abort (market.err market.EClaimNotResolved))
  ∧ (∀ won,
       claim_registry.status c = claim_registry.STATUS_RESOLVED →
       market.claimed p = false →
       market.user p = sender ctx →
       claim_registry.result c = Some won →
       user_stake_of won p <= 0 →
       out = Abort (market.err market.ENoWinnings))
  ∧ (∀ e,
       out = Abort e →
       e = market.err market.EClaimNotResolved
       ∨ e = market.err market.EAlreadyClaimed
       ∨ e = market.err market.EInvalidClaim
       ∨ e = market.err market.ENoWinnings
       ∨ e = MoveAbort InBalance balance.ENotEnough
       ∨ ∃ f, e = ArithmeticError f).
Proof.
  intros out. subst out.
  unfold market.claim_winnings, claim_registry.is_resolved,
    claim_registry.get_result.
  split; [|split; [|split; [|split]]].
  - intros Hst.
    assert (Hz : (claim_registry.status c =? claim_registry.STATUS_RESOLVED) = false)
      by (by apply Z.eqb_neq).
    by rewrite Hz.
  - intros -> -> Hne. simpl. by rewrite bool_decide_eq_false_2.
  - intros -> -> Heq ->. simpl. by rewrite bool_decide_eq_true_2.
  - intros won -> -> Heq -> Hle. simpl. rewrite bool_decide_eq_true_2 by done.
    simpl. fold (user_stake_of won p).
    assert (Hz : (0 <? user_stake_of won p) = false) by (apply Z.ltb_ge; lia).
    by rewrite Hz.
  - intros e Habs.
    destruct (claim_registry.status c =? claim_registry.STATUS_RESOLVED);
      simpl in Habs; [|injection Habs as <-; auto].
    destruct (market.claimed p); simpl in Habs; [injection Habs as <-; auto|].
    destruct (bool_decide (market.user p = sender ctx)); simpl in Habs;
      [|injection Habs as <-; auto].
    destruct (claim_registry.result c) as [won|]; [|injection Habs as <-; auto].
    destruct (0 <? _); simpl in Habs; [|injection Habs as <-; auto 10].
    unfold market.payout_amount, claim_registry.withdraw_escrow, coin.take,
      balance.split, u64_add, u64_sub, u64_mul, u64_div in Habs.
    simpl in Habs.
    repeat (case_match; simpl in Habs; try discriminate;
            try (injection Habs as <-; eauto 10)).
Qed.

(** ** A new claim *)

(** X28: a claim as [create_claim] makes it has the fresh id and a
    deadline after the clock; [cancel_claim] succeeds on it for its creator
    and for nobody else; [resolve_claim] succeeds on it from the deadline on
    and not at the time of creation; [claim_winnings] and [claim_refund]
    abort on it; and any payment can be staked on it through a new
    market. *)
Theorem new_claim_lifecycle (registry registry' : claim_registry.ClaimRegistry)
    (spec_blob evidence_blob descr : string) (deadline_ms fee_bps : Z)
    (clock : Clock) (ctx ctx' : TxContext) (c : claim_registry.Claim) :
  claim_registry.create_claim registry spec_blob evidence_blob descr
    deadline_ms fee_bps clock ctx = Ok (registry', c, ctx') →
  timestamp_ms clock < deadline_ms
  ∧ claim_registry.id c = fresh ctx
  ∧ (fresh ctx < fresh ctx')%N
  ∧ (∀ reason ctx1,
       claim_registry.cancel_claim c reason ctx1
       = if decide (sender ctx1 = sender ctx)
         then Ok (claim_registry.set_status c claim_registry.STATUS_CANCELLED)
         else Abort (claim_registry.err claim_registry.EUnauthorized))
  ∧ (∀ res blob m clock1,
       claim_registry.resolve_claim c res blob m clock1
       = if deadline_ms <=? timestamp_ms clock1
         then Ok (claim_registry.set_resolution c res blob m (timestamp_ms clock1))
         else Abort (claim_registry.err claim_registry.EDeadlineNotReached))
  ∧ (∀ res blob m,
       claim_registry.resolve_claim c res blob m clock
       = Abort (claim_registry.err claim_registry.EDeadlineNotReached))
  ∧ (∀ p ctx1,
       market.claim_winnings c p ctx1
       = Abort (market.err market.EClaimNotResolved)
       ∧ market.claim_refund c p ctx1
         = Abort (market.err market.EInvalidClaim))
  ∧ (∀ payment is_yes ctx1 ctx2,
       0 < payment <= MAX_U64 →
       is_ok (market.stake c (market.create_market (claim_registry.id c) ctx1).1
                payment is_yes ctx2) = true).
Proof.
  intros Hrun. apply create_claim_Ok in Hrun as (Hnow & _ & _ & -> & ->).
  split; [done|]. split; [done|]. split; [simpl; lia|]. split; [|split; [|split; [|split]]].
  - intros reason ctx1. rewrite cancel_claim_cases. simpl.
    destruct (decide (sender ctx1 = sender ctx)) as [Heq|Hne].
    + by rewrite bool_decide_eq_true_2 by done.
    + by rewrite bool_decide_eq_false_2 by congruence.
  - intros res blob m clock1. unfold claim_registry.resolve_claim. simpl.
    by destruct (deadline_ms <=? timestamp_ms clock1).
  - intros res blob m. unfold claim_registry.resolve_claim. simpl.
    assert (Hb : (deadline_ms <=? timestamp_ms clock) = false)
      by (apply Z.leb_gt; lia).
    by rewrite Hb.
  - intros p ctx1. split; reflexivity.
  - intros payment is_yes ctx1 ctx2 [Hpos Hmax].
    apply stake_is_ok; try done; simpl; try lia.
    all: try (destruct is_yes; lia).
    all: unfold MAX_U64; lia.
Qed.

(** The first claim of the ledger. *)
Lemma new_claim_lifecycle_witness :
  ∃ registry' c ctx',
    claim_registry.create_claim (claim_reg (genesis publisher)) "spec"
      "evidence" "rain tomorrow" 100 100 {| timestamp_ms := 10 |}
      (ctx_of creator1 (genesis publisher)) = Ok (registry', c, ctx')
    ∧ claim_registry.cancel_claim c "withdrawn" (ctx_of alice (genesis publisher))
      = Abort (claim_registry.err claim_registry.EUnauthorized)
    ∧ claim_registry.resolve_claim c true "result" oracle {| timestamp_ms := 99 |}
      = Abort (claim_registry.err claim_registry.EDeadlineNotReached)
    ∧ is_ok (market.stake c
               (market.create_market (claim_registry.id c)
                  (ctx_of bob (genesis publisher))).1
               7 false (ctx_of carol (genesis publisher))) = true.
Proof.
  destruct (claim_registry.create_claim (claim_reg (genesis publisher)) "spec"
              "evidence" "rain tomorrow" 100 100 {| timestamp_ms := 10 |}
              (ctx_of creator1 (genesis publisher)))
    as [[[registry' c] ctx']|e] eqn:Hrun; [|vm_compute in Hrun; discriminate].
  destruct (new_claim_lifecycle _ _ _ _ _ _ _ _ _ _ _ Hrun)
    as (_ & _ & _ & Hcancel & Hresolve & _ & _ & Hstake).
  exists registry', c, ctx'. split; [reflexivity|]. split; [|split].
  - rewrite Hcancel. reflexivity.
  - rewrite Hresolve. reflexivity.
  - apply Hstake. unfold MAX_U64. lia.
Defined.

(** ** Instances of the further properties *)

(** The key id of deadline 100, at 99, at 100 and later, cut short and extended. *)
Lemma seal_approve_decision_witness :
  length (CreateClaimDialog.idBytes 100) = 8%nat
  ∧ time_lock_policy.seal_approve (CreateClaimDialog.idBytes 100)
      {| timestamp_ms := 99 |}
    = Fail (PolicyAbort time_lock_policy.ENoAccess)
  ∧ time_lock_policy.seal_approve (CreateClaimDialog.idBytes 100)
      {| timestamp_ms := 100 |} = Pass tt
  ∧ time_lock_policy.seal_approve (CreateClaimDialog.idBytes 100)
      {| timestamp_ms := 5000 |} = Pass tt
  ∧ time_lock_policy.seal_approve (take 7 (CreateClaimDialog.idBytes 100))
      {| timestamp_ms := 5000 |} = Fail (BcsAbort bcs.EOutOfRange)
  ∧ time_lock_policy.seal_approve (CreateClaimDialog.idBytes 100 ++ ["000"%byte])
      {| timestamp_ms := 5000 |}
    = Fail (PolicyAbort time_lock_policy.ENoAccess).
Proof.
  split; [reflexivity|]. split; [|split; [|split; [|split]]].
  - exact (proj1 (proj2 (proj2 (seal_approve_decision
             (CreateClaimDialog.idBytes 100) {| timestamp_ms := 99 |}))) eq_refl).
  - exact (proj1 (proj2 (proj2 (seal_approve_decision
             (CreateClaimDialog.idBytes 100) {| timestamp_ms := 100 |}))) eq_refl).
  - refine (proj2 (proj2 (proj2 (seal_approve_decision
             (CreateClaimDialog.idBytes 100) {| timestamp_ms := 100 |})))
             {| timestamp_ms := 5000 |} eq_refl _).
    simpl. lia.
  - apply (proj1 (seal_approve_decision (take 7 (CreateClaimDialog.idBytes 100))
                    {| timestamp_ms := 5000 |})).
    simpl. lia.
  - apply (proj1 (proj2 (seal_approve_decision
                    (CreateClaimDialog.idBytes 100 ++ ["000"%byte])
                    {| timestamp_ms := 5000 |}))).
    simpl. lia.
Defined.

(** The key id of a deadline in 2026, at that very time. *)
Lemma dialog_key_unlocks_at_deadline_witness :
  is_u64 1767225600000
  ∧ le_value (CreateClaimDialog.idBytes 1767225600000) = 1767225600000
  ∧ (time_lock_policy.seal_approve (CreateClaimDialog.idBytes 1767225600000)
       {| timestamp_ms := 1767225600000 |} = Pass tt
     ↔ 1767225600000 <= 1767225600000).
Proof.
  assert (Hd : is_u64 1767225600000) by (unfold is_u64, MAX_U64; lia).
  split; [exact Hd|].
  destruct (dialog_key_unlocks_at_deadline 1767225600000
              {| timestamp_ms := 1767225600000 |} Hd) as (_ & Hval & Hiff & _).
  split; [exact Hval|exact Hiff].
Defined.

(** Alice tries to revoke the oracle. *)
Lemma measurement_registry_admin_only_witness :
  tx_sender (mk alice 16 (RevokeMeasurement oracle))
  ≠ attestation.admin (measurement_reg whitelisted_world)
  ∧ measurement_reg (step whitelisted_world (mk alice 16 (RevokeMeasurement oracle)))
    = measurement_reg whitelisted_world.
Proof.
  assert (Hne : tx_sender (mk alice 16 (RevokeMeasurement oracle))
                ≠ attestation.admin (measurement_reg whitelisted_world))
    by discriminate.
  split; [exact Hne|].
  exact (measurement_registry_admin_only whitelisted_world _ Hne).
Defined.

(** Alice tries to set the protocol fee. *)
Lemma fee_settings_recipient_only_witness :
  tx_sender (mk alice 16 (UpdateProtocolFee 5000))
  ≠ claim_registry.protocol_fee_recipient (claim_reg settled_world)
  ∧ claim_registry.default_protocol_fee_bps
      (claim_reg (step settled_world (mk alice 16 (UpdateProtocolFee 5000))))
    = claim_registry.default_protocol_fee_bps (claim_reg settled_world).
Proof.
  assert (Hne : tx_sender (mk alice 16 (UpdateProtocolFee 5000))
                ≠ claim_registry.protocol_fee_recipient (claim_reg settled_world))
    by discriminate.
  split; [exact Hne|].
  exact (proj1 (fee_settings_recipient_only settled_world _ Hne)).
Defined.

(** Alice claims her winnings of 165 on the settled claim. *)
Lemma payouts_go_to_position_user_witness :
  reachable publisher settled_world
  ∧ paid (step settled_world (mk alice 101 (ClaimWinnings 3%N 6%N)))
    = [(3%N, alice, 165)]
  ∧ (paid (step settled_world (mk alice 101 (ClaimWinnings 3%N 6%N)))
     = paid settled_world
     ∨ ∃ kc kp c p amount,
         tx_call (mk alice 101 (ClaimWinnings 3%N 6%N)) = ClaimWinnings kc kp
         ∧ claims settled_world !! kc = Some c
         ∧ positions settled_world !! kp = Some p
         ∧ claim_registry.status c = claim_registry.STATUS_RESOLVED
         ∧ market.user p = tx_sender (mk alice 101 (ClaimWinnings 3%N 6%N))
         ∧ market.claimed p = false
         ∧ 0 < amount <= claim_registry.escrow c
         ∧ paid (step settled_world (mk alice 101 (ClaimWinnings 3%N 6%N)))
           = (kc, tx_sender (mk alice 101 (ClaimWinnings 3%N 6%N)), amount)
             :: paid settled_world).
Proof.
  split; [apply settled_world_reachable|]. split; [vm_compute; reflexivity|].
  exact (payouts_go_to_position_user publisher settled_world
           (mk alice 101 (ClaimWinnings 3%N 6%N)) settled_world_reachable).
Defined.

(** The claim of [staked_world] over a stake, a whitelisting and its resolution. *)
Lemma claim_history_witness :
  reachable publisher staked_world
  ∧ ∃ c c',
      claims staked_world !! 3%N = Some c
      ∧ claims (run_all staked_world
                  [mk bob 13 (Stake 3%N 7%N 400 false);
                   mk publisher 15 (WhitelistMeasurement oracle "oracle v1");
                   mk resolver 100 (SubmitAttestedResolution 3%N false "result" oracle)])
          !! 3%N = Some c'
      ∧ claim_registry.status c = claim_registry.STATUS_OPEN
      ∧ claim_registry.status c' = claim_registry.STATUS_RESOLVED
      ∧ claim_evolves c c'.
Proof.
  split; [apply staked_world_reachable|].
  destruct (claims staked_world !! 3%N) as [c|] eqn:Hc;
    [|vm_compute in Hc; discriminate].
  assert (Hwf : Forall tx_wf
            [mk bob 13 (Stake 3%N 7%N 400 false);
             mk publisher 15 (WhitelistMeasurement oracle "oracle v1");
             mk resolver 100 (SubmitAttestedResolution 3%N false "result" oracle)])
    by history_wf.
  destruct (claim_history publisher staked_world _ 3%N c
              staked_world_reachable Hwf Hc) as (c' & Hc' & Hev).
  exists c, c'. split; [reflexivity|]. split; [exact Hc'|].
  vm_compute in Hc. injection Hc as <-.
  vm_compute in Hc'. injection Hc' as <-.
  split; [reflexivity|]. split; [reflexivity|]. exact Hev.
Defined.

(** Alice's position over her claim and bob's. *)
Lemma position_history_witness :
  reachable publisher settled_world
  ∧ positions settled_world !! 6%N = Some alice_position
  ∧ ∃ p', positions (run_all settled_world
                       [mk alice 101 (ClaimWinnings 3%N 6%N);
                        mk bob 102 (ClaimWinnings 3%N 7%N)]) !! 6%N = Some p'
          ∧ market.claimed p' = true
          ∧ position_evolves alice_position p'.
Proof.
  split; [apply settled_world_reachable|].
  split; [apply settled_world_objects|].
  assert (Hwf : Forall tx_wf [mk alice 101 (ClaimWinnings 3%N 6%N);
                              mk bob 102 (ClaimWinnings 3%N 7%N)])
    by history_wf.
  destruct (position_history publisher settled_world _ 6%N alice_position
              settled_world_reachable Hwf (proj2 settled_world_objects))
    as (p' & Hp' & Hev).
  exists p'. split; [exact Hp'|]. split; [|exact Hev].
  vm_compute in Hp'. injection Hp' as <-. reflexivity.
Defined.

(** The entry of the oracle over its revocation and an attempt to whitelist it again. *)
Lemma whitelist_history_witness :
  ∃ i i',
    attestation.measurements (measurement_reg whitelisted_world) !! oracle = Some i
    ∧ attestation.measurements
        (measurement_reg
           (run_all whitelisted_world
              [mk publisher 16 (RevokeMeasurement oracle);
               mk publisher 17 (WhitelistMeasurement oracle "oracle v2")]))
        !! oracle = Some i'
    ∧ attestation.active i = true
    ∧ attestation.active i' = false
    ∧ entry_evolves i i'.
Proof.
  destruct (attestation.measurements (measurement_reg whitelisted_world) !! oracle)
    as [i|] eqn:Hi; [|vm_compute in Hi; discriminate].
  destruct (whitelist_history whitelisted_world
              [mk publisher 16 (RevokeMeasurement oracle);
               mk publisher 17 (WhitelistMeasurement oracle "oracle v2")]
              oracle i Hi) as (i' & Hi' & Hev).
  exists i, i'. split; [reflexivity|]. split; [exact Hi'|].
  vm_compute in Hi. injection Hi as <-.
  vm_compute in Hi'. injection Hi' as <-.
  split; [reflexivity|]. split; [reflexivity|]. exact Hev.
Defined.

(** Alice's claim of winnings changes her position and leaves bob's. *)
Lemma untouched_objects_witness :
  reachable publisher settled_world
  ∧ tx_wf (mk alice 101 (ClaimWinnings 3%N 6%N))
  ∧ positions settled_world !! 7%N
    = positions (step settled_world (mk alice 101 (ClaimWinnings 3%N 6%N))) !! 7%N
  ∧ is_Some (positions settled_world !! 7%N)
  ∧ positions settled_world !! 6%N
    ≠ positions (step settled_world (mk alice 101 (ClaimWinnings 3%N 6%N))) !! 6%N.
Proof.
  assert (Hwf : tx_wf (mk alice 101 (ClaimWinnings 3%N 6%N)))
    by (unfold tx_wf; simpl; done).
  split; [apply settled_world_reachable|]. split; [exact Hwf|].
  destruct (untouched_objects publisher settled_world _
              settled_world_reachable Hwf) as (_ & Hpos & _).
  destruct (positions settled_world !! 7%N) as [p|] eqn:Hp;
    [|vm_compute in Hp; discriminate].
  split; [|split; [by eexists|vm_compute; discriminate]].
  symmetry. apply Hpos; [exact Hp|]. simpl. discriminate.
Defined.

(** The settled claim. *)
Lemma claim_dates_and_status_witness :
  reachable publisher settled_world
  ∧ claims settled_world !! 3%N = Some settled_claim
  ∧ claim_registry.id settled_claim = 3%N
  ∧ claim_registry.created_at settled_claim < claim_registry.deadline settled_claim
  ∧ claim_registry.status settled_claim ≠ claim_registry.STATUS_RESOLVING.
Proof.
  split; [apply settled_world_reachable|].
  split; [apply settled_world_objects|].
  destruct (claim_dates_and_status publisher settled_world 3%N settled_claim
              settled_world_reachable (proj1 settled_world_objects))
    as (Hid & Hdate & _ & Hst).
  split; [exact Hid|]. split; [exact Hdate|exact Hst].
Defined.

(** The resolution record of the settled claim. *)
Lemma resolution_record_witness :
  reachable publisher settled_world
  ∧ claims settled_world !! 3%N = Some settled_claim
  ∧ claim_registry.status settled_claim = claim_registry.STATUS_RESOLVED
  ∧ ∃ r t m info blob,
      claim_registry.result settled_claim = Some r
      ∧ claim_registry.resolved_at settled_claim = Some t
      ∧ claim_registry.deadline settled_claim <= t
      ∧ claim_registry.resolver_measurement settled_claim = Some m
      ∧ length m = 32%nat
      ∧ attestation.measurements (measurement_reg settled_world) !! m = Some info
      ∧ claim_registry.result_blob_id settled_claim = Some blob.
Proof.
  split; [apply settled_world_reachable|].
  split; [apply settled_world_objects|]. split; [reflexivity|].
  destruct (resolution_record publisher settled_world 3%N settled_claim
              settled_world_reachable (proj1 settled_world_objects))
    as (Hres & _).
  apply Hres. reflexivity.
Defined.

(** The two claims of [crossed_world]. *)
Lemma total_claims_counts_witness :
  reachable publisher crossed_world
  ∧ claim_registry.total_claims (claim_reg crossed_world) = 2
  ∧ claim_registry.total_claims (claim_reg crossed_world)
    = Z.of_nat (size (claims crossed_world)).
Proof.
  split; [apply crossed_world_reachable|]. split; [vm_compute; reflexivity|].
  exact (total_claims_counts publisher crossed_world crossed_world_reachable).
Defined.

(** The market of the settled claim, with three positions. *)
Lemma market_tables_consistent_witness :
  reachable publisher settled_world
  ∧ ∃ m, markets settled_world !! 4%N = Some m
         ∧ market.total_positions m = 3
         ∧ market.total_positions m = Z.of_nat (size (market.positions m))
         ∧ ∃ p, positions settled_world !! 6%N = Some p ∧ market.user p = alice.
Proof.
  split; [apply settled_world_reachable|].
  destruct (markets settled_world !! 4%N) as [m|] eqn:Hm;
    [|vm_compute in Hm; discriminate].
  destruct (market_tables_consistent publisher settled_world 4%N m
              settled_world_reachable Hm) as (_ & Hcount & Hentries).
  exists m. split; [reflexivity|].
  assert (Halice : market.positions m !! alice = Some 6%N).
  { vm_compute in Hm. injection Hm as <-. vm_compute. reflexivity. }
  destruct (Hentries alice 6%N Halice) as (p & Hp & Hu & _).
  split; [|split; [exact Hcount|exists p; split; [exact Hp|exact Hu]]].
  vm_compute in Hm. injection Hm as <-. reflexivity.
Defined.

(** Alice's position on the settled claim. *)
Lemma position_records_witness :
  reachable publisher settled_world
  ∧ positions settled_world !! 6%N = Some alice_position
  ∧ market.id alice_position = 6%N
  ∧ ∃ c, claims settled_world !! market.claim_id alice_position = Some c
         ∧ market.yes_amount alice_position <= claim_registry.yes_stake c
         ∧ market.no_amount alice_position <= claim_registry.no_stake c.
Proof.
  split; [apply settled_world_reachable|].
  split; [apply settled_world_objects|].
  destruct (position_records publisher settled_world 6%N alice_position
              settled_world_reachable (proj2 settled_world_objects))
    as (Hid & _ & Hc).
  split; [exact Hid|exact Hc].
Defined.

(** The entry of the oracle, revoked. *)
Lemma whitelist_keys_are_measurements_witness :
  reachable publisher revoked_world
  ∧ is_Some (attestation.measurements (measurement_reg revoked_world) !! oracle)
  ∧ length oracle = 32%nat.
Proof.
  split; [apply revoked_world_reachable|].
  destruct (attestation.measurements (measurement_reg revoked_world) !! oracle)
    as [info|] eqn:Hinfo; [|vm_compute in Hinfo; discriminate].
  split; [by eexists|].
  exact (whitelist_keys_are_measurements publisher revoked_world oracle info
           revoked_world_reachable Hinfo).
Defined.

(** Alice's 100 of 600 against 400: 165. *)
Lemma payout_bounds_witness :
  market.payout_amount settled_claim true 100 = Ok 165
  ∧ 100 <= 165
  ∧ 165 <= 100 + losing_total true settled_claim * 100
                 / winning_total true settled_claim
  ∧ 165 <= 100 + losing_total true settled_claim.
Proof.
  assert (Hrun : market.payout_amount settled_claim true 100 = Ok 165)
    by (vm_compute; reflexivity).
  split; [exact Hrun|].
  apply (payout_bounds settled_claim true 100 165);
    try (unfold total_fee_bps, winning_total, losing_total; simpl; lia).
  exact Hrun.
Defined.

(** Had NO won, carol's 400 would take 588 of the 600. *)
Lemma sole_winner_payout_witness :
  market.payout_amount settled_claim false 400 = Ok 988
  ∧ 988 = winning_total false settled_claim + losing_total false settled_claim
          - spec_fees (losing_total false settled_claim)
              (total_fee_bps settled_claim).
Proof.
  assert (Hrun : market.payout_amount settled_claim false
                   (winning_total false settled_claim) = Ok 988)
    by (vm_compute; reflexivity).
  split; [exact Hrun|].
  apply (sole_winner_payout settled_claim false 988); [|exact Hrun].
  unfold winning_total; simpl; lia.
Defined.

(** A stake of 99 on a winning side of 1,000,000. *)
Lemma dust_stake_payout_witness :
  market.payout_amount whale_claim true 99 = Ok 99
  ∧ 99 * 10000 < winning_total true whale_claim
  ∧ 0 < losing_total true whale_claim.
Proof.
  assert (Hrun : market.payout_amount whale_claim true 99 = Ok 99).
  { assert (Hr : ∃ r, market.payout_amount whale_claim true 99 = Ok r)
      by (eexists; vm_compute; reflexivity).
    destruct Hr as (r & Hr). rewrite Hr. f_equal.
    apply (dust_stake_payout whale_claim true 99 r); [lia| |exact Hr].
    unfold winning_total; simpl; lia. }
  split; [exact Hrun|].
  split; unfold winning_total, losing_total; simpl; lia.
Defined.

(** Alice's 100 and bob's 500 on the settled claim. *)
Lemma payout_monotone_witness :
  market.payout_amount settled_claim true 100 = Ok 165
  ∧ market.payout_amount settled_claim true 500 = Ok 827
  ∧ 165 <= 827 ∧ 165 - 100 <= 827 - 500.
Proof.
  assert (H1 : market.payout_amount settled_claim true 100 = Ok 165)
    by (vm_compute; reflexivity).
  assert (H2 : market.payout_amount settled_claim true 500 = Ok 827)
    by (vm_compute; reflexivity).
  split; [exact H1|]. split; [exact H2|].
  apply (payout_monotone settled_claim true 100 500 165 827);
    try (unfold total_fee_bps, winning_total, losing_total; simpl; lia); assumption.
Defined.

(** Revoking the oracle as alice, an unknown measurement, and the oracle. *)
Lemma revoke_measurement_decision_witness :
  attestation.admin (measurement_reg whitelisted_world) = publisher
  ∧ is_Some (attestation.measurements (measurement_reg whitelisted_world) !! oracle)
  ∧ attestation.revoke_measurement (measurement_reg whitelisted_world) oracle
      (ctx_of alice whitelisted_world)
    = Abort (attestation.err attestation.EUnauthorized)
  ∧ attestation.revoke_measurement (measurement_reg whitelisted_world)
      (repeat "002"%byte 32) (ctx_of publisher whitelisted_world)
    = Abort (MoveAbort InDynamicField table.EFieldDoesNotExist)
  ∧ ∃ registry',
      attestation.revoke_measurement (measurement_reg whitelisted_world) oracle
        (ctx_of publisher whitelisted_world) = Ok registry'
      ∧ attestation.is_measurement_whitelisted registry' oracle = false.
Proof.
  assert (Hin : is_Some (attestation.measurements
                           (measurement_reg whitelisted_world) !! oracle))
    by (vm_compute; eexists; reflexivity).
  split; [reflexivity|]. split; [exact Hin|]. split; [|split].
  - apply (proj1 (revoke_measurement_decision (measurement_reg whitelisted_world)
                    oracle (ctx_of alice whitelisted_world))).
    discriminate.
  - apply (proj1 (proj2 (revoke_measurement_decision
                           (measurement_reg whitelisted_world)
                           (repeat "002"%byte 32)
                           (ctx_of publisher whitelisted_world))));
      [reflexivity|vm_compute; reflexivity].
  - destruct (proj2 (proj2 (revoke_measurement_decision
                              (measurement_reg whitelisted_world) oracle
                              (ctx_of publisher whitelisted_world)))
                eq_refl Hin) as (registry' & Hrun & Hoff & _).
    exists registry'. split; [exact Hrun|exact Hoff].
Defined.

(** The publisher hands the measurement registry over to alice. *)
Lemma admin_handover_witness :
  ∃ registry',
    attestation.update_admin (measurement_reg whitelisted_world) alice
      (ctx_of publisher whitelisted_world) = Ok registry'
    ∧ attestation.admin registry' = alice
    ∧ attestation.revoke_measurement registry' oracle
        (ctx_of publisher whitelisted_world)
      = Abort (attestation.err attestation.EUnauthorized)
    ∧ is_ok (attestation.update_admin registry' bob (ctx_of alice whitelisted_world))
      = true.
Proof.
  destruct (attestation.update_admin (measurement_reg whitelisted_world) alice
              (ctx_of publisher whitelisted_world)) as [registry'|e] eqn:Hrun;
    [|vm_compute in Hrun; discriminate].
  destruct (admin_handover (measurement_reg whitelisted_world) registry' alice
              (ctx_of publisher whitelisted_world) Hrun)
    as (_ & Hadmin & _ & Hothers & Hself).
  exists registry'. split; [reflexivity|]. split; [exact Hadmin|]. split.
  - apply (Hothers (ctx_of publisher whitelisted_world) oracle ""%string
             {| timestamp_ms := 0 |} bob).
    discriminate.
  - apply Hself. reflexivity.
Defined.

(** A protocol fee of 250 basis points, and the next claim. *)
Lemma protocol_fee_applies_to_new_claims_witness :
  ∃ registry1 registry2 c ctx2,
    claim_registry.update_protocol_fee (claim_reg (genesis publisher)) 250
      (ctx_of publisher (genesis publisher)) = Ok registry1
    ∧ claim_registry.create_claim registry1 "spec" "evidence" "rain tomorrow"
        100 100 {| timestamp_ms := 10 |} (ctx_of creator1 (genesis publisher))
      = Ok (registry2, c, ctx2)
    ∧ claim_registry.protocol_fee_bps c = 250
    ∧ claim_registry.total_claims registry2 = 1.
Proof.
  destruct (claim_registry.update_protocol_fee (claim_reg (genesis publisher)) 250
              (ctx_of publisher (genesis publisher))) as [registry1|e] eqn:H1;
    [|vm_compute in H1; discriminate].
  destruct (claim_registry.create_claim registry1 "spec" "evidence"
              "rain tomorrow" 100 100 {| timestamp_ms := 10 |}
              (ctx_of creator1 (genesis publisher)))
    as [[[registry2 c] ctx2]|e] eqn:H2.
  - destruct (protocol_fee_applies_to_new_claims _ _ _ _ _ _ _ _ _ _ _ _ _ _
                H1 H2) as (_ & Hfee & _ & _ & Hcount).
    exists registry1, registry2, c, ctx2.
    split; [reflexivity|]. split; [exact H2|]. split; [exact Hfee|].
    rewrite Hcount. reflexivity.
  - vm_compute in H1. injection H1 as <-. vm_compute in H2. discriminate.
Defined.

(** The publisher hands the fee settings over to alice. *)
Lemma fee_recipient_handover_witness :
  ∃ registry',
    claim_registry.update_fee_recipient (claim_reg (genesis publisher)) alice
      (ctx_of publisher (genesis publisher)) = Ok registry'
    ∧ claim_registry.protocol_fee_recipient registry' = alice
    ∧ claim_registry.update_protocol_fee registry' 0
        (ctx_of publisher (genesis publisher))
      = Abort (claim_registry.err claim_registry.EUnauthorized)
    ∧ ∃ registry'',
        claim_registry.update_protocol_fee registry' 0
          (ctx_of alice (genesis publisher)) = Ok registry''
        ∧ claim_registry.default_protocol_fee_bps registry'' = 0.
Proof.
  destruct (claim_registry.update_fee_recipient (claim_reg (genesis publisher))
              alice (ctx_of publisher (genesis publisher)))
    as [registry'|e] eqn:Hrun; [|vm_compute in Hrun; discriminate].
  destruct (fee_recipient_handover (claim_reg (genesis publisher)) registry'
              alice (ctx_of publisher (genesis publisher)) Hrun)
    as (_ & Hrec & _ & _ & Hothers & Hself).
  exists registry'. split; [reflexivity|]. split; [exact Hrec|]. split.
  - apply (Hothers (ctx_of publisher (genesis publisher)) 0 bob). discriminate.
  - apply Hself. reflexivity.
Defined.

(** A short attestation, an unknown measurement, and the oracle followed by one more byte. *)
Lemma submit_attested_resolution_decision_witness :
  attestation.submit_attested_resolution (measurement_reg whitelisted_world)
    idle_claim true "result" (take 31 oracle) {| timestamp_ms := 100 |}
    (ctx_of resolver whitelisted_world)
  = Abort (attestation.err attestation.EInvalidAttestation)
  ∧ attestation.submit_attested_resolution (measurement_reg whitelisted_world)
      idle_claim true "result" (repeat "002"%byte 40) {| timestamp_ms := 100 |}
      (ctx_of resolver whitelisted_world)
    = Abort (attestation.err attestation.EMeasurementNotWhitelisted)
  ∧ attestation.submit_attested_resolution (measurement_reg whitelisted_world)
      idle_claim true "result" (oracle ++ ["007"%byte]) {| timestamp_ms := 100 |}
      (ctx_of resolver whitelisted_world)
    = claim_registry.resolve_claim idle_claim true "result" oracle
        {| timestamp_ms := 100 |}.
Proof.
  split; [|split].
  - apply (proj1 (submit_attested_resolution_decision
                    (measurement_reg whitelisted_world) idle_claim true "result"
                    (take 31 oracle) {| timestamp_ms := 100 |}
                    (ctx_of resolver whitelisted_world))).
    simpl. lia.
  - apply (proj1 (proj2 (submit_attested_resolution_decision
                           (measurement_reg whitelisted_world) idle_claim true
                           "result" (repeat "002"%byte 40)
                           {| timestamp_ms := 100 |}
                           (ctx_of resolver whitelisted_world))));
      [simpl; lia|vm_compute; reflexivity].
  - apply (proj1 (proj2 (proj2 (submit_attested_resolution_decision
                                  (measurement_reg whitelisted_world) idle_claim
                                  true "result" (oracle ++ ["007"%byte])
                                  {| timestamp_ms := 100 |}
                                  (ctx_of resolver whitelisted_world)))));
      [simpl; lia|vm_compute; reflexivity].
Defined.

(** An empty payment, a stake on a resolved claim, and a stake of 50. *)
Lemma stake_decision_witness :
  market.stake idle_claim (market.create_market 6%N (ctx_of creator1 cancelled_world)).1
    0 true (ctx_of alice cancelled_world)
  = Abort (market.err market.EInvalidAmount)
  ∧ market.stake settled_claim
      (market.create_market 3%N (ctx_of creator1 cancelled_world)).1
      50 true (ctx_of alice cancelled_world)
    = Abort (market.err market.EInvalidClaim)
  ∧ is_ok (market.stake idle_claim
             (market.create_market 6%N (ctx_of creator1 cancelled_world)).1
             50 true (ctx_of alice cancelled_world)) = true.
Proof.
  split; [|split].
  - apply (proj1 (stake_decision idle_claim
                    (market.create_market 6%N (ctx_of creator1 cancelled_world)).1
                    0 true (ctx_of alice cancelled_world))).
    lia.
  - apply (proj1 (proj2 (stake_decision settled_claim
                           (market.create_market 3%N
                              (ctx_of creator1 cancelled_world)).1
                           50 true (ctx_of alice cancelled_world))));
      [lia|discriminate].
  - apply (proj1 (proj2 (proj2 (proj2 (stake_decision idle_claim
                           (market.create_market 6%N
                              (ctx_of creator1 cancelled_world)).1
                           50 true (ctx_of alice cancelled_world))))));
      try reflexivity; try (simpl; unfold MAX_U64; lia).
Defined.

(** An open claim, bob with alice's position, and alice had NO won. *)
Lemma claim_winnings_refusals_witness :
  market.claim_winnings idle_claim alice_position (ctx_of alice settled_world)
  = Abort (market.err market.EClaimNotResolved)
  ∧ market.claim_winnings settled_claim alice_position (ctx_of bob settled_world)
    = Abort (market.err market.EInvalidClaim)
  ∧ market.claim_winnings
      (claim_registry.set_resolution settled_claim false "result" oracle 100)
      alice_position (ctx_of alice settled_world)
    = Abort (market.err market.ENoWinnings).
Proof.
  split; [|split].
  - apply (proj1 (claim_winnings_refusals idle_claim alice_position
                    (ctx_of alice settled_world))).
    discriminate.
  - apply (proj1 (proj2 (claim_winnings_refusals settled_claim alice_position
                           (ctx_of bob settled_world))));
      [reflexivity|reflexivity|discriminate].
  - apply (proj1 (proj2 (proj2 (proj2 (claim_winnings_refusals
             (claim_registry.set_resolution settled_claim false "result" oracle 100)
             alice_position (ctx_of alice settled_world))))) false);
      first [reflexivity | simpl; lia].
Defined.

(** The key ids of 100 and of 356. *)
Lemma key_id_determines_deadline_witness :
  is_u64 100 ∧ is_u64 356
  ∧ String.length (CreateClaimDialog.idHex 100) = 18%nat
  ∧ CreateClaimDialog.idHex 100 = "0x6400000000000000"%string
  ∧ CreateClaimDialog.idHex 356 = "0x6401000000000000"%string
  ∧ (CreateClaimDialog.idHex 100 = CreateClaimDialog.idHex 356 → 100 = 356).
Proof.
  assert (H1 : is_u64 100) by (unfold is_u64, MAX_U64; lia).
  assert (H2 : is_u64 356) by (unfold is_u64, MAX_U64; lia).
  split; [exact H1|]. split; [exact H2|].
  destruct (key_id_determines_deadline 100 356 H1 H2) as (Hlen & Hinj & _).
  split; [exact Hlen|]. split; [vm_compute; reflexivity|].
  split; [vm_compute; reflexivity|exact Hinj].
Defined.
